(** * Midtrans payment gateway: invoice store, webhook reconciliation and
      payment-link coordinator.

    A shallow embedding of the TypeScript sources
    ([MikroOrmInvoiceRepository.ts], [invoice.service.ts],
    [midtrans.service.ts], [midtrans.route.ts], [invoice.route.ts] and their
    earlier revisions kept in the tree) together with the properties the
    design document states about them.

    Conventions.
    - The [invoices] table is a [list Invoice]; a row is identified by its
      position, rows are never physically removed (deletion is soft).
    - [Date] values are milliseconds since the epoch, in [Z]; every operation
      that calls [new Date()] or [Date.now()] takes that instant as [now].
    - A thrown [Error] is [Throw msg], with [msg] the error's [message].
    - JSON fields that may be missing are [option string]: [None] is
      [undefined]. *)

From stdpp Require Import base option list strings pretty gmap.
From Stdlib Require Import ZArith Lia.

Local Open Scope string_scope.
Local Open Scope Z_scope.

(** ** Data model *)

(** Modelled from the spec: the enum of [entities/InvoiceStatus.ts], which is
    imported by every module but is not part of the tree (section 3:
    status is one of PENDING, PAID, FAILED, EXPIRED). *)
Inductive InvoiceStatus : Type :=
  | PENDING
  | PAID
  | FAILED
  | EXPIRED.

#[global] Instance InvoiceStatus_eq_dec : EqDecision InvoiceStatus.
Proof. solve_decision. Defined.

(** The [Invoice] entity ([InvoiceEntity.ts]); [expiredAt] and [gateway] are
    never read or written by the code below and are left out. *)
Record Invoice : Type := mkInvoice {
  id : string;
  orderId : string;
  amount : Z;
  status : InvoiceStatus;
  paymentType : option string;
  bank : option string;
  vaNumber : option string;
  gatewayResponse : option string;
  paidAt : option Z;
  paymentLink : option string;
  paymentLinkCreatedAt : option Z;
  paymentAttemptCount : Z;
  createdAt : Z;
  updatedAt : Z;
  deletedAt : option Z
}.

#[global] Instance Invoice_eq_dec : EqDecision Invoice.
Proof. solve_decision. Defined.

Abbreviation Store := (list Invoice).

(** The body of a gateway notification ([interface MidtransNotification]).
    [json] is the text [JSON.stringify] yields for the whole body. *)
Record Notification : Type := mkNotification {
  order_id : option string;
  transaction_id : option string;
  transaction_status : option string;
  gross_amount : option string;
  status_code : option string;
  signature_key : option string;
  payment_type : option string;
  notif_bank : option string;
  va_number : option string;
  json : string
}.

(** The [paymentData] argument of [updateStatus] and [updateStatusByOrderId]
    (camel-case keys). *)
Record PaymentData : Type := mkPaymentData {
  pd_paymentType : option string;
  pd_bank : option string;
  pd_vaNumber : option string;
  pd_gatewayResponse : option string
}.

Inductive Result (A : Type) : Type :=
  | Ok (a : A)
  | Throw (message : string).
Arguments Ok {A} a.
Arguments Throw {A} message.

Inductive CasResult : Type :=
  | SUCCESS
  | NOOP.

#[global] Instance CasResult_eq_dec : EqDecision CasResult.
Proof. solve_decision. Defined.

(** JavaScript truthiness of a possibly missing string, and its rendering
    inside a template literal. *)
Definition truthy (v : option string) : bool :=
  match v with
  | Some s => negb (String.eqb s "")
  | None => false
  end.

Definition tpl (v : option string) : string :=
  match v with
  | Some s => s
  | None => "undefined"
  end.

(** ** Entity mutation *)

Definition set_status (s : InvoiceStatus) (r : Invoice) : Invoice :=
  mkInvoice (id r) (orderId r) (amount r) s (paymentType r) (bank r)
    (vaNumber r) (gatewayResponse r) (paidAt r) (paymentLink r)
    (paymentLinkCreatedAt r) (paymentAttemptCount r) (createdAt r)
    (updatedAt r) (deletedAt r).

Definition set_paymentType (v : option string) (r : Invoice) : Invoice :=
  mkInvoice (id r) (orderId r) (amount r) (status r) v (bank r)
    (vaNumber r) (gatewayResponse r) (paidAt r) (paymentLink r)
    (paymentLinkCreatedAt r) (paymentAttemptCount r) (createdAt r)
    (updatedAt r) (deletedAt r).

Definition set_bank (v : option string) (r : Invoice) : Invoice :=
  mkInvoice (id r) (orderId r) (amount r) (status r) (paymentType r) v
    (vaNumber r) (gatewayResponse r) (paidAt r) (paymentLink r)
    (paymentLinkCreatedAt r) (paymentAttemptCount r) (createdAt r)
    (updatedAt r) (deletedAt r).

Definition set_vaNumber (v : option string) (r : Invoice) : Invoice :=
  mkInvoice (id r) (orderId r) (amount r) (status r) (paymentType r) (bank r)
    v (gatewayResponse r) (paidAt r) (paymentLink r)
    (paymentLinkCreatedAt r) (paymentAttemptCount r) (createdAt r)
    (updatedAt r) (deletedAt r).

Definition set_gatewayResponse (v : option string) (r : Invoice) : Invoice :=
  mkInvoice (id r) (orderId r) (amount r) (status r) (paymentType r) (bank r)
    (vaNumber r) v (paidAt r) (paymentLink r)
    (paymentLinkCreatedAt r) (paymentAttemptCount r) (createdAt r)
    (updatedAt r) (deletedAt r).

Definition set_paidAt (v : option Z) (r : Invoice) : Invoice :=
  mkInvoice (id r) (orderId r) (amount r) (status r) (paymentType r) (bank r)
    (vaNumber r) (gatewayResponse r) v (paymentLink r)
    (paymentLinkCreatedAt r) (paymentAttemptCount r) (createdAt r)
    (updatedAt r) (deletedAt r).

Definition set_paymentLink (v : option string) (r : Invoice) : Invoice :=
  mkInvoice (id r) (orderId r) (amount r) (status r) (paymentType r) (bank r)
    (vaNumber r) (gatewayResponse r) (paidAt r) v
    (paymentLinkCreatedAt r) (paymentAttemptCount r) (createdAt r)
    (updatedAt r) (deletedAt r).

Definition set_paymentLinkCreatedAt (v : option Z) (r : Invoice) : Invoice :=
  mkInvoice (id r) (orderId r) (amount r) (status r) (paymentType r) (bank r)
    (vaNumber r) (gatewayResponse r) (paidAt r) (paymentLink r)
    v (paymentAttemptCount r) (createdAt r)
    (updatedAt r) (deletedAt r).

Definition set_paymentAttemptCount (v : Z) (r : Invoice) : Invoice :=
  mkInvoice (id r) (orderId r) (amount r) (status r) (paymentType r) (bank r)
    (vaNumber r) (gatewayResponse r) (paidAt r) (paymentLink r)
    (paymentLinkCreatedAt r) v (createdAt r)
    (updatedAt r) (deletedAt r).

Definition set_updatedAt (v : Z) (r : Invoice) : Invoice :=
  mkInvoice (id r) (orderId r) (amount r) (status r) (paymentType r) (bank r)
    (vaNumber r) (gatewayResponse r) (paidAt r) (paymentLink r)
    (paymentLinkCreatedAt r) (paymentAttemptCount r) (createdAt r)
    v (deletedAt r).

Definition set_deletedAt (v : option Z) (r : Invoice) : Invoice :=
  mkInvoice (id r) (orderId r) (amount r) (status r) (paymentType r) (bank r)
    (vaNumber r) (gatewayResponse r) (paidAt r) (paymentLink r)
    (paymentLinkCreatedAt r) (paymentAttemptCount r) (createdAt r)
    (updatedAt r) v.

(** ** The entity manager *)

(** [em.findOne(Invoice, where)]: the first row the filter selects, with its
    position (the managed entity stays attached to that row). *)
Definition findOne (where_ : Invoice → bool) (db : Store)
  : option (nat * Invoice) :=
  list_find (λ r, where_ r = true) db.

(** A managed entity: the row it is attached to and its field values. *)
Definition Entity : Type := (nat * Invoice)%type.

(** [em.flush()] after a managed entity was assigned to: a row whose values
    did not change is not written; a changed row is written back and the
    [onUpdate] hook of [updatedAt] fires. *)
Definition flushed (e : Entity) (now : Z) (db : Store) : Invoice :=
  if decide (db !! e.1 = Some e.2) then e.2 else set_updatedAt now e.2.

Definition flush (e : Entity) (now : Z) (db : Store) : Store :=
  <[e.1 := flushed e now db]> db.

(** The object handed to [em.nativeUpdate]: [None] is a key the object does
    not have, which is left out of the SET list; [Some v] is a key the object
    has.  For a nullable column [Some None] is a key whose value is
    [undefined] or [null]: it is in the SET list and the column is set to
    NULL. *)
Record UpdateData : Type := mkUpdateData {
  u_status : option InvoiceStatus;
  u_updatedAt : option Z;
  u_paymentType : option (option string);
  u_bank : option (option string);
  u_vaNumber : option (option string);
  u_gatewayResponse : option (option string);
  u_paidAt : option (option Z)
}.

Definition assign {A : Type} (v : option A) (old : A) : A :=
  match v with
  | Some a => a
  | None => old
  end.

Definition applyUpdate (u : UpdateData) (r : Invoice) : Invoice :=
  mkInvoice (id r) (orderId r) (amount r)
    (assign (u_status u) (status r))
    (assign (u_paymentType u) (paymentType r))
    (assign (u_bank u) (bank r))
    (assign (u_vaNumber u) (vaNumber r))
    (assign (u_gatewayResponse u) (gatewayResponse r))
    (assign (u_paidAt u) (paidAt r))
    (paymentLink r) (paymentLinkCreatedAt r) (paymentAttemptCount r)
    (createdAt r)
    (assign (u_updatedAt u) (updatedAt r))
    (deletedAt r).

(** [em.nativeUpdate(Invoice, where, data)]: one UPDATE statement; every row
    the filter selects is rewritten, the number of such rows is returned. *)
Definition nativeUpdate (where_ : Invoice → bool) (u : UpdateData)
    (db : Store) : Store * nat :=
  (map (λ r, if where_ r then applyUpdate u r else r) db,
   length (filter (λ r, where_ r = true) db)).

(** What the repository takes from the database on an INSERT: whether the
    table accepts the row, and the message of the exception the driver
    raises when it does not.  The column types and the indexes of the
    schema are the database's to enforce, and the supported drivers differ
    on the types (an [int] column refuses 2147483648 on some and stores it
    on others).  On every driver the unique index on [order_id] refuses a
    row whose order id another row carries, soft-deleted or not. *)
Class Driver : Type := {
  accepts : Store → Invoice → bool;
  rejection : Store → Invoice → string;
  accepts_unique :
    ∀ db r, accepts db r = true →
            ∀ k x, db !! k = Some x → orderId x ≠ orderId r
}.

(** ** domain/repositories/MikroOrmInvoiceRepository.ts

    The filters are the [where] objects of the source; each of them carries
    [deletedAt: null]. *)

Module MikroOrmInvoiceRepository.

Definition where_id (i : string) (r : Invoice) : bool :=
  bool_decide (id r = i) && bool_decide (deletedAt r = None).

Definition where_orderId (o : string) (r : Invoice) : bool :=
  bool_decide (orderId r = o) && bool_decide (deletedAt r = None).

Definition where_pending (o : string) (r : Invoice) : bool :=
  bool_decide (orderId r = o) && bool_decide (status r = PENDING)
  && bool_decide (deletedAt r = None).

Definition findById (i : string) (db : Store) : option Entity :=
  findOne (where_id i) db.

Definition findByOrderId (o : string) (db : Store) : option Entity :=
  findOne (where_orderId o) db.

Definition findWithLock (i : string) (db : Store) : option Entity :=
  findOne (where_id i) db.

(** [new Invoice()] with the column defaults; [newId] is the primary key
    the entity is given. *)
Definition newInvoice (newId o : string) (amt now : Z) : Invoice :=
  mkInvoice newId o amt PENDING None None None None None None None 0
    now now None.

(** The duplicate check looks at live rows only; [persistAndFlush] is the
    INSERT, which the database may refuse, and the exception of which rolls
    the transaction back. *)
Definition create `{Driver} (newId o : string) (amt now : Z) (db : Store)
  : Store * Result Invoice :=
  match findOne (where_orderId o) db with
  | Some _ => (db, Throw "INVOICE_ALREADY_EXISTS")
  | None =>
      let invoice := newInvoice newId o amt now in
      if accepts db invoice
      then ((db ++ [invoice])%list, Ok invoice)
      else (db, Throw (rejection db invoice))
  end.

(** The assignments shared by [updateStatus] and [updateStatusByOrderId]. *)
Definition assignStatus (st : InvoiceStatus)
    (paymentData : option PaymentData) (now : Z) (invoice : Invoice)
  : Invoice :=
  let invoice := set_status st invoice in
  match paymentData with
  | Some pd =>
      let invoice := set_paymentType (pd_paymentType pd) invoice in
      let invoice := set_bank (pd_bank pd) invoice in
      let invoice := set_vaNumber (pd_vaNumber pd) invoice in
      let invoice := set_gatewayResponse (pd_gatewayResponse pd) invoice in
      if decide (st = PAID) then set_paidAt (Some now) invoice else invoice
  | None => invoice
  end.

(** [updateStatus] and [updateStatusByOrderId] first throw 'Invalid Status'
    unless [status] is a value of the enum; a [st : InvoiceStatus] always
    is. *)
Definition updateStatus (i : string) (st : InvoiceStatus)
    (paymentData : option PaymentData) (now : Z) (db : Store)
  : Store * Result Invoice :=
  match findOne (where_id i) db with
  | None => (db, Throw "Invoice not found")
  | Some (k, invoice) =>
      let e := (k, assignStatus st paymentData now invoice) in
      (flush e now db, Ok (flushed e now db))
  end.

Definition updateStatusByOrderId (o : string) (st : InvoiceStatus)
    (paymentData : option PaymentData) (now : Z) (db : Store)
  : Store * Result Invoice :=
  match findOne (where_orderId o) db with
  | None => (db, Throw ("Invoice with orderId " +:+ o +:+ " not found"))
  | Some (k, invoice) =>
      let e := (k, assignStatus st paymentData now invoice) in
      (flush e now db, Ok (flushed e now db))
  end.

(** The [updateData] object of [updateStatusAtomicFromPending].  With
    [paymentData] the keys [paymentType], [bank] and [vaNumber] are always
    assigned, to [undefined] when the notification lacks the field. *)
Definition buildUpdateData (newStatus : InvoiceStatus)
    (paymentData : option Notification) (now : Z) : UpdateData :=
  match paymentData with
  | Some pd =>
      mkUpdateData (Some newStatus) (Some now)
        (Some (payment_type pd)) (Some (notif_bank pd)) (Some (va_number pd))
        (Some (Some (json pd)))
        (if decide (newStatus = PAID) then Some (Some now) else None)
  | None =>
      mkUpdateData (Some newStatus) (Some now) None None None None None
  end.

Definition updateStatusAtomicFromPending (o : string)
    (newStatus : InvoiceStatus) (paymentData : option Notification)
    (now : Z) (db : Store) : Store * CasResult :=
  let updateData := buildUpdateData newStatus paymentData now in
  let '(db', result) := nativeUpdate (where_pending o) updateData db in
  (db', if decide (0 < result)%nat then SUCCESS else NOOP).

Definition softDelete (i : string) (now : Z) (db : Store)
  : Store * Result Invoice :=
  match findOne (where_id i) db with
  | None => (db, Throw "Invoice not found")
  | Some (k, invoice) =>
      let e := (k, set_deletedAt (Some now) invoice) in
      (flush e now db, Ok (flushed e now db))
  end.

End MikroOrmInvoiceRepository.

(** ** Platform and configuration *)

(** What the modules take from outside the repository: the [crypto] hash
    (hex digest of SHA-512), the numeric coercion [Number] on strings, and
    the two [midtransEnv] settings read by the code.  [StringToNumber s] is
    [Some z] when the JavaScript number denoted by [s] is the integer [z];
    it is [None] for [NaN] and for a non-integral value (neither is [===]
    to the value of an [int] column). *)
Class Platform : Type := {
  sha512_hex : string → string;
  StringToNumber : string → option Z;
  IS_PRODUCTION : bool;
  SERVER_KEY : string
}.

Definition Number `{Platform} (v : option string) : option Z :=
  match v with
  | Some s => StringToNumber s
  | None => None
  end.

(** [haystack.includes(needle)] *)
Fixpoint includes (needle haystack : string) : bool :=
  if String.prefix needle haystack then true
  else match haystack with
       | EmptyString => false
       | String _ rest => includes needle rest
       end.

(** ** services/midtrans.service.ts *)

(** The messages of [validatePaymentRules]: amount mismatch (expected,
    received), invoice already paid, invoice expired, status not open for
    payment. *)
Inductive RuleViolation : Type :=
  | AmountMismatch (expected : Z) (received : option Z)
  | AlreadyPaid
  | InvoiceExpired
  | StatusNotPayable (s : InvoiceStatus).

Module MidtransService.
Section WithPlatform.
Context `{Platform}.

Definition verifySignature (notification : Notification)
    (signature : string) : bool :=
  if negb IS_PRODUCTION then true
  else
    let signatureKey :=
      sha512_hex (tpl (order_id notification)
                  +:+ tpl (status_code notification)
                  +:+ tpl (gross_amount notification)
                  +:+ SERVER_KEY) in
    String.eqb signatureKey signature.

Definition validateWebhookRequest (notification : Notification)
  : option string :=
  if negb (truthy (order_id notification))
     || negb (truthy (transaction_status notification))
  then Some "Notifikasi tidak valid: order_id dan transaction_status diperlukan"
  else if negb (truthy (transaction_id notification))
  then Some "Notifikasi tidak valid: transaction_id diperlukan"
  else if negb (truthy (gross_amount notification))
  then Some "Notifikasi tidak valid: gross_amount diperlukan"
  else None.

Definition validatePaymentRules (invoice : Invoice)
    (notification : Notification) : option RuleViolation :=
  let invoiceAmount := amount invoice in
  let paidAmount := Number (gross_amount notification) in
  if negb (bool_decide (paidAmount = Some invoiceAmount))
  then Some (AmountMismatch invoiceAmount paidAmount)
  else if bool_decide (status invoice = PAID) then Some AlreadyPaid
  else if bool_decide (status invoice = EXPIRED) then Some InvoiceExpired
  else if bool_decide (status invoice ≠ PENDING)
          && bool_decide (status invoice ≠ FAILED)
  then Some (StatusNotPayable (status invoice))
  else None.

Definition isValidStatusTransition (currentStatus newStatus : InvoiceStatus)
  : bool :=
  let finalStatuses := [PAID; FAILED; EXPIRED] in
  if bool_decide (currentStatus ∈ finalStatuses) then false
  else bool_decide (currentStatus = PENDING).

Definition mapMidtransStatusToInvoice (transactionStatus : option string)
  : option InvoiceStatus :=
  match transactionStatus with
  | None => None
  | Some s =>
      if String.eqb s "settlement" || String.eqb s "capture" then Some PAID
      else if String.eqb s "pending" then Some PENDING
      else if String.eqb s "expire" || String.eqb s "cancel"
      then Some EXPIRED
      else if String.eqb s "deny" || String.eqb s "failure"
      then Some FAILED
      else None
  end.

End WithPlatform.
End MidtransService.

(** ** domain/services/invoice.service.ts (repository-based service) *)

(** The body sent to the gateway's payment-link endpoint. *)
Record GatewayRequest : Type := mkGatewayRequest {
  req_order_id : string;
  req_gross_amount : Z;
  req_usage_limit : Z;
  req_expiry_minutes : Z
}.

(** The gateway call of phase 2, [fetch] and the decoding of its answer
    taken together: [Ok url] is a 2xx answer carrying [payment_url];
    [Throw m] is a rejected [fetch] or a non-2xx answer, [m] the message of
    the error raised. *)
Definition Gateway : Type := GatewayRequest → Result string.

Module InvoiceService.
Import MikroOrmInvoiceRepository.

(** [x || 0] on a number. *)
Definition or_zero (x : Z) : Z := if decide (x = 0) then 0 else x.

Definition maxAge : Z := 30 * 60 * 1000.

(** [invoice.paymentLink && invoice.paymentLinkCreatedAt] followed by the
    age test [linkAge < maxAge]. *)
Definition activeLink (invoice : Invoice) (now : Z) : bool :=
  match paymentLinkCreatedAt invoice with
  | Some t =>
      truthy (paymentLink invoice) &&
      (let linkAge := now - t in bool_decide (linkAge < maxAge))
  | None => false
  end.

(** Step 1: the first transaction. *)
Definition phase1 (i : string) (now : Z) (db : Store)
  : Store * Result Entity :=
  match findById i db with
  | None => (db, Throw "Invoice Not Found")
  | Some (k, invoice) =>
      if decide (status invoice = PAID)
      then (db, Throw "INVOICE_ALREADY_PAID")
      else if decide (status invoice = EXPIRED)
      then (db, Throw "INVOICE_EXPIRED")
      else if decide (3 ≤ paymentAttemptCount invoice)
      then (db, Throw "MAX_PAYMENT_ATTEMPTS_REACHED")
      else if activeLink invoice now
      then (db, Throw "ACTIVE_PAYMENT_LINK_EXISTS")
      else
        let invoice :=
          set_paymentAttemptCount
            (or_zero (paymentAttemptCount invoice) + 1) invoice in
        let invoice := set_paymentLinkCreatedAt (Some now) invoice in
        (flush (k, invoice) now db, Ok (k, flushed (k, invoice) now db))
  end.

Definition gatewayRequest (invoice : Invoice) : GatewayRequest :=
  let midtransOrderId :=
    String.substring 0 25 (orderId invoice) +:+ "-"
    +:+ pretty (paymentAttemptCount invoice) in
  mkGatewayRequest midtransOrderId (amount invoice) 1 30.

(** Step 3: the transaction that stores the link. *)
Definition phase3a (i : string) (payment_url : string) (now : Z)
    (db : Store) : Store * Result Invoice :=
  match findById i db with
  | None => (db, Throw "Invoice Not Found")
  | Some (k, updatedInvoice) =>
      let e := (k, set_paymentLink (Some payment_url) updatedInvoice) in
      (flush e now db, Ok (flushed e now db))
  end.

(** The transaction of the [catch] block. *)
Definition phase3b (i : string) (now : Z) (db : Store) : Store :=
  match findById i db with
  | Some (k, failedInvoice) =>
      flush (k, set_paymentLinkCreatedAt None failedInvoice) now db
  | None => db
  end.

(** [generatePaymentLink(id)].  [now] is the instant of the first
    transaction, [later] the instant of the closing one; [race] is what
    other handlers commit to the table while the gateway call is in flight
    (the identity when the call runs alone). *)
Definition generatePaymentLink (gateway : Gateway) (race : Store → Store)
    (i : string) (now later : Z) (db : Store) : Store * Result Invoice :=
  match phase1 i now db with
  | (db1, Throw m) => (db1, Throw m)
  | (db1, Ok (_, invoice)) =>
      let db2 := race db1 in
      let attempt :=
        match gateway (gatewayRequest invoice) with
        | Throw m => (db2, Throw m)
        | Ok payment_url => phase3a i payment_url later db2
        end in
      match attempt with
      | (db3, Ok updatedInvoice) => (db3, Ok updatedInvoice)
      | (db3, Throw m) => (phase3b i later db3, Throw m)
      end
  end.

Definition softDelete := MikroOrmInvoiceRepository.softDelete.
Definition getById := MikroOrmInvoiceRepository.findById.
Definition getByOrderId := MikroOrmInvoiceRepository.findByOrderId.
Definition updateStatus := MikroOrmInvoiceRepository.updateStatus.
Definition updateStatusByOrderId :=
  MikroOrmInvoiceRepository.updateStatusByOrderId.
Definition updateStatusAtomicFromPending :=
  MikroOrmInvoiceRepository.updateStatusAtomicFromPending.

(** The [switch] of [handleMidtransCallback]; [None] is its [default]
    branch, which throws. *)
Definition switchStatus (transactionStatus : string)
  : option InvoiceStatus :=
  if String.eqb transactionStatus "settlement"
     || String.eqb transactionStatus "capture" then Some PAID
  else if String.eqb transactionStatus "pending" then Some PENDING
  else if String.eqb transactionStatus "expire"
          || String.eqb transactionStatus "cancel" then Some EXPIRED
  else if String.eqb transactionStatus "deny"
          || String.eqb transactionStatus "failure" then Some FAILED
  else None.

(** [handleMidtransCallback(orderId, transactionStatus, rawResponse)];
    [rawResponse] is given by its [JSON.stringify] text.  The lookup is
    [txRepo.findWithLock(orderId)], which filters on the [id] column. *)
Definition handleMidtransCallback (orderId_ transactionStatus : string)
    (rawResponse : string) (now : Z) (db : Store)
  : Store * Result Invoice :=
  if String.eqb orderId_ "" || String.eqb transactionStatus ""
  then (db, Throw "INVALID_CALLBACK_DATA")
  else
    match findWithLock orderId_ db with
    | None => (db, Throw "INVOICE_NOT_FOUND")
    | Some (k, invoice) =>
        match switchStatus transactionStatus with
        | None => (db, Throw "INVALID_TRANSACTION_STATUS")
        | Some newStatus =>
            if decide (status invoice = newStatus)
            then (db, Ok invoice)
            else
              let invoice := set_status newStatus invoice in
              let invoice :=
                set_gatewayResponse (Some rawResponse) invoice in
              let invoice :=
                if decide (newStatus = PAID)
                then set_paidAt (Some now) invoice else invoice in
              (flush (k, invoice) now db, Ok (flushed (k, invoice) now db))
        end
    end.

End InvoiceService.

(** ** services/invoice.service.legacy.ts (service on the entity manager)

    The same operations written against [em.findOne] and [em.nativeUpdate]
    directly; only those the properties below refer to are transcribed. *)

Module InvoiceServiceLegacy.

Definition live_id (i : string) (r : Invoice) : bool :=
  bool_decide (id r = i) && bool_decide (deletedAt r = None).

Definition live_orderId (o : string) (r : Invoice) : bool :=
  bool_decide (orderId r = o) && bool_decide (deletedAt r = None).

Definition generatePaymentLink (gateway : Gateway) (race : Store → Store)
    (i : string) (now later : Z) (db : Store) : Store * Result Invoice :=
  let step1 :=
    match findOne (live_id i) db with
    | None => (db, Throw "Invoice Not Found")
    | Some (k, invoice) =>
        if decide (status invoice = PAID)
        then (db, Throw "INVOICE_ALREADY_PAID")
        else if decide (status invoice = EXPIRED)
        then (db, Throw "INVOICE_EXPIRED")
        else if decide (3 ≤ paymentAttemptCount invoice)
        then (db, Throw "MAX_PAYMENT_ATTEMPTS_REACHED")
        else if InvoiceService.activeLink invoice now
        then (db, Throw "ACTIVE_PAYMENT_LINK_EXISTS")
        else
          let invoice :=
            set_paymentAttemptCount
              (InvoiceService.or_zero (paymentAttemptCount invoice) + 1)
              invoice in
          let invoice := set_paymentLinkCreatedAt (Some now) invoice in
          (flush (k, invoice) now db, Ok (flushed (k, invoice) now db))
    end in
  match step1 with
  | (db1, Throw m) => (db1, Throw m)
  | (db1, Ok invoice) =>
      let db2 := race db1 in
      let attempt :=
        match gateway (InvoiceService.gatewayRequest invoice) with
        | Throw m => (db2, Throw m)
        | Ok payment_url =>
            match findOne (live_id i) db2 with
            | None => (db2, Throw "Invoice Not Found")
            | Some (k, updatedInvoice) =>
                let e :=
                  (k, set_paymentLink (Some payment_url) updatedInvoice) in
                (flush e later db2, Ok (flushed e later db2))
            end
        end in
      match attempt with
      | (db3, Ok updatedInvoice) => (db3, Ok updatedInvoice)
      | (db3, Throw m) =>
          (match findOne (live_id i) db3 with
           | Some (k, failedInvoice) =>
               flush (k, set_paymentLinkCreatedAt None failedInvoice)
                 later db3
           | None => db3
           end, Throw m)
      end
  end.

Definition handleMidtransCallback (orderId_ transactionStatus : string)
    (rawResponse : string) (now : Z) (db : Store)
  : Store * Result Invoice :=
  if String.eqb orderId_ "" || String.eqb transactionStatus ""
  then (db, Throw "INVALID_CALLBACK_DATA")
  else
    match findOne (live_orderId orderId_) db with
    | None => (db, Throw "INVOICE_NOT_FOUND")
    | Some (k, invoice) =>
        match InvoiceService.switchStatus transactionStatus with
        | None => (db, Throw "INVALID_TRANSACTION_STATUS")
        | Some newStatus =>
            if decide (status invoice = newStatus)
            then (db, Ok invoice)
            else
              let invoice := set_status newStatus invoice in
              let invoice :=
                set_gatewayResponse (Some rawResponse) invoice in
              let invoice :=
                if decide (newStatus = PAID)
                then set_paidAt (Some now) invoice else invoice in
              (flush (k, invoice) now db, Ok (flushed (k, invoice) now db))
        end
    end.

Definition updateStatusAtomicFromPending (o : string)
    (newStatus : InvoiceStatus) (paymentData : option Notification)
    (now : Z) (db : Store) : Store * CasResult :=
  let updateData :=
    match paymentData with
    | Some pd =>
        mkUpdateData (Some newStatus) (Some now)
          (Some (payment_type pd)) (Some (notif_bank pd))
          (Some (va_number pd))
          (Some (Some (json pd)))
          (if decide (newStatus = PAID) then Some (Some now) else None)
    | None =>
        mkUpdateData (Some newStatus) (Some now) None None None None None
    end in
  let '(db', result) :=
    nativeUpdate
      (λ r, bool_decide (orderId r = o) && bool_decide (status r = PENDING)
            && bool_decide (deletedAt r = None))
      updateData db in
  (db', if decide (0 < result)%nat then SUCCESS else NOOP).

End InvoiceServiceLegacy.

(** ** HTTP responses *)

(** The JSON bodies the handlers answer with: [{ error }] with a fixed
    message or with a rule message, [{ error, timestamp }],
    [{ success: true, message }], [{ success: true, invoice, processedAt }],
    [{ received: true }], and [{ payment_url, order_id, payment_id,
    expires_in }] ([payment_id] is absent when a stored link is returned). *)
Inductive Body : Type :=
  | JError (error : string)
  | JRuleError (error : RuleViolation)
  | JFailure (error : string)
  | JSuccessMessage (message : string)
  | JSuccessInvoice (invoice : option Invoice)
  | JReceived
  | JPaymentUrl (payment_url : option string) (order : string)
      (payment_id : option string) (expires_in : Z).

Record Response : Type := mkResponse {
  http_status : Z;
  body : Body
}.

(** A response the caller sees as an error: a 4xx or 5xx status. *)
Definition is_error (r : Response) : bool := bool_decide (400 ≤ http_status r).

(** A field passed where a string is expected; the handlers only do so with
    fields an earlier check has found truthy. *)
Definition str (v : option string) : string := default "" v.

(** ** routes/midtrans.route.ts *)

Module MidtransRoute.
Section WithPlatform.
Context `{Platform}.
Import MidtransService.

Definition notificationId (notification : Notification) : string :=
  tpl (order_id notification) +:+ "_"
  +:+ tpl (transaction_id notification) +:+ "_"
  +:+ tpl (transaction_status notification).

(** The [catch] block, on the message of the error caught. *)
Definition onError (message : string) : Response :=
  if includes "Invoice with orderId" message && includes "not found" message
  then mkResponse 404 (JError "Invoice tidak ditemukan")
  else if includes "Invalid Status" message
  then mkResponse 400 (JError "Status pembayaran tidak valid")
  else if includes "Database not initialized" message
  then mkResponse 503 (JError "Layanan tidak tersedia")
  else mkResponse 500 (JFailure "Gagal memproses notifikasi pembayaran").

(** [POST /notification].  [signature] is the signature header ([''] when
    none is sent); [race] is what concurrent handlers commit between this
    handler's read of the invoice and its conditional update. *)
Definition notification (signature : string) (notification : Notification)
    (now : Z) (race : Store → Store)
    (processedNotifications : gset string) (db : Store)
  : gset string * Store * Response :=
  match validateWebhookRequest notification with
  | Some validationError =>
      (processedNotifications, db, mkResponse 400 (JError validationError))
  | None =>
  if IS_PRODUCTION && negb (verifySignature notification signature)
  then (processedNotifications, db, mkResponse 401 (JError "Unauthorized"))
  else
  let notificationId := notificationId notification in
  if bool_decide (notificationId ∈ processedNotifications)
  then (processedNotifications, db,
        mkResponse 200 (JSuccessMessage "Sudah diproses"))
  else
  match InvoiceService.getByOrderId (str (order_id notification)) db with
  | None =>
      (processedNotifications, db,
       mkResponse 404 (JError "Invoice tidak ditemukan"))
  | Some (_, invoice) =>
  match validatePaymentRules invoice notification with
  | Some businessRuleError =>
      (processedNotifications, db,
       mkResponse 400 (JRuleError businessRuleError))
  | None =>
  match mapMidtransStatusToInvoice (transaction_status notification) with
  | None =>
      (processedNotifications, db,
       onError ("Unknown transaction status: "
                +:+ tpl (transaction_status notification)))
  | Some newStatus =>
  if negb (isValidStatusTransition (status invoice) newStatus)
  then (processedNotifications, db,
        mkResponse 200 (JSuccessMessage "Status transition not allowed"))
  else if bool_decide (status invoice = newStatus)
  then (processedNotifications, db,
        mkResponse 200 (JSuccessMessage "Status already set - idempotent"))
  else
  let '(db', result) :=
    InvoiceService.updateStatusAtomicFromPending
      (str (order_id notification)) newStatus (Some notification) now
      (race db) in
  match result with
  | NOOP =>
      (processedNotifications, db',
       mkResponse 200 (JSuccessMessage "No operation performed"))
  | SUCCESS =>
      let updatedInvoice :=
        InvoiceService.getByOrderId (str (order_id notification)) db' in
      ({[notificationId]} ∪ processedNotifications, db',
       mkResponse 200 (JSuccessInvoice (snd <$> updatedInvoice)))
  end
  end
  end
  end
  end.

End WithPlatform.
End MidtransRoute.

(** ** The self-contained revision of the webhook route

    The earlier [midtrans.route.ts], which carries its own copies of
    [verifySignature], [validatePaymentRules] and [validateWebhookRequest]
    and has neither the transition guard nor the status-equality check. *)

Module MidtransRouteV1.
Section WithPlatform.
Context `{Platform}.

Definition verifySignature (notification : Notification)
    (signature : string) : bool :=
  if negb IS_PRODUCTION then true
  else
    let signatureKey :=
      sha512_hex (tpl (order_id notification)
                  +:+ tpl (status_code notification)
                  +:+ tpl (gross_amount notification)
                  +:+ SERVER_KEY) in
    String.eqb signatureKey signature.

Definition validatePaymentRules (invoice : Invoice)
    (notification : Notification) : option RuleViolation :=
  let invoiceAmount := amount invoice in
  let paidAmount := Number (gross_amount notification) in
  if negb (bool_decide (paidAmount = Some invoiceAmount))
  then Some (AmountMismatch invoiceAmount paidAmount)
  else if bool_decide (status invoice = PAID) then Some AlreadyPaid
  else if bool_decide (status invoice = EXPIRED) then Some InvoiceExpired
  else if bool_decide (status invoice ≠ PENDING)
          && bool_decide (status invoice ≠ FAILED)
  then Some (StatusNotPayable (status invoice))
  else None.

Definition validateWebhookRequest (notification : Notification)
  : option string :=
  if negb (truthy (order_id notification))
     || negb (truthy (transaction_status notification))
  then Some "Notifikasi tidak valid: order_id dan transaction_status diperlukan"
  else if negb (truthy (transaction_id notification))
  then Some "Notifikasi tidak valid: transaction_id diperlukan"
  else if negb (truthy (gross_amount notification))
  then Some "Notifikasi tidak valid: gross_amount diperlukan"
  else None.

Definition notification (signature : string) (notification : Notification)
    (now : Z) (race : Store → Store)
    (processedNotifications : gset string) (db : Store)
  : gset string * Store * Response :=
  match validateWebhookRequest notification with
  | Some validationError =>
      (processedNotifications, db, mkResponse 400 (JError validationError))
  | None =>
  if IS_PRODUCTION && negb (verifySignature notification signature)
  then (processedNotifications, db, mkResponse 401 (JError "Unauthorized"))
  else
  let notificationId := MidtransRoute.notificationId notification in
  if bool_decide (notificationId ∈ processedNotifications)
  then (processedNotifications, db,
        mkResponse 200 (JSuccessMessage "Sudah diprosesupdatedInvoice"))
  else
  match InvoiceService.getByOrderId (str (order_id notification)) db with
  | None =>
      (processedNotifications, db,
       mkResponse 404 (JError "Invoice tidak ditemukan"))
  | Some (_, invoice) =>
  match validatePaymentRules invoice notification with
  | Some businessRuleError =>
      (processedNotifications, db,
       mkResponse 400 (JRuleError businessRuleError))
  | None =>
  match MidtransService.mapMidtransStatusToInvoice
          (transaction_status notification) with
  | None =>
      (processedNotifications, db,
       MidtransRoute.onError
         ("Unknown transaction status: "
          +:+ tpl (transaction_status notification)))
  | Some newStatus =>
  let '(db', result) :=
    InvoiceService.updateStatusAtomicFromPending
      (str (order_id notification)) newStatus (Some notification) now
      (race db) in
  match result with
  | NOOP =>
      (processedNotifications, db',
       MidtransRoute.onError "Invoice not in PENDING state")
  | SUCCESS =>
      let updatedInvoice :=
        InvoiceService.getByOrderId (str (order_id notification)) db' in
      ({[notificationId]} ∪ processedNotifications, db',
       mkResponse 200 (JSuccessInvoice (snd <$> updatedInvoice)))
  end
  end
  end
  end
  end.

End WithPlatform.
End MidtransRouteV1.

(** ** The callback route of the earlier midtrans.service.ts

    The revision of [midtrans.service.ts] that exports [callbackRoute], the
    handler the application mounts under [/midtrans]. *)

Module CallbackRoute.
Section WithPlatform.
Context `{Platform}.

Definition verifySignature (notification : Notification) : bool :=
  if negb (truthy (order_id notification))
     || negb (truthy (status_code notification))
     || negb (truthy (gross_amount notification))
     || negb (truthy (signature_key notification))
  then false
  else
    let payload :=
      tpl (order_id notification) +:+ tpl (status_code notification)
      +:+ tpl (gross_amount notification) +:+ SERVER_KEY in
    let calculated := sha512_hex payload in
    bool_decide (signature_key notification = Some calculated).

Definition isValidStatusTransition (currentStatus newStatus : InvoiceStatus)
  : bool :=
  let finalStatuses := [PAID; FAILED; EXPIRED] in
  if bool_decide (currentStatus ∈ finalStatuses) then false
  else if bool_decide (currentStatus = PENDING) then true
  else false.

Definition mapMidtransStatusToInvoice (transactionStatus : option string)
  : option InvoiceStatus :=
  match transactionStatus with
  | None => None
  | Some s =>
      if String.eqb s "settlement" || String.eqb s "capture" then Some PAID
      else if String.eqb s "pending" then Some PENDING
      else if String.eqb s "expire" || String.eqb s "cancel"
      then Some EXPIRED
      else if String.eqb s "deny" || String.eqb s "failure"
      then Some FAILED
      else None
  end.

(** [POST /notification]; [body] is [None] when the request does not
    carry JSON. *)
Definition notification (body : option Notification) (now : Z)
    (race : Store → Store) (db : Store) : Store * Response :=
  match body with
  | None => (db, mkResponse 400 (JError "Invalid JSON"))
  | Some body =>
  if negb (verifySignature body) then (db, mkResponse 200 JReceived)
  else
  match InvoiceService.getByOrderId (str (order_id body)) db with
  | None => (db, mkResponse 200 JReceived)
  | Some (_, invoice) =>
  match mapMidtransStatusToInvoice (transaction_status body) with
  | None => (db, mkResponse 200 JReceived)
  | Some newStatus =>
  if negb (isValidStatusTransition (status invoice) newStatus)
  then (db, mkResponse 200 JReceived)
  else if bool_decide (status invoice = newStatus)
  then (db, mkResponse 200 JReceived)
  else
  let '(db', result) :=
    InvoiceService.updateStatusAtomicFromPending
      (str (order_id body)) newStatus (Some body) now (race db) in
  match result with
  | NOOP => (db', mkResponse 200 JReceived)
  | SUCCESS => (db', mkResponse 200 JReceived)
  end
  end
  end
  end.

End WithPlatform.
End CallbackRoute.

(** ** routes/invoice.route.ts *)

Module InvoiceRoute.

(** [Math.ceil(x / 1000)] *)
Definition ceil_div_1000 (x : Z) : Z := - ((- x) / 1000).

(** [POST /v1/payment-links] with body [{ order_id }]; [order] is that
    field, a string (the schema answers 400 to any other body before the
    code below runs).  [now] is the instant of the route's own freshness
    test; [now1] and [later] are the instants of the two transactions of
    [generatePaymentLink]. *)
Definition payment_links (gateway : Gateway) (race : Store → Store)
    (order : string) (now now1 later : Z)
    (processingPaymentLinks : gset string) (db : Store)
  : gset string * Store * Response :=
  if String.eqb order ""
  then (processingPaymentLinks, db,
        mkResponse 400 (JError "order_id is required"))
  else
  let lockkey := "payment_link_" +:+ order in
  if bool_decide (lockkey ∈ processingPaymentLinks)
  then (processingPaymentLinks, db,
        mkResponse 429
          (JError "Payment link generation is already in progress"))
  else
  let processing := {[lockkey]} ∪ processingPaymentLinks in
  let '(db', response) :=
    match InvoiceService.getByOrderId order db with
    | None => (db, mkResponse 404 (JError "Payment not found"))
    | Some (_, payment) =>
        if decide (status payment = PAID)
        then (db, mkResponse 409 (JError "Payment already paid"))
        else if decide (status payment = EXPIRED)
        then (db, mkResponse 409 (JError "Payment expired"))
        else if decide (3 ≤ paymentAttemptCount payment)
        then (db, mkResponse 409
                    (JError "Maximum payment attempts reached"))
        else if InvoiceService.activeLink payment now
        then
          let linkAge := now - default 0 (paymentLinkCreatedAt payment) in
          (db, mkResponse 200
                 (JPaymentUrl (paymentLink payment) (orderId payment) None
                    (ceil_div_1000 (InvoiceService.maxAge - linkAge))))
        else
          match InvoiceService.generatePaymentLink gateway race
                  (id payment) now1 later db with
          | (db', Ok updatedPayment) =>
              (db', mkResponse 200
                      (JPaymentUrl (paymentLink updatedPayment)
                         (orderId updatedPayment)
                         (Some ("PL-" +:+ id updatedPayment)) (30 * 60)))
          | (db', Throw _) =>
              (db', mkResponse 500 (JError "Internal server error"))
          end
    end in
  (processing ∖ {[lockkey]}, db', response).

End InvoiceRoute.

(** ** Histories of committed writes

    Every write the modules make is one transaction or one statement; a
    history is the order in which they commit.  The three transactions of
    [generatePaymentLink] are separate entries, so a history may place the
    writes of other handlers between them. *)

Inductive Txn : Type :=
  | WCreate (newId o : string) (amt now : Z)
  | WUpdateStatus (i : string) (st : InvoiceStatus)
      (paymentData : option PaymentData) (now : Z)
  | WUpdateStatusByOrderId (o : string) (st : InvoiceStatus)
      (paymentData : option PaymentData) (now : Z)
  | WAtomicFromPending (o : string) (newStatus : InvoiceStatus)
      (paymentData : option Notification) (now : Z)
  | WSoftDelete (i : string) (now : Z)
  | WLinkPhase1 (i : string) (now : Z)
  | WLinkPhase3a (i : string) (payment_url : string) (now : Z)
  | WLinkPhase3b (i : string) (now : Z)
  | WHandleCallback (o transactionStatus rawResponse : string) (now : Z)
  | WHandleCallbackLegacy (o transactionStatus rawResponse : string)
      (now : Z).

Definition commit `{Driver} (w : Txn) (db : Store) : Store :=
  match w with
  | WCreate newId o amt now =>
      (MikroOrmInvoiceRepository.create newId o amt now db).1
  | WUpdateStatus i st pd now =>
      (MikroOrmInvoiceRepository.updateStatus i st pd now db).1
  | WUpdateStatusByOrderId o st pd now =>
      (MikroOrmInvoiceRepository.updateStatusByOrderId o st pd now db).1
  | WAtomicFromPending o st pd now =>
      (MikroOrmInvoiceRepository.updateStatusAtomicFromPending o st pd now
         db).1
  | WSoftDelete i now => (MikroOrmInvoiceRepository.softDelete i now db).1
  | WLinkPhase1 i now => (InvoiceService.phase1 i now db).1
  | WLinkPhase3a i url now => (InvoiceService.phase3a i url now db).1
  | WLinkPhase3b i now => InvoiceService.phase3b i now db
  | WHandleCallback o ts raw now =>
      (InvoiceService.handleMidtransCallback o ts raw now db).1
  | WHandleCallbackLegacy o ts raw now =>
      (InvoiceServiceLegacy.handleMidtransCallback o ts raw now db).1
  end.

Definition commits `{Driver} (history : list Txn) (db : Store) : Store :=
  foldl (λ db w, commit w db) db history.

(** ** Sample data *)

(** Reads a plain decimal numeral. *)
Fixpoint decimal (acc : Z) (s : string) : option Z :=
  match s with
  | EmptyString => Some acc
  | String c rest =>
      let d := Z.of_N (Ascii.N_of_ascii c) - 48 in
      if bool_decide (0 ≤ d ≤ 9) then decimal (10 * acc + d) rest else None
  end.

(** A platform to run the definitions on: the digest is a stand-in that
    tags its input, [Number] is only given on plain decimal numerals. *)
Definition samplePlatform (production : bool) : Platform :=
  {| sha512_hex := λ s, "sha512:" +:+ s;
     StringToNumber := decimal 0;
     IS_PRODUCTION := production;
     SERVER_KEY := "SB-Mid-server-KEY" |}.

(** A database to run the definitions on: it enforces the unique index on
    [order_id], the [int] column of [amount] and the 64 characters of
    [order_id]. *)
Definition sampleAccepts (db : Store) (r : Invoice) : bool :=
  forallb (λ x, negb (String.eqb (orderId x) (orderId r))) db
  && bool_decide (-2147483648 ≤ amount r ≤ 2147483647)
  && bool_decide (String.length (orderId r) ≤ 64)%nat.

Definition sampleDriver : Driver.
Proof.
  refine {| accepts := sampleAccepts;
            rejection := λ _ _, "DriverException" |}.
  intros db r Hok k x Hk Heq.
  unfold sampleAccepts in Hok.
  apply andb_true_iff in Hok as [Hok _].
  apply andb_true_iff in Hok as [Hok _].
  rewrite forallb_forall in Hok.
  assert (Hin : In x db).
  { apply list_elem_of_In. by apply (list_elem_of_lookup_2 db k). }
  specialize (Hok x Hin). rewrite Heq, String.eqb_refl in Hok. done.
Defined.

Definition sampleInvoice (st : InvoiceStatus) (attempts : Z)
    (link : option string) (linkAt : option Z) (deleted : option Z)
  : Invoice :=
  mkInvoice "inv-1" "PAY-1" 100000 st None None None None None link linkAt
    attempts 0 0 deleted.

Definition sampleNotification (vendorStatus gross signature : string)
  : Notification :=
  mkNotification (Some "PAY-1") (Some "trx-1") (Some vendorStatus)
    (Some gross) (Some "200") (Some signature) (Some "bank_transfer")
    (Some "bca") (Some "1234567890") "{}".

Definition failingGateway : Gateway := λ _, Throw "Midtrans API error: 500 - ".

Definition workingGateway : Gateway :=
  λ _, Ok "https://app.midtrans.com/payment-links/1".

(** ** Vocabulary of the properties *)

(** What may happen to one row from one committed write to the next: the
    keys and the amount stay, a soft-deleted row stays as it is, and the
    attempt counter does not go down and is not raised above 3. *)
Definition evolves (r r' : Invoice) : Prop :=
  id r' = id r ∧ orderId r' = orderId r ∧ amount r' = amount r ∧
  (deletedAt r ≠ None → r' = r) ∧
  paymentAttemptCount r ≤ paymentAttemptCount r' ∧
  (paymentAttemptCount r' = paymentAttemptCount r ∨
   paymentAttemptCount r' ≤ 3).

(** The schema's keys: [id] is the primary key, [orderId] carries a unique
    index. *)
Definition primaryKey (db : Store) : Prop :=
  ∀ j k r r', db !! j = Some r → db !! k = Some r' → id r = id r' → j = k.

Definition uniqueOrderId (db : Store) : Prop :=
  ∀ j k r r',
    db !! j = Some r → db !! k = Some r' → orderId r = orderId r' → j = k.

(** The writes that go through a guard on the stored status: all but the
    unconditional [updateStatus], [updateStatusByOrderId] and
    [handleMidtransCallback]. *)
Definition guardedWrite (w : Txn) : bool :=
  match w with
  | WUpdateStatus _ _ _ _ | WUpdateStatusByOrderId _ _ _ _
  | WHandleCallback _ _ _ _ | WHandleCallbackLegacy _ _ _ _ => false
  | _ => true
  end.

(** ** middleware/auth.middleware.ts *)

(** What the middleware and the id-based routes take from outside:
    [String.prototype.trim] and the [API_KEY] setting of [env]. *)
Class Http : Type := {
  trim : string → string;
  API_KEY : string
}.

Module AuthMiddleware.

(** An entry of the [rateLimiter] map. *)
Record Client : Type := mkClient {
  count : Z;
  resetTime : Z
}.

(** What a middleware does with a request: it calls [next()], or it answers
    429 [{ error: 'Too many requests', retryAfter }], or it answers 401
    [{ error: 'Invalid credentials' }]. *)
Inductive Verdict : Type :=
  | Next
  | TooManyRequests (retryAfter : Z)
  | InvalidCredentials.

(** [x-forwarded-for || x-real-ip || 'unknown'] *)
Definition clientIP (forwardedFor realIp : option string) : string :=
  if truthy forwardedFor then str forwardedFor
  else if truthy realIp then str realIp
  else "unknown".

(** [Math.ceil(x / 1000)] *)
Definition ceilSeconds (x : Z) : Z := - ((- x) / 1000).

(** The middleware [throttle(maxRequests, windowMs)] builds, on a request
    of [clientIP] at instant [now]. *)
Definition throttle (maxRequests windowMs : Z) (clientIP : string) (now : Z)
    (rateLimiter : gmap string Client) : gmap string Client * Verdict :=
  match rateLimiter !! clientIP with
  | None =>
      (<[clientIP := mkClient 1 (now + windowMs)]> rateLimiter, Next)
  | Some client =>
      if bool_decide (resetTime client < now)
      then (<[clientIP := mkClient 1 (now + windowMs)]> rateLimiter, Next)
      else if bool_decide (maxRequests ≤ count client)
      then (rateLimiter,
            TooManyRequests (ceilSeconds (resetTime client - now)))
      else (<[clientIP := mkClient (count client + 1) (resetTime client)]>
              rateLimiter, Next)
  end.

Definition cleanupRateLimiter (now : Z) (rateLimiter : gmap string Client)
  : gmap string Client :=
  filter (λ entry, ¬ (resetTime entry.2 < now)) rateLimiter.

Definition apiKeyAuth `{Http} (apiKey : option string) : Verdict :=
  if negb (truthy apiKey) || negb (String.eqb (str apiKey) API_KEY)
  then InvalidCredentials
  else Next.

End AuthMiddleware.

(** ** routes/invoice.route.ts: the routes addressed by invoice id *)

(** The answers of these routes: [{ error }] with its status, the invoice
    itself (200), and [{ paymentLink, paymentLinkCreatedAt,
    paymentAttemptCount, expiresIn }] (200). *)
Inductive Reply : Type :=
  | RError (status_ : Z) (error : string)
  | RInvoice (invoice : Invoice)
  | RLink (link : option string) (linkCreatedAt : option Z) (attempts : Z)
      (expiresIn : Z).

Module InvoiceRouteById.
Section WithHttp.
Context `{Http}.

(** [!id || id.trim() === ''] *)
Definition invalidId (i : string) : bool :=
  String.eqb i "" || String.eqb (trim i) "".

(** The [switch] on [error.message] in the [catch] block of the
    payment-link route. *)
Definition linkError (message : string) : Reply :=
  if String.eqb message "Invoice Not Found"
  then RError 404 "Invoice tidak ditemukan"
  else if String.eqb message "INVOICE_ALREADY_PAID"
  then RError 409 "Invoice sudah lunas"
  else if String.eqb message "INVOICE_EXPIRED"
  then RError 409 "Invoice sudah kadaluarsa"
  else if String.eqb message "MAX_PAYMENT_ATTEMPTS_REACHED"
  then RError 409 "Maksimal percobaan pembayaran tercapai"
  else if String.eqb message "ACTIVE_PAYMENT_LINK_EXISTS"
  then RError 409 "Payment link aktif sudah ada"
  else RError 500 "Error server internal".

(** [POST /invoices/:id/generate-payment-link], behind [apiKeyAuth]. *)
Definition generate_payment_link (gateway : Gateway) (race : Store → Store)
    (apiKey : option string) (i : string) (now later : Z) (db : Store)
  : Store * Reply :=
  match AuthMiddleware.apiKeyAuth apiKey with
  | AuthMiddleware.Next =>
      if invalidId i then (db, RError 400 "ID invoice tidak valid")
      else
        match InvoiceService.generatePaymentLink gateway race i now later
                db with
        | (db', Ok result) =>
            (db', RLink (paymentLink result) (paymentLinkCreatedAt result)
                    (paymentAttemptCount result) (30 * 60))
        | (db', Throw message) => (db', linkError message)
        end
  | _ => (db, RError 401 "Invalid credentials")
  end.

(** [GET /invoices/:id] *)
Definition get_invoice (i : string) (db : Store) : Reply :=
  if invalidId i then RError 400 "ID pembayaran tidak valid"
  else
    match InvoiceService.getById i db with
    | None => RError 404 "Pembayaran tidak ditemukan"
    | Some (_, invoice) => RInvoice invoice
    end.

(** [DELETE /invoices/:id], behind [apiKeyAuth]. *)
Definition delete_invoice (apiKey : option string) (i : string) (now : Z)
    (db : Store) : Store * Reply :=
  match AuthMiddleware.apiKeyAuth apiKey with
  | AuthMiddleware.Next =>
      if invalidId i then (db, RError 400 "ID pembayaran tidak valid")
      else
        match InvoiceService.softDelete i now db with
        | (db', Ok invoice) => (db', RInvoice invoice)
        | (db', Throw message) =>
            if String.eqb message "Invoice not found"
            then (db', RError 404 "Pembayaran tidak ditemukan")
            else (db', RError 500 "Error server internal")
        end
  | _ => (db, RError 401 "Invalid credentials")
  end.

End WithHttp.
End InvoiceRouteById.

(** An [Http] to run the routes on: [trim] strips spaces only. *)
Fixpoint dropSpaces (s : string) : string :=
  match s with
  | String c rest =>
      if Ascii.eqb c (Ascii.ascii_of_nat 32) then dropSpaces rest else s
  | EmptyString => s
  end.

Definition sampleHttp : Http :=
  {| trim := λ s, String.rev (dropSpaces (String.rev (dropSpaces s)));
     API_KEY := "secret-key" |}.

(** ** Further vocabulary *)

(** [orderId] is unique among the rows that are not soft-deleted. *)
Definition liveUnique (db : Store) : Prop :=
  ∀ j k r r',
    db !! j = Some r → db !! k = Some r' →
    deletedAt r = None → deletedAt r' = None →
    orderId r = orderId r' → j = k.

(** The requests of one client at the instants [times], one after the
    other, through one throttle: the limiter they leave behind and how many
    of them reached [next()]. *)
Fixpoint replay (maxRequests windowMs : Z) (clientIP : string)
    (times : list Z) (rateLimiter : gmap string AuthMiddleware.Client)
  : gmap string AuthMiddleware.Client * nat :=
  match times with
  | [] => (rateLimiter, 0%nat)
  | now :: rest =>
      let '(rateLimiter', verdict) :=
        AuthMiddleware.throttle maxRequests windowMs clientIP now
          rateLimiter in
      let '(final, passed) :=
        replay maxRequests windowMs clientIP rest rateLimiter' in
      (final,
       match verdict with
       | AuthMiddleware.Next => S passed
       | _ => passed
       end)
  end.

(** The first transaction of [generatePaymentLink] with other transactions
    committing between its read and its flush.  [findById] takes no lock:
    it returns the row as the table has it at that moment, [db]; the guards
    and the two assignments are made on that copy; the flush is an UPDATE by
    primary key of the columns whose values changed, made on the table as it
    is by then, [race db]. *)
Definition phase1_overlapped (race : Store → Store) (i : string) (now : Z)
    (db : Store) : Store * Result Entity :=
  match MikroOrmInvoiceRepository.findById i db with
  | None => (race db, Throw "Invoice Not Found")
  | Some (k, invoice) =>
      if decide (status invoice = PAID)
      then (race db, Throw "INVOICE_ALREADY_PAID")
      else if decide (status invoice = EXPIRED)
      then (race db, Throw "INVOICE_EXPIRED")
      else if decide (3 ≤ paymentAttemptCount invoice)
      then (race db, Throw "MAX_PAYMENT_ATTEMPTS_REACHED")
      else if InvoiceService.activeLink invoice now
      then (race db, Throw "ACTIVE_PAYMENT_LINK_EXISTS")
      else
        let count :=
          InvoiceService.or_zero (paymentAttemptCount invoice) + 1 in
        let changed (r : Invoice) :=
          let r := set_paymentAttemptCount count r in
          let r :=
            if decide (paymentLinkCreatedAt invoice = Some now) then r
            else set_paymentLinkCreatedAt (Some now) r in
          set_updatedAt now r in
        (alter changed k (race db), Ok (k, changed invoice))
  end.

(** * Properties *)

(** ** The entity manager *)

Lemma findOne_Some (w : Invoice → bool) (db : Store) (k : nat) (r : Invoice) :
  findOne w db = Some (k, r) →
  db !! k = Some r ∧ w r = true ∧
  ∀ j x, db !! j = Some x → (j < k)%nat → w x = false.
Proof.
  unfold findOne. intros Hf. apply list_find_Some in Hf as (Hk & Hw & Hmin).
  repeat split; try done.
  intros j x Hj Hlt. specialize (Hmin j x Hj Hlt).
  by destruct (w x).
Qed.

Lemma findOne_None (w : Invoice → bool) (db : Store) :
  findOne w db = None ↔ ∀ k r, db !! k = Some r → w r = false.
Proof.
  unfold findOne. rewrite list_find_None, Forall_lookup. split.
  - intros Hall k r Hk. specialize (Hall k r Hk). by destruct (w r).
  - intros Hall k r Hk. rewrite (Hall k r Hk). done.
Qed.

Lemma flush_lookup_ne (e : Entity) (now : Z) (db : Store) (k : nat) :
  k ≠ e.1 → flush e now db !! k = db !! k.
Proof. intros Hne. unfold flush. by rewrite list_lookup_insert_ne. Qed.

Lemma flush_lookup_eq (e : Entity) (now : Z) (db : Store) (r : Invoice) :
  db !! e.1 = Some r → flush e now db !! e.1 = Some (flushed e now db).
Proof.
  intros Hk. unfold flush. apply list_lookup_insert_eq.
  by apply lookup_lt_Some in Hk.
Qed.

Lemma flush_length (e : Entity) (now : Z) (db : Store) :
  length (flush e now db) = length db.
Proof. unfold flush. apply length_insert. Qed.

Lemma flush_unchanged (k : nat) (r : Invoice) (now : Z) (db : Store) :
  db !! k = Some r → flush (k, r) now db = db.
Proof.
  intros Hk. unfold flush, flushed. simpl.
  rewrite decide_True by done. by apply list_insert_id.
Qed.

(** What a flushed entity keeps of the values assigned to it: everything but
    [updatedAt]. *)
Lemma flushed_fields (e : Entity) (now : Z) (db : Store) :
  let r := flushed e now db in
  id r = id e.2 ∧ orderId r = orderId e.2 ∧ amount r = amount e.2 ∧
  status r = status e.2 ∧ paymentType r = paymentType e.2 ∧
  bank r = bank e.2 ∧ vaNumber r = vaNumber e.2 ∧
  gatewayResponse r = gatewayResponse e.2 ∧ paidAt r = paidAt e.2 ∧
  paymentLink r = paymentLink e.2 ∧
  paymentLinkCreatedAt r = paymentLinkCreatedAt e.2 ∧
  paymentAttemptCount r = paymentAttemptCount e.2 ∧
  createdAt r = createdAt e.2 ∧ deletedAt r = deletedAt e.2.
Proof. unfold flushed. simpl. by case_decide. Qed.

Lemma nativeUpdate_lookup (w : Invoice → bool) (u : UpdateData) (db : Store)
    (k : nat) (r : Invoice) :
  db !! k = Some r →
  (nativeUpdate w u db).1 !! k = Some (if w r then applyUpdate u r else r).
Proof. intros Hk. unfold nativeUpdate. simpl. by rewrite list_lookup_fmap, Hk. Qed.

Lemma nativeUpdate_length (w : Invoice → bool) (u : UpdateData) (db : Store) :
  length (nativeUpdate w u db).1 = length db.
Proof. unfold nativeUpdate. simpl. apply length_map. Qed.

Lemma nativeUpdate_count_pos (w : Invoice → bool) (u : UpdateData)
    (db : Store) :
  (0 < (nativeUpdate w u db).2)%nat ↔ ∃ k r, db !! k = Some r ∧ w r = true.
Proof.
  unfold nativeUpdate. simpl. split.
  - intros Hpos.
    destruct (filter (λ r, w r = true) db) as [|x l] eqn:Hf;
      [simpl in Hpos; lia|].
    assert (Hx : x ∈ filter (λ r, w r = true) db) by (rewrite Hf; left).
    apply list_elem_of_filter in Hx as [Hw Hx].
    apply list_elem_of_lookup in Hx as [k Hk]. eauto.
  - intros (k & r & Hk & Hw).
    assert (Hx : r ∈ filter (λ r, w r = true) db).
    { apply list_elem_of_filter. split; [done|].
      apply list_elem_of_lookup. eauto. }
    destruct (filter (λ r, w r = true) db); [by apply elem_of_nil in Hx|].
    simpl. lia.
Qed.

Lemma nativeUpdate_none (w : Invoice → bool) (u : UpdateData) (db : Store) :
  (∀ k r, db !! k = Some r → w r = false) → (nativeUpdate w u db).1 = db.
Proof.
  intros Hnone. apply list_eq. intros k.
  destruct (db !! k) as [r|] eqn:Hk.
  - rewrite (nativeUpdate_lookup _ _ _ _ _ Hk), (Hnone k r Hk). done.
  - apply lookup_ge_None. rewrite nativeUpdate_length.
    by apply lookup_ge_None.
Qed.

(** ** The repository *)

Section Repository.
Import MikroOrmInvoiceRepository.

Lemma where_id_true (i : string) (r : Invoice) :
  where_id i r = true ↔ id r = i ∧ deletedAt r = None.
Proof.
  unfold where_id. rewrite andb_true_iff, !bool_decide_eq_true. done.
Qed.

Lemma where_orderId_true (o : string) (r : Invoice) :
  where_orderId o r = true ↔ orderId r = o ∧ deletedAt r = None.
Proof.
  unfold where_orderId. rewrite andb_true_iff, !bool_decide_eq_true. done.
Qed.

Lemma where_pending_true (o : string) (r : Invoice) :
  where_pending o r = true ↔
  orderId r = o ∧ status r = PENDING ∧ deletedAt r = None.
Proof.
  unfold where_pending. rewrite !andb_true_iff, !bool_decide_eq_true.
  tauto.
Qed.

Lemma where_pending_false (o : string) (r : Invoice) :
  where_pending o r = false ↔
  ¬ (orderId r = o ∧ status r = PENDING ∧ deletedAt r = None).
Proof.
  rewrite <- where_pending_true. by destruct (where_pending o r).
Qed.

Lemma legacy_updateStatusAtomicFromPending (o : string)
    (newStatus : InvoiceStatus) (paymentData : option Notification)
    (now : Z) (db : Store) :
  InvoiceServiceLegacy.updateStatusAtomicFromPending o newStatus
    paymentData now db
  = updateStatusAtomicFromPending o newStatus paymentData now db.
Proof. reflexivity. Qed.

Lemma atomic_fst (o : string) (newStatus : InvoiceStatus)
    (paymentData : option Notification) (now : Z) (db : Store) :
  (updateStatusAtomicFromPending o newStatus paymentData now db).1
  = (nativeUpdate (where_pending o)
       (buildUpdateData newStatus paymentData now) db).1.
Proof. reflexivity. Qed.

Lemma atomic_snd (o : string) (newStatus : InvoiceStatus)
    (paymentData : option Notification) (now : Z) (db : Store) :
  (updateStatusAtomicFromPending o newStatus paymentData now db).2
  = if decide (0 < (nativeUpdate (where_pending o)
                      (buildUpdateData newStatus paymentData now) db).2)%nat
    then SUCCESS else NOOP.
Proof. reflexivity. Qed.

(** The conditional update never touches a row that is not pending. *)
Lemma atomic_keeps_settled (o : string) (newStatus : InvoiceStatus)
    (paymentData : option Notification) (now : Z) (db : Store)
    (k : nat) (r : Invoice) :
  db !! k = Some r → status r ≠ PENDING →
  (updateStatusAtomicFromPending o newStatus paymentData now db).1 !! k
  = Some r.
Proof.
  intros Hk Hst. rewrite atomic_fst, (nativeUpdate_lookup _ _ _ _ _ Hk).
  assert (where_pending o r = false) as ->; [|done].
  apply where_pending_false. tauto.
Qed.

(** C1. For every order id, new status and payment metadata, the
    conditional update [updateStatusAtomicFromPending] rewrites a row only
    where the row is not soft-deleted, its [orderId] is the one given and
    its stored status is [PENDING].  On such a row it sets the status, the
    payment metadata ([paymentType], [bank] and [vaNumber] to what the
    notification carries, to NULL where it carries none, and
    [gatewayResponse] to the notification itself) and, when the new status
    is [PAID], [paidAt]; the answer is [SUCCESS].  When no row qualifies the
    answer is [NOOP] and the table is unchanged.  (Called without metadata,
    it writes the status and [updatedAt] only.)  The legacy service's copy
    is the same function. *)
Theorem updateStatusAtomicFromPending_conditional (o : string)
    (newStatus : InvoiceStatus) (paymentData : option Notification)
    (now : Z) (db : Store) :
  let out := updateStatusAtomicFromPending o newStatus paymentData now db in
  let selected (r : Invoice) :=
    orderId r = o ∧ status r = PENDING ∧ deletedAt r = None in
  length out.1 = length db ∧
  (∀ k r, db !! k = Some r → ¬ selected r → out.1 !! k = Some r) ∧
  (∀ k r, db !! k = Some r → selected r →
     ∃ r', out.1 !! k = Some r' ∧
       status r' = newStatus ∧ updatedAt r' = now ∧
       match paymentData with
       | Some pd =>
           paymentType r' = payment_type pd ∧ bank r' = notif_bank pd ∧
           vaNumber r' = va_number pd ∧
           gatewayResponse r' = Some (json pd) ∧
           paidAt r' = (if decide (newStatus = PAID) then Some now
                        else paidAt r)
       | None =>
           paymentType r' = paymentType r ∧ bank r' = bank r ∧
           vaNumber r' = vaNumber r ∧
           gatewayResponse r' = gatewayResponse r ∧ paidAt r' = paidAt r
       end ∧
       id r' = id r ∧ orderId r' = orderId r ∧ amount r' = amount r ∧
       paymentLink r' = paymentLink r ∧
       paymentLinkCreatedAt r' = paymentLinkCreatedAt r ∧
       paymentAttemptCount r' = paymentAttemptCount r ∧
       createdAt r' = createdAt r ∧ deletedAt r' = deletedAt r) ∧
  (out.2 = SUCCESS ↔ ∃ k r, db !! k = Some r ∧ selected r) ∧
  (out.2 = NOOP ↔ ∀ k r, db !! k = Some r → ¬ selected r) ∧
  (out.2 = NOOP → out.1 = db) ∧
  InvoiceServiceLegacy.updateStatusAtomicFromPending o newStatus
    paymentData now db = out.
Proof.
  intros out selected.
  assert (Hsel : ∀ r, where_pending o r = true ↔ selected r)
    by (intros r; apply where_pending_true).
  assert (Hpos : out.2 = SUCCESS ↔ ∃ k r, db !! k = Some r ∧ selected r).
  { subst out. rewrite atomic_snd. case_decide as Hc.
    - apply nativeUpdate_count_pos in Hc as (k & r & Hk & Hw).
      split; [|done]. intros _. exists k, r. by rewrite <- Hsel.
    - split; [done|]. intros (k & r & Hk & Hs). exfalso. apply Hc.
      apply nativeUpdate_count_pos. exists k, r. by rewrite Hsel. }
  assert (Hnoop : out.2 = NOOP ↔ ∀ k r, db !! k = Some r → ¬ selected r).
  { split.
    - intros Hn k r Hk Hs.
      assert (out.2 = SUCCESS) as Hsu by (apply Hpos; eauto). congruence.
    - intros Hall. destruct (decide (out.2 = SUCCESS)) as [Ho|Ho].
      + apply Hpos in Ho as (k & r & Hk & Hs). by destruct (Hall k r Hk).
      + by destruct (out.2). }
  split; [apply nativeUpdate_length|].
  split.
  { intros k r Hk Hns. subst out.
    rewrite atomic_fst, (nativeUpdate_lookup _ _ _ _ _ Hk).
    destruct (where_pending o r) eqn:Hw; [|done].
    apply Hsel in Hw. done. }
  split.
  { intros k r Hk Hs. subst out.
    rewrite atomic_fst, (nativeUpdate_lookup _ _ _ _ _ Hk).
    apply Hsel in Hs as ->. eexists. split; [done|].
    destruct paymentData as [pd|]; simpl; repeat split; try done.
    by case_decide. }
  split; [done|]. split; [done|]. split; [|done].
  intros Hn. subst out. rewrite atomic_fst. apply nativeUpdate_none.
  intros k r Hk. apply where_pending_false.
  apply (proj1 Hnoop Hn k r Hk).
Qed.

End Repository.

(** ** Rows across committed writes *)

Section Rows.
Context `{driver : Driver}.
Import MikroOrmInvoiceRepository.

Lemma evolves_refl (r : Invoice) : evolves r r.
Proof. unfold evolves. repeat split; auto. lia. Qed.

Lemma evolves_trans (r1 r2 r3 : Invoice) :
  evolves r1 r2 → evolves r2 r3 → evolves r1 r3.
Proof.
  unfold evolves.
  intros (Hi & Ho & Ha & Hd & Hc & Hb) (Hi' & Ho' & Ha' & Hd' & Hc' & Hb').
  destruct (decide (deletedAt r1 = None)) as [Hl|Hl].
  - split; [congruence|]. split; [congruence|]. split; [congruence|].
    split; [done|]. split; lia.
  - specialize (Hd Hl). subst r2. by repeat split.
Qed.

(** A found entity that is assigned to and flushed: the other rows stay,
    its own row takes the flushed values. *)
Lemma flush_found (w : Invoice → bool) (r2 : Invoice) (now : Z)
    (db : Store) (k : nat) (r : Invoice) :
  findOne w db = Some (k, r) →
  ∀ j x, db !! j = Some x →
    flush (k, r2) now db !! j
    = Some (if decide (j = k) then flushed (k, r2) now db else x)
    ∧ (j = k → x = r).
Proof.
  intros Hf j x Hj. apply findOne_Some in Hf as (Hk & _ & _).
  case_decide as Hjk.
  - subst j. split; [|congruence].
    by apply (flush_lookup_eq (k, r2) now db r).
  - split; [|done]. by rewrite (flush_lookup_ne (k, r2)).
Qed.

Lemma evolves_flushed (k : nat) (r r2 : Invoice) (now : Z) (db : Store) :
  deletedAt r = None → id r2 = id r → orderId r2 = orderId r →
  amount r2 = amount r →
  (paymentAttemptCount r2 = paymentAttemptCount r ∨
   (paymentAttemptCount r < 3 ∧
    paymentAttemptCount r2 = paymentAttemptCount r + 1)) →
  evolves r (flushed (k, r2) now db).
Proof.
  intros Hl Hi Ho Ha Hc.
  destruct (flushed_fields (k, r2) now db)
    as (Fi & Fo & Fa & _ & _ & _ & _ & _ & _ & _ & _ & Fc & _ & _).
  simpl in *. unfold evolves. rewrite Fi, Fo, Fa, Fc.
  repeat split; try done; lia.
Qed.

(** The shape shared by every transaction that loads a live entity,
    assigns to it and flushes. *)
Lemma evolves_find_flush (w : Invoice → bool) (r2 : Invoice) (now : Z)
    (db : Store) (k : nat) (r : Invoice) :
  findOne w db = Some (k, r) →
  (w r = true → deletedAt r = None) →
  id r2 = id r → orderId r2 = orderId r → amount r2 = amount r →
  (paymentAttemptCount r2 = paymentAttemptCount r ∨
   (paymentAttemptCount r < 3 ∧
    paymentAttemptCount r2 = paymentAttemptCount r + 1)) →
  ∀ j x, db !! j = Some x →
    ∃ x', flush (k, r2) now db !! j = Some x' ∧ evolves x x'.
Proof.
  intros Hf Hlive Hi Ho Ha Hc j x Hj.
  destruct (flush_found w r2 now db k r Hf j x Hj) as [Hlk Hx].
  eexists. split; [exact Hlk|].
  case_decide as Hjk; [|apply evolves_refl].
  rewrite (Hx Hjk). apply evolves_flushed; try done.
  apply Hlive. by apply findOne_Some in Hf as (_ & Hw & _).
Qed.

Lemma where_id_live (i : string) (r : Invoice) :
  where_id i r = true → deletedAt r = None.
Proof. intros Hw. by apply where_id_true in Hw as [_ ?]. Qed.

Lemma where_orderId_live (o : string) (r : Invoice) :
  where_orderId o r = true → deletedAt r = None.
Proof. intros Hw. by apply where_orderId_true in Hw as [_ ?]. Qed.

Lemma legacy_live_id (i : string) :
  InvoiceServiceLegacy.live_id i = where_id i.
Proof. reflexivity. Qed.

Lemma legacy_live_orderId (o : string) :
  InvoiceServiceLegacy.live_orderId o = where_orderId o.
Proof. reflexivity. Qed.

(** Every committed write keeps every row in place and lets it evolve. *)
Lemma commit_evolves (w : Txn) (db : Store) (j : nat) (x : Invoice) :
  db !! j = Some x → ∃ x', commit w db !! j = Some x' ∧ evolves x x'.
Proof.
  intros Hj.
  assert (Hsame : ∃ x', db !! j = Some x' ∧ evolves x x')
    by (exists x; split; [done|apply evolves_refl]).
  destruct w; cbn [commit].
  - unfold create. destruct (findOne _ db); simpl; [done|].
    destruct (accepts db _); simpl; [|done].
    exists x. split; [|apply evolves_refl].
    rewrite lookup_app_l; [done|]. by apply lookup_lt_Some in Hj.
  - unfold updateStatus.
    destruct (findOne _ db) as [[k r]|] eqn:Hf; simpl; [|done].
    eapply evolves_find_flush; eauto using where_id_live.
    all: unfold assignStatus; destruct paymentData; try case_decide;
      simpl; auto.
  - unfold updateStatusByOrderId.
    destruct (findOne _ db) as [[k r]|] eqn:Hf; simpl; [|done].
    eapply evolves_find_flush; eauto using where_orderId_live.
    all: unfold assignStatus; destruct paymentData; try case_decide;
      simpl; auto.
  - rewrite atomic_fst, (nativeUpdate_lookup _ _ _ _ _ Hj).
    eexists. split; [done|].
    destruct (where_pending o x) eqn:Hw; [|apply evolves_refl].
    apply where_pending_true in Hw as (_ & _ & Hl).
    unfold evolves. simpl. repeat split; auto; try congruence; lia.
  - unfold softDelete.
    destruct (findOne _ db) as [[k r]|] eqn:Hf; simpl; [|done].
    eapply evolves_find_flush; eauto using where_id_live.
  - unfold InvoiceService.phase1, findById.
    destruct (findOne _ db) as [[k r]|] eqn:Hf; simpl; [|done].
    repeat (case_decide; simpl; [done|]).
    destruct (InvoiceService.activeLink r now); simpl; [done|].
    eapply evolves_find_flush; eauto using where_id_live.
    simpl. unfold InvoiceService.or_zero. case_decide; right; lia.
  - unfold InvoiceService.phase3a, findById.
    destruct (findOne _ db) as [[k r]|] eqn:Hf; simpl; [|done].
    eapply evolves_find_flush; eauto using where_id_live.
  - unfold InvoiceService.phase3b, findById.
    destruct (findOne _ db) as [[k r]|] eqn:Hf; simpl; [|done].
    eapply evolves_find_flush; eauto using where_id_live.
  - unfold InvoiceService.handleMidtransCallback, findWithLock.
    destruct (_ || _); simpl; [done|].
    destruct (findOne _ db) as [[k r]|] eqn:Hf; simpl; [|done].
    destruct (InvoiceService.switchStatus _); simpl; [|done].
    case_decide; simpl; [done|].
    eapply evolves_find_flush; eauto using where_id_live.
    all: case_decide; simpl; auto.
  - unfold InvoiceServiceLegacy.handleMidtransCallback.
    destruct (_ || _); simpl; [done|].
    destruct (findOne _ db) as [[k r]|] eqn:Hf; simpl; [|done].
    destruct (InvoiceService.switchStatus _); simpl; [|done].
    case_decide; simpl; [done|].
    eapply evolves_find_flush; eauto using where_orderId_live.
    all: case_decide; simpl; auto.
Qed.

Lemma commits_evolves (history : list Txn) (db : Store) (j : nat)
    (x : Invoice) :
  db !! j = Some x →
  ∃ x', commits history db !! j = Some x' ∧ evolves x x'.
Proof.
  revert db x. induction history as [|w history IH]; intros db x Hj.
  - exists x. split; [done|apply evolves_refl].
  - simpl. destruct (commit_evolves w db j x Hj) as (x1 & H1 & E1).
    destruct (IH (commit w db) x1 H1) as (x2 & H2 & E2).
    exists x2. split; [done|]. by eapply evolves_trans.
Qed.

End Rows.

(** ** Soft deletion *)

Section SoftDeletion.
Context `{driver : Driver}.
Import MikroOrmInvoiceRepository.

Lemma atomic_noop (o : string) (newStatus : InvoiceStatus)
    (paymentData : option Notification) (now : Z) (db : Store) :
  (∀ k r, db !! k = Some r → where_pending o r = false) →
  updateStatusAtomicFromPending o newStatus paymentData now db = (db, NOOP).
Proof.
  intros Hnone.
  rewrite (surjective_pairing (updateStatusAtomicFromPending _ _ _ _ _)).
  f_equal.
  - rewrite atomic_fst. by apply nativeUpdate_none.
  - rewrite atomic_snd. case_decide as Hc; [|done].
    apply nativeUpdate_count_pos in Hc as (k & r & Hk & Hw).
    rewrite (Hnone k r Hk) in Hw. done.
Qed.

Lemma found_is_live (w : Invoice → bool) (db : Store) (e : Entity) :
  (∀ r, w r = true → deletedAt r = None) →
  findOne w db = Some e → deletedAt e.2 = None ∧ db !! e.1 = Some e.2.
Proof.
  intros Hlive Hf. destruct e as [k r].
  apply findOne_Some in Hf as (Hk & Hw & _). simpl. auto.
Qed.

(** C10. Once a row's [deletedAt] is set, no repository operation reads
    or changes it again: no lookup returns it and every committed write
    leaves it as it is.  With [id] the primary key, [findById] on its id
    returns null and [updateStatus] and [softDelete] fail with the
    not-found error, the table unchanged; with [orderId] unique,
    [findByOrderId] returns null, [updateStatusByOrderId] fails with its
    not-found error, and [updateStatusAtomicFromPending] answers [NOOP],
    the table unchanged. *)
Theorem soft_deleted_row_is_absent (db : Store) (k : nat) (r : Invoice) :
  db !! k = Some r → deletedAt r ≠ None →
  (∀ i e, findById i db = Some e → e.1 ≠ k) ∧
  (∀ o e, findByOrderId o db = Some e → e.1 ≠ k) ∧
  (∀ i e, findWithLock i db = Some e → e.1 ≠ k) ∧
  (∀ w, commit w db !! k = Some r) ∧
  (primaryKey db →
     findById (id r) db = None ∧
     (∀ st paymentData now,
        updateStatus (id r) st paymentData now db
        = (db, Throw "Invoice not found")) ∧
     (∀ now, softDelete (id r) now db = (db, Throw "Invoice not found"))) ∧
  (uniqueOrderId db →
     findByOrderId (orderId r) db = None ∧
     (∀ st paymentData now,
        updateStatusByOrderId (orderId r) st paymentData now db
        = (db, Throw ("Invoice with orderId " +:+ orderId r
                      +:+ " not found"))) ∧
     (∀ newStatus paymentData now,
        updateStatusAtomicFromPending (orderId r) newStatus paymentData
          now db = (db, NOOP))).
Proof.
  intros Hk Hdel.
  assert (Hread : ∀ w e, (∀ x, w x = true → deletedAt x = None) →
                         findOne w db = Some e → e.1 ≠ k).
  { intros w e Hlive Hf Heq.
    destruct (found_is_live w db e Hlive Hf) as [Hl He].
    rewrite Heq, Hk in He. congruence. }
  split; [intros i e; apply Hread, where_id_live|].
  split; [intros o e; apply Hread, where_orderId_live|].
  split; [intros i e; apply Hread, where_id_live|].
  split.
  { intros w. destruct (commit_evolves w db k r Hk) as (x' & Hx & He).
    destruct He as (_ & _ & _ & Hd & _). by rewrite Hx, (Hd Hdel). }
  split.
  - intros Hpk.
    assert (Hnone : findOne (where_id (id r)) db = None).
    { apply findOne_None. intros j x Hj.
      destruct (where_id (id r) x) eqn:Hw; [|done].
      apply where_id_true in Hw as [Hi Hl].
      assert (j = k) as -> by (eapply Hpk; eauto). congruence. }
    split; [done|]. split.
    + intros st paymentData now. unfold updateStatus. by rewrite Hnone.
    + intros now. unfold softDelete. by rewrite Hnone.
  - intros Hu.
    assert (Hnone : ∀ j x, db !! j = Some x →
                           where_orderId (orderId r) x = false).
    { intros j x Hj.
      destruct (where_orderId (orderId r) x) eqn:Hw; [|done].
      apply where_orderId_true in Hw as [Ho Hl].
      assert (j = k) as -> by (eapply Hu; eauto). congruence. }
    split; [by apply findOne_None|]. split.
    + intros st paymentData now. unfold updateStatusByOrderId.
      by rewrite (proj2 (findOne_None _ _) Hnone).
    + intros newStatus paymentData now. apply atomic_noop.
      intros j x Hj. apply where_pending_false.
      intros (Ho & _ & Hl).
      assert (where_orderId (orderId r) x = true)
        by (by apply where_orderId_true).
      rewrite (Hnone j x Hj) in *. done.
Qed.

End SoftDeletion.

(** ** The transition guard *)

Section StateMachine.

(** C5, as stated, fails: the guard accepts PENDING to PENDING. *)
Lemma isValidStatusTransition_accepts_pending_to_pending :
  MidtransService.isValidStatusTransition PENDING PENDING = true ∧
  ¬ (∀ current next,
       MidtransService.isValidStatusTransition current next = true
       ↔ current = PENDING ∧ next ≠ PENDING).
Proof.
  split; [reflexivity|].
  intros Hiff. destruct (Hiff PENDING PENDING) as [Hto _].
  destruct (Hto eq_refl) as [_ Hne]. by apply Hne.
Qed.

(** C5, amended. [isValidStatusTransition current next] is true if and only
    if [current] is [PENDING], whatever [next] is; it is false exactly when
    [current] is one of [PAID], [FAILED], [EXPIRED].  The copy in the
    callback route's module is the same function. *)
Theorem isValidStatusTransition_iff_current_pending
    (current next : InvoiceStatus) :
  (MidtransService.isValidStatusTransition current next = true
   ↔ current = PENDING) ∧
  (MidtransService.isValidStatusTransition current next = false
   ↔ current ∈ [PAID; FAILED; EXPIRED]) ∧
  CallbackRoute.isValidStatusTransition current next
  = MidtransService.isValidStatusTransition current next.
Proof.
  split; [|split].
  - by destruct current.
  - destruct current; cbn; split; try done.
    + intros Hin. by repeat (apply elem_of_cons in Hin as [?|Hin]);
        try apply elem_of_nil in Hin.
    + intros _. apply elem_of_cons. by left.
    + intros _. do 1 apply list_elem_of_further. apply elem_of_cons.
      by left.
    + intros _. do 2 apply list_elem_of_further. apply elem_of_cons.
      by left.
  - by destruct current.
Qed.

End StateMachine.

(** ** Signatures *)

Section Signature.
Context `{Platform}.

(** C8, amended. The two-argument [verifySignature] of the service and of
    the webhook route returns true whenever [IS_PRODUCTION] is off; with
    [IS_PRODUCTION] on it returns true if and only if the hex SHA-512
    digest of [order_id], [status_code], [gross_amount] and the server key,
    concatenated in that order, is the presented signature.  The
    one-argument [verifySignature] of the callback route has no such
    switch: it returns true if and only if [order_id], [status_code],
    [gross_amount] and [signature_key] are all non-empty and
    [signature_key] is that digest. *)
Theorem verifySignature_characterised (notification : Notification)
    (signature : string) :
  let digest :=
    sha512_hex (tpl (order_id notification)
                +:+ tpl (status_code notification)
                +:+ tpl (gross_amount notification) +:+ SERVER_KEY) in
  (IS_PRODUCTION = false →
     MidtransService.verifySignature notification signature = true) ∧
  (IS_PRODUCTION = true →
     (MidtransService.verifySignature notification signature = true
      ↔ digest = signature)) ∧
  MidtransRouteV1.verifySignature notification signature
  = MidtransService.verifySignature notification signature ∧
  (CallbackRoute.verifySignature notification = true
   ↔ truthy (order_id notification) = true ∧
     truthy (status_code notification) = true ∧
     truthy (gross_amount notification) = true ∧
     truthy (signature_key notification) = true ∧
     signature_key notification = Some digest).
Proof.
  intros digest. unfold MidtransService.verifySignature,
    MidtransRouteV1.verifySignature, CallbackRoute.verifySignature.
  split; [by intros ->|]. split; [|split; [done|]].
  - intros ->. simpl. fold digest. apply String.eqb_eq.
  - fold digest.
    destruct (truthy (order_id notification)),
      (truthy (status_code notification)),
      (truthy (gross_amount notification)),
      (truthy (signature_key notification)); simpl;
      try (split; [done|intros (? & ? & ? & ? & ?); done]).
    rewrite bool_decide_eq_true. tauto.
Qed.

End Signature.

(** C8, as stated, fails for the callback route's [verifySignature]: outside
    production it still rejects a notification whose signature is not the
    digest, and in production it rejects a notification with an empty
    [status_code] although the signature presented is the digest. *)
Lemma callback_verifySignature_enforced_outside_production :
  (@IS_PRODUCTION (samplePlatform false) = false ∧
   @CallbackRoute.verifySignature (samplePlatform false)
     (sampleNotification "settlement" "100000" "forged") = false) ∧
  (let body :=
     mkNotification (Some "PAY-1") (Some "trx-1") (Some "settlement")
       (Some "100000") (Some "")
       (Some "sha512:PAY-1100000SB-Mid-server-KEY") None None None "{}" in
   @IS_PRODUCTION (samplePlatform true) = true ∧
   signature_key body
   = Some (@sha512_hex (samplePlatform true)
             (tpl (order_id body) +:+ tpl (status_code body)
              +:+ tpl (gross_amount body)
              +:+ @SERVER_KEY (samplePlatform true))) ∧
   @CallbackRoute.verifySignature (samplePlatform true) body = false).
Proof. repeat split; reflexivity. Qed.

(** ** The payment-link coordinator *)

Section PaymentLink.
Import MikroOrmInvoiceRepository InvoiceService.

Lemma or_zero_succ (x : Z) : or_zero x + 1 = x + 1.
Proof. unfold or_zero. case_decide; lia. Qed.

Lemma activeLink_true (r : Invoice) (now : Z) :
  activeLink r now = true ↔
  ∃ t, paymentLinkCreatedAt r = Some t ∧ truthy (paymentLink r) = true ∧
       now - t < 30 * 60 * 1000.
Proof.
  unfold activeLink, maxAge. destruct (paymentLinkCreatedAt r) as [t|].
  - rewrite andb_true_iff, bool_decide_eq_true. split.
    + intros [? ?]. eauto.
    + intros (t' & [= <-] & ? & ?). done.
  - split; [done|]. by intros (t & ? & _).
Qed.

Lemma truthy_Some (s : string) : s ≠ "" → truthy (Some s) = true.
Proof.
  intros Hne. simpl. destruct (String.eqb_spec s ""); [done|reflexivity].
Qed.

(** The entity found, assigned to and flushed is found again. *)
Lemma findOne_flush (w : Invoice → bool) (r2 : Invoice) (now : Z)
    (db : Store) (k : nat) (r : Invoice) :
  findOne w db = Some (k, r) → w (flushed (k, r2) now db) = true →
  findOne w (flush (k, r2) now db) = Some (k, flushed (k, r2) now db).
Proof.
  intros Hf Hw. pose proof (findOne_Some _ _ _ _ Hf) as (Hk & _ & Hmin).
  unfold findOne. apply list_find_Some. split; [|split; [done|]].
  - by apply (flush_lookup_eq (k, r2) now db r).
  - intros j y Hj Hlt.
    rewrite (flush_lookup_ne (k, r2)) in Hj by (simpl; lia).
    rewrite (Hmin j y Hj Hlt). done.
Qed.

Lemma where_id_flushed (i : string) (k : nat) (r r2 : Invoice) (now : Z)
    (db : Store) :
  where_id i r = true → id r2 = id r → deletedAt r2 = deletedAt r →
  where_id i (flushed (k, r2) now db) = true.
Proof.
  intros Hw Hi Hd. apply where_id_true in Hw as [Hi' Hd'].
  destruct (flushed_fields (k, r2) now db)
    as (Fi & _ & _ & _ & _ & _ & _ & _ & _ & _ & _ & _ & _ & Fd).
  simpl in *. apply where_id_true. split; congruence.
Qed.

(** The first transaction on an invoice that passes every check. *)
Lemma phase1_proceeds (i : string) (now : Z) (db : Store) (k : nat)
    (r : Invoice) :
  findById i db = Some (k, r) → status r ≠ PAID → status r ≠ EXPIRED →
  paymentAttemptCount r < 3 → activeLink r now = false →
  let marked :=
    set_paymentLinkCreatedAt (Some now)
      (set_paymentAttemptCount (paymentAttemptCount r + 1) r) in
  phase1 i now db
  = (flush (k, marked) now db, Ok (k, flushed (k, marked) now db)).
Proof.
  intros Hf Hp He Hc Ha marked. unfold phase1. rewrite Hf.
  rewrite !decide_False by (done || lia). rewrite Ha.
  subst marked. by rewrite or_zero_succ.
Qed.

(** The first transaction either fails, leaving the table as it is, or
    returns the entity it has just marked. *)
Lemma phase1_cases (i : string) (now : Z) (db : Store) :
  (∃ m, phase1 i now db = (db, Throw m)) ∨
  (∃ k r, findById i db = Some (k, r) ∧ status r ≠ PAID ∧
          status r ≠ EXPIRED ∧ paymentAttemptCount r < 3 ∧
          activeLink r now = false).
Proof.
  unfold phase1. destruct (findById i db) as [[k r]|] eqn:Hf; [|eauto].
  repeat (case_decide; [eauto|]).
  destruct (activeLink r now) eqn:Ha; [eauto|].
  right. exists k, r. repeat split; try done. lia.
Qed.

Lemma phase1_fields (i : string) (now : Z) (db db1 : Store) (k : nat)
    (invoice : Invoice) :
  phase1 i now db = (db1, Ok (k, invoice)) →
  ∃ r, findById i db = Some (k, r) ∧
       db1 !! k = Some invoice ∧
       findById i db1 = Some (k, invoice) ∧
       paymentAttemptCount invoice = paymentAttemptCount r + 1 ∧
       paymentAttemptCount r < 3 ∧
       paymentLinkCreatedAt invoice = Some now ∧
       paymentLink invoice = paymentLink r ∧
       id invoice = id r ∧ orderId invoice = orderId r ∧
       status invoice = status r ∧ deletedAt invoice = None.
Proof.
  intros Hp. destruct (phase1_cases i now db) as [[m Hm]|Hok].
  { rewrite Hm in Hp. done. }
  destruct Hok as (k' & r & Hf & Hpaid & Hexp & Hc & Ha).
  rewrite (phase1_proceeds i now db k' r Hf Hpaid Hexp Hc Ha) in Hp.
  injection Hp as <- <- <-. exists r.
  set (marked := set_paymentLinkCreatedAt _ _).
  pose proof (findOne_Some _ _ _ _ Hf) as (Hk & Hw & _).
  destruct (flushed_fields (k', marked) now db)
    as (Fi & Fo & _ & Fs & _ & _ & _ & _ & _ & Fl & Ft & Fc & _ & Fd).
  simpl in *. split; [done|].
  split; [by apply (flush_lookup_eq (k', marked) now db r)|].
  split.
  { unfold findById. apply (findOne_flush _ _ _ _ _ r Hf).
    by apply (where_id_flushed i k' r). }
  apply where_id_true in Hw as [_ Hl].
  rewrite Fi, Fo, Fs, Fl, Ft, Fc, Fd. by repeat split.
Qed.

(** The compensating transaction on a live invoice. *)
Lemma phase3b_fields (i : string) (now : Z) (db : Store) (k : nat)
    (r : Invoice) :
  findById i db = Some (k, r) →
  ∃ r', phase3b i now db !! k = Some r' ∧
        paymentLinkCreatedAt r' = None ∧
        paymentAttemptCount r' = paymentAttemptCount r ∧
        paymentLink r' = paymentLink r ∧ status r' = status r ∧
        id r' = id r ∧ orderId r' = orderId r ∧ deletedAt r' = deletedAt r.
Proof.
  intros Hf. unfold phase3b. rewrite Hf.
  pose proof (findOne_Some _ _ _ _ Hf) as (Hk & _ & _).
  set (cleared := set_paymentLinkCreatedAt None r).
  exists (flushed (k, cleared) now db).
  split; [by apply (flush_lookup_eq (k, cleared) now db r)|].
  destruct (flushed_fields (k, cleared) now db)
    as (Fi & Fo & _ & Fs & _ & _ & _ & _ & _ & Fl & Ft & Fc & _ & Fd).
  simpl in *. by rewrite Fi, Fo, Fs, Fl, Ft, Fc, Fd.
Qed.

Lemma phase3b_counts (i : string) (now : Z) (db : Store) (j : nat)
    (x : Invoice) :
  db !! j = Some x →
  ∃ x', phase3b i now db !! j = Some x' ∧
        paymentAttemptCount x' = paymentAttemptCount x.
Proof.
  intros Hj. unfold phase3b.
  destruct (findById i db) as [[k r]|] eqn:Hf; [|eauto].
  set (cleared := set_paymentLinkCreatedAt None r).
  destruct (flush_found _ cleared now db k r Hf j x Hj) as [Hlk Hx].
  eexists. split; [exact Hlk|]. case_decide as Hjk; [|done].
  rewrite (Hx Hjk).
  by destruct (flushed_fields (k, cleared) now db)
    as (_ & _ & _ & _ & _ & _ & _ & _ & _ & _ & _ & Fc & _ & _).
Qed.

Lemma legacy_generatePaymentLink (gateway : Gateway) (race : Store → Store)
    (i : string) (now later : Z) (db : Store) :
  InvoiceServiceLegacy.generatePaymentLink gateway race i now later db
  = generatePaymentLink gateway race i now later db.
Proof.
  unfold InvoiceServiceLegacy.generatePaymentLink, generatePaymentLink,
    phase1, phase3a, phase3b, findById.
  rewrite legacy_live_id.
  destruct (findOne (where_id i) db) as [[k r]|]; [|done].
  repeat (case_decide; [done|]).
  destruct (activeLink r now); [done|].
  destruct (gateway _); [|done].
  by destruct (findOne (where_id i) (race _)) as [[k' r']|].
Qed.

End PaymentLink.

Section Coordinator.
Context `{driver : Driver}.
Import MikroOrmInvoiceRepository InvoiceService.

Lemma commit_shape (w : Txn) (db : Store) :
  length (commit w db) = length db ∨
  ∃ newId o amt now,
    commit w db = (db ++ [newInvoice newId o amt now])%list.
Proof.
  destruct w; cbn [commit].
  - unfold create. destruct (findOne _ db); simpl; [auto|].
    destruct (accepts db _); simpl; eauto 6.
  - unfold MikroOrmInvoiceRepository.updateStatus. destruct (findOne _ db) as [[k r]|]; simpl;
      [rewrite flush_length|]; auto.
  - unfold MikroOrmInvoiceRepository.updateStatusByOrderId.
    destruct (findOne _ db) as [[k r]|]; simpl;
      [rewrite flush_length|]; auto.
  - left. rewrite atomic_fst. apply nativeUpdate_length.
  - unfold MikroOrmInvoiceRepository.softDelete. destruct (findOne _ db) as [[k r]|]; simpl;
      [rewrite flush_length|]; auto.
  - destruct (phase1_cases i now db) as [[m ->]|Hok]; [auto|].
    destruct Hok as (k & r & Hf & Hp & He & Hc & Ha).
    rewrite (phase1_proceeds i now db k r Hf Hp He Hc Ha). simpl.
    rewrite flush_length. auto.
  - unfold phase3a. destruct (findById i db) as [[k r]|]; simpl;
      [rewrite flush_length|]; auto.
  - unfold phase3b. destruct (findById i db) as [[k r]|]; simpl;
      [rewrite flush_length|]; auto.
  - unfold handleMidtransCallback. destruct (_ || _); simpl; [auto|].
    destruct (findWithLock o db) as [[k r]|]; simpl; [|auto].
    destruct (switchStatus _); simpl; [|auto].
    case_decide; simpl; [auto|]. rewrite flush_length. auto.
  - unfold InvoiceServiceLegacy.handleMidtransCallback.
    destruct (_ || _); simpl; [auto|].
    destruct (findOne _ db) as [[k r]|]; simpl; [|auto].
    destruct (switchStatus _); simpl; [|auto].
    case_decide; simpl; [auto|]. rewrite flush_length. auto.
Qed.

(** The bounds of the counter are kept by every committed write. *)
Lemma commit_bounded (w : Txn) (db : Store) :
  Forall (λ r, 0 ≤ paymentAttemptCount r ≤ 3) db →
  Forall (λ r, 0 ≤ paymentAttemptCount r ≤ 3) (commit w db).
Proof.
  rewrite !Forall_lookup. intros Hall j x' Hj.
  destruct (db !! j) as [x|] eqn:Hx.
  - destruct (commit_evolves w db j x Hx) as (x'' & Hx'' & He).
    rewrite Hj in Hx''. injection Hx'' as <-.
    specialize (Hall j x Hx). simpl in Hall.
    destruct He as (_ & _ & _ & _ & Hle & Hb). simpl. lia.
  - apply lookup_ge_None in Hx.
    destruct (commit_shape w db) as [Hlen|(newId & o & amt & t & Happ)].
    + apply lookup_lt_Some in Hj. lia.
    + rewrite Happ in Hj. rewrite lookup_app_r in Hj by done.
      apply list_lookup_singleton_Some in Hj as [_ <-]. simpl. lia.
Qed.

Lemma commits_bounded (history : list Txn) (db : Store) :
  Forall (λ r, 0 ≤ paymentAttemptCount r ≤ 3) db →
  Forall (λ r, 0 ≤ paymentAttemptCount r ≤ 3) (commits history db).
Proof.
  revert db. induction history as [|w history IH]; intros db Hall;
    [done|].
  simpl. apply IH. by apply commit_bounded.
Qed.

(** C6, as stated, fails: a fourth call on an invoice that has meanwhile
    been paid is refused for being paid, not for the exhausted budget. *)
Lemma fourth_attempt_on_paid_invoice :
  let db := [sampleInvoice PAID 3 None None None] in
  (paymentAttemptCount <$> db !! 0%nat) = Some 3 ∧
  generatePaymentLink workingGateway (λ d, d) "inv-1" 10 20 db
  = (db, Throw "INVOICE_ALREADY_PAID") ∧
  "INVOICE_ALREADY_PAID" ≠ "MAX_PAYMENT_ATTEMPTS_REACHED".
Proof. split; [reflexivity|]. split; [reflexivity|]. discriminate. Qed.

(** C6, amended. [paymentAttemptCount] is 0 on a created invoice; across
    any history of writes that commit one after the other, none overlapping
    another (as [commits] runs them), it never decreases on any row and is
    never raised above 3, so from the empty table it stays within 0..3.  A
    payment-link generation call on a live invoice whose counter is
    already 3 fails and leaves the table, hence the counter, as it is; on
    an invoice that is neither PAID nor EXPIRED the error is
    MAX_PAYMENT_ATTEMPTS_REACHED, on a PAID one INVOICE_ALREADY_PAID, on
    an EXPIRED one INVOICE_EXPIRED.  The same holds of the legacy
    service. *)
Theorem attempt_budget :
  (∀ newId o amt now db invoice,
     (create newId o amt now db).2 = Ok invoice →
     paymentAttemptCount invoice = 0 ∧
     (create newId o amt now db).1 = (db ++ [invoice])%list) ∧
  (∀ history db k r,
     db !! k = Some r →
     ∃ r', commits history db !! k = Some r' ∧
           paymentAttemptCount r ≤ paymentAttemptCount r' ∧
           (paymentAttemptCount r ≤ 3 → paymentAttemptCount r' ≤ 3)) ∧
  (∀ history k r,
     commits history [] !! k = Some r → 0 ≤ paymentAttemptCount r ≤ 3) ∧
  (∀ gateway race i now later db k r,
     findById i db = Some (k, r) → paymentAttemptCount r = 3 →
     ∃ m,
       generatePaymentLink gateway race i now later db = (db, Throw m) ∧
       InvoiceServiceLegacy.generatePaymentLink gateway race i now later db
       = (db, Throw m) ∧
       (status r = PAID → m = "INVOICE_ALREADY_PAID") ∧
       (status r = EXPIRED → m = "INVOICE_EXPIRED") ∧
       (status r ≠ PAID → status r ≠ EXPIRED →
        m = "MAX_PAYMENT_ATTEMPTS_REACHED")).
Proof.
  split; [|split; [|split]].
  - intros newId o amt now db invoice. unfold create.
    destruct (findOne _ db); simpl; [done|].
    destruct (accepts db _); simpl; [|done]. by intros [= <-].
  - intros history db k r Hk.
    destruct (commits_evolves history db k r Hk) as (r' & Hr' & He).
    exists r'. destruct He as (_ & _ & _ & _ & Hle & Hb).
    split; [done|]. split; lia.
  - intros history k r Hk.
    assert (Hall : Forall (λ r, 0 ≤ paymentAttemptCount r ≤ 3)
                     (commits history [])) by by apply commits_bounded.
    rewrite Forall_lookup in Hall. apply (Hall k r Hk).
  - intros gateway race i now later db k r Hf Hc.
    rewrite legacy_generatePaymentLink.
    unfold generatePaymentLink, phase1. rewrite Hf.
    destruct (decide (status r = PAID)) as [Hp|Hp].
    { eexists. repeat split; try done. congruence. }
    destruct (decide (status r = EXPIRED)) as [He|He].
    { eexists. repeat split; done. }
    rewrite decide_True by lia. eexists. repeat split; done.
Qed.

(** C7. When the gateway call of phase 2 fails, whatever the error, the
    coordinator runs the compensating transaction and raises that same
    error: the invoice's [paymentLinkCreatedAt] is cleared, and no
    [paymentAttemptCount] is rolled back, so the counter keeps the
    increment of phase 1. *)
Theorem generatePaymentLink_gateway_failure (gateway : Gateway)
    (race : Store → Store) (i : string) (now later : Z) (db db1 : Store)
    (k : nat) (invoice : Invoice) (message : string) :
  phase1 i now db = (db1, Ok (k, invoice)) →
  gateway (gatewayRequest invoice) = Throw message →
  let out := generatePaymentLink gateway race i now later db in
  out = (phase3b i later (race db1), Throw message) ∧
  InvoiceServiceLegacy.generatePaymentLink gateway race i now later db
  = out ∧
  (∃ r0, db !! k = Some r0 ∧ db1 !! k = Some invoice ∧
         paymentAttemptCount invoice = paymentAttemptCount r0 + 1) ∧
  (∀ j r, findById i (race db1) = Some (j, r) →
     ∃ r', out.1 !! j = Some r' ∧ paymentLinkCreatedAt r' = None ∧
           paymentAttemptCount r' = paymentAttemptCount r) ∧
  (∀ j r, race db1 !! j = Some r →
     ∃ r', out.1 !! j = Some r' ∧
           paymentAttemptCount r' = paymentAttemptCount r) ∧
  (race db1 = db1 →
     ∃ r0 r', db !! k = Some r0 ∧ out.1 !! k = Some r' ∧
              paymentLinkCreatedAt r' = None ∧
              paymentAttemptCount r' = paymentAttemptCount r0 + 1).
Proof.
  intros Hp Hg out.
  assert (Hout : out = (phase3b i later (race db1), Throw message)).
  { subst out. unfold generatePaymentLink. by rewrite Hp, Hg. }
  destruct (phase1_fields i now db db1 k invoice Hp)
    as (r0 & Hf0 & Hk1 & Hf1 & Hc & _).
  pose proof (findOne_Some _ _ _ _ Hf0) as (Hk0 & _ & _).
  split; [done|]. split; [apply legacy_generatePaymentLink|].
  split; [by exists r0|]. rewrite Hout. simpl.
  split; [|split].
  - intros j r Hf.
    destruct (phase3b_fields i later (race db1) j r Hf)
      as (r' & Hr' & Ht & Hcount & _).
    by exists r'.
  - intros j r Hj. by apply phase3b_counts.
  - intros Hrace. rewrite Hrace.
    destruct (phase3b_fields i later db1 k invoice Hf1)
      as (r' & Hr' & Ht & Hcount & _).
    exists r0, r'. repeat split; try done. congruence.
Qed.

End Coordinator.

(** ** The first transaction under overlap

    The histories above take the transactions one at a time.  The first
    transaction of [generatePaymentLink] reads its invoice without a lock
    (its comments announce one, and the repository has [findWithLock]), so
    calls that overlap are not such a history. *)

(** Run alone, the overlapped transaction is the first transaction. *)
Lemma phase1_overlapped_alone (i : string) (now : Z) (db : Store) :
  phase1_overlapped (λ d, d) i now db = InvoiceService.phase1 i now db.
Proof.
  unfold phase1_overlapped, InvoiceService.phase1.
  destruct (MikroOrmInvoiceRepository.findById i db) as [[k invoice]|] eqn:Hf;
    [|done].
  repeat (case_decide; [done|]).
  destruct (InvoiceService.activeLink invoice now); [done|].
  apply findOne_Some in Hf as (Hk & _ & _).
  set (count := InvoiceService.or_zero (paymentAttemptCount invoice) + 1).
  set (r2 := set_paymentLinkCreatedAt (Some now)
               (set_paymentAttemptCount count invoice)).
  assert (Hdirty : db !! k ≠ Some r2).
  { rewrite Hk. intros [= Heq]. apply (f_equal paymentAttemptCount) in Heq.
    simpl in Heq. subst count. unfold InvoiceService.or_zero in Heq.
    case_decide; lia. }
  set (changed := λ r : Invoice,
         set_updatedAt now
           (if decide (paymentLinkCreatedAt invoice = Some now)
            then set_paymentAttemptCount count r
            else set_paymentLinkCreatedAt (Some now)
                   (set_paymentAttemptCount count r))).
  assert (Hrow : changed invoice = flushed (k, r2) now db).
  { unfold flushed, changed. simpl.
    rewrite (decide_False (P := db !! k = Some r2)) by done.
    case_decide as Hsame; [|done]. subst r2.
    destruct invoice. simpl in *. by rewrite Hsame. }
  change ((alter changed k db, @Ok Entity (k, changed invoice))
          = (flush (k, r2) now db, Ok (k, flushed (k, r2) now db))).
  rewrite Hrow. f_equal. unfold flush. simpl.
  apply list_eq. intros j. destruct (decide (j = k)) as [->|Hne].
  - rewrite list_lookup_alter, Hk. simpl.
    rewrite list_lookup_insert_eq by (by apply lookup_lt_Some in Hk).
    rewrite decide_True by done. by rewrite Hrow.
  - by rewrite list_lookup_alter_ne, list_lookup_insert_ne.
Qed.

(** Two other calls commit their first transactions between the read and
    the flush of this one: the counter they left at 2 is set to 1. *)
Example overlapping_calls_lower_the_counter :
  let db := [sampleInvoice PENDING 0 None None None] in
  let others (d : Store) :=
    (InvoiceService.phase1 "inv-1" 9
       (InvoiceService.phase1 "inv-1" 8 d).1).1 in
  (paymentAttemptCount <$> others db !! 0%nat) = Some 2 ∧
  (paymentAttemptCount <$>
     (phase1_overlapped others "inv-1" 10 db).1 !! 0%nat) = Some 1.
Proof. split; vm_compute; reflexivity. Qed.

(** ** Link freshness *)

Section Freshness.
Import MikroOrmInvoiceRepository InvoiceService.

Lemma phase3a_fields (i url : string) (now : Z) (db : Store) (k : nat)
    (r : Invoice) :
  findById i db = Some (k, r) →
  ∃ r', phase3a i url now db = (flush (k, r') now db, Ok (flushed (k, r') now db)) ∧
        flush (k, r') now db !! k = Some (flushed (k, r') now db) ∧
        paymentLink (flushed (k, r') now db) = Some url ∧
        paymentLinkCreatedAt (flushed (k, r') now db)
        = paymentLinkCreatedAt r ∧
        paymentAttemptCount (flushed (k, r') now db)
        = paymentAttemptCount r.
Proof.
  intros Hf. unfold phase3a. rewrite Hf.
  pose proof (findOne_Some _ _ _ _ Hf) as (Hk & _ & _).
  set (linked := set_paymentLink (Some url) r). exists linked.
  split; [done|].
  split; [by apply (flush_lookup_eq (k, linked) now db r)|].
  destruct (flushed_fields (k, linked) now db)
    as (_ & _ & _ & _ & _ & _ & _ & _ & _ & Fl & Ft & Fc & _ & _).
  simpl in *. by rewrite Fl, Ft, Fc.
Qed.

Lemma unlock (lockkey : string) (processing : gset string) :
  lockkey ∉ processing → ({[lockkey]} ∪ processing) ∖ {[lockkey]} = processing.
Proof.
  intros Hlock. apply set_eq. intros x.
  rewrite elem_of_difference, elem_of_union, elem_of_singleton. split.
  - by intros [[->|Hx] Hne].
  - intros Hx. split; [by right|]. by intros ->.
Qed.

(** C9, as stated, fails: the coordinator itself refuses a repeated
    request while the link is fresh; it does not return the link. *)
Lemma generatePaymentLink_rejects_fresh_link :
  let db :=
    [sampleInvoice PENDING 1 (Some "https://pay.example/1") (Some 0) None] in
  generatePaymentLink workingGateway (λ d, d) "inv-1" 60000 60001 db
  = (db, Throw "ACTIVE_PAYMENT_LINK_EXISTS").
Proof. reflexivity. Qed.

(** C9, amended. Take a live invoice, neither PAID nor EXPIRED, with a
    non-empty [paymentLink] created at [t].  While the link is younger
    than 30 minutes a repeated request creates no link and does not touch
    the counter: [generatePaymentLink] fails, leaving the table as it is
    (with ACTIVE_PAYMENT_LINK_EXISTS when fewer than 3 attempts were
    made), and [POST /v1/payment-links], when fewer than 3 attempts were
    made, answers 200 with the stored link.  Once the link is 30 minutes
    old or older the request goes on to regeneration when fewer than 3
    attempts were made (the counter is incremented, the timestamp
    renewed, and the link the gateway returns is stored), and fails with
    MAX_PAYMENT_ATTEMPTS_REACHED otherwise. *)
Theorem link_freshness (gateway : Gateway) (race : Store → Store)
    (i : string) (now later : Z) (db : Store) (k : nat) (r : Invoice)
    (link : string) (t : Z) :
  findById i db = Some (k, r) →
  status r ≠ PAID → status r ≠ EXPIRED →
  paymentLink r = Some link → link ≠ "" →
  paymentLinkCreatedAt r = Some t →
  (now - t < 30 * 60 * 1000 →
     (∃ m, generatePaymentLink gateway race i now later db
           = (db, Throw m) ∧
           (paymentAttemptCount r < 3 →
            m = "ACTIVE_PAYMENT_LINK_EXISTS")) ∧
     (∀ now1 processing,
        paymentAttemptCount r < 3 → orderId r ≠ "" →
        "payment_link_" +:+ orderId r ∉ processing →
        getByOrderId (orderId r) db = Some (k, r) →
        InvoiceRoute.payment_links gateway race (orderId r) now now1 later
          processing db
        = (processing, db,
           mkResponse 200
             (JPaymentUrl (Some link) (orderId r) None
                (InvoiceRoute.ceil_div_1000
                   (30 * 60 * 1000 - (now - t))))))) ∧
  (30 * 60 * 1000 ≤ now - t →
     (3 ≤ paymentAttemptCount r →
      generatePaymentLink gateway race i now later db
      = (db, Throw "MAX_PAYMENT_ATTEMPTS_REACHED")) ∧
     (paymentAttemptCount r < 3 →
      ∃ db1 invoice,
        phase1 i now db = (db1, Ok (k, invoice)) ∧
        db1 !! k = Some invoice ∧
        paymentAttemptCount invoice = paymentAttemptCount r + 1 ∧
        paymentLinkCreatedAt invoice = Some now ∧
        ∀ url,
          gateway (gatewayRequest invoice) = Ok url → race db1 = db1 →
          ∃ db3 updated,
            generatePaymentLink gateway race i now later db
            = (db3, Ok updated) ∧
            db3 !! k = Some updated ∧
            paymentLink updated = Some url ∧
            paymentLinkCreatedAt updated = Some now ∧
            paymentAttemptCount updated = paymentAttemptCount r + 1)).
Proof.
  intros Hf Hpaid Hexp Hlink Hne Ht. split.
  - intros Hfresh.
    assert (Ha : activeLink r now = true).
    { apply activeLink_true. exists t. rewrite Hlink.
      by rewrite (truthy_Some link Hne). }
    split.
    + unfold generatePaymentLink, phase1. rewrite Hf.
      rewrite !(decide_False (P := status r = _)) by done.
      case_decide as Hc; [eexists; split; [done|lia]|].
      rewrite Ha. by eexists.
    + intros now1 processing Hc Ho Hlock Hg.
      unfold InvoiceRoute.payment_links.
      destruct (String.eqb_spec (orderId r) ""); [done|].
      rewrite bool_decide_eq_false_2 by done.
      rewrite Hg. rewrite !(decide_False (P := status r = _)) by done.
      rewrite decide_False by lia. rewrite Ha, Ht, Hlink. simpl.
      by rewrite (unlock _ _ Hlock).
  - intros Hstale.
    assert (Ha : activeLink r now = false).
    { destruct (activeLink r now) eqn:Ha; [|done].
      apply activeLink_true in Ha as (t' & Ht' & _ & Hlt).
      rewrite Ht in Ht'. injection Ht' as <-. lia. }
    split.
    + intros Hc. unfold generatePaymentLink, phase1. rewrite Hf.
      rewrite !(decide_False (P := status r = _)) by done.
      by rewrite decide_True by done.
    + intros Hc.
      pose proof (phase1_proceeds i now db k r Hf Hpaid Hexp Hc Ha) as Hp.
      simpl in Hp.
      destruct (phase1_fields i now db _ k _ Hp)
        as (r0 & Hf0 & Hk1 & Hf1 & Hcount & _ & Hstamp & _).
      rewrite Hf in Hf0. injection Hf0 as <-.
      eexists _, _. split; [exact Hp|].
      split; [done|]. split; [done|]. split; [done|].
      intros url Hg Hrace.
      destruct (phase3a_fields i url later _ k _ Hf1)
        as (r' & H3 & Hk3 & Hl3 & Ht3 & Hc3).
      eexists _, _. split.
      { unfold generatePaymentLink. rewrite Hp, Hg, Hrace, H3. done. }
      split; [exact Hk3|]. split; [done|]. split; congruence.
Qed.

End Freshness.

(** ** Reconciliation of notifications *)

Section Webhook.
Context `{Platform}.
Import MidtransService.

Lemma onError_is_error (message : string) :
  is_error (MidtransRoute.onError message) = true.
Proof.
  unfold MidtransRoute.onError.
  destruct (_ && _); [done|]. destruct (includes "Invalid Status" _); [done|].
  by destruct (includes "Database not initialized" _).
Qed.

Lemma atomic_NOOP_store (o : string) (newStatus : InvoiceStatus)
    (paymentData : option Notification) (now : Z) (db : Store) :
  (InvoiceService.updateStatusAtomicFromPending o newStatus paymentData
     now db).2 = NOOP →
  (InvoiceService.updateStatusAtomicFromPending o newStatus paymentData
     now db).1 = db.
Proof.
  unfold InvoiceService.updateStatusAtomicFromPending.
  rewrite atomic_snd, atomic_fst. case_decide as Hc; [done|]. intros _.
  apply nativeUpdate_none. intros k r Hk.
  destruct (MikroOrmInvoiceRepository.where_pending o r) eqn:Hw; [|done].
  exfalso. apply Hc. apply nativeUpdate_count_pos. eauto.
Qed.

(** A notification that passes the schema check names its order. *)
Lemma validateWebhookRequest_order (notification : Notification) :
  validateWebhookRequest notification = None →
  ∃ o, order_id notification = Some o ∧ o ≠ "".
Proof.
  unfold validateWebhookRequest.
  destruct (order_id notification) as [o|]; simpl; [|done].
  destruct (String.eqb_spec o ""); simpl; [done|]. eauto.
Qed.

(** The store the webhook route leaves behind is the one it was given, or
    the result of the conditional update. *)
Lemma notification_store (signature : string) (notification : Notification)
    (now : Z) (race : Store → Store) (processed : gset string)
    (db : Store) :
  let out :=
    MidtransRoute.notification signature notification now race processed
      db in
  out.1 = (processed, db) ∨
  ∃ newStatus,
    out.1.2
    = (InvoiceService.updateStatusAtomicFromPending
         (str (order_id notification)) newStatus (Some notification) now
         (race db)).1.
Proof.
  unfold MidtransRoute.notification.
  destruct (validateWebhookRequest _); [by left|].
  destruct (_ && _); [by left|].
  case_bool_decide; [by left|].
  destruct (InvoiceService.getByOrderId _ db) as [[k invoice]|];
    [|by left].
  destruct (validatePaymentRules _ _); [by left|].
  destruct (mapMidtransStatusToInvoice _) as [newStatus|]; [|by left].
  destruct (negb _); [by left|].
  case_bool_decide; [by left|].
  destruct (InvoiceService.updateStatusAtomicFromPending _ _ _ _ _)
    as [db' result] eqn:Hcas.
  right. exists newStatus. rewrite Hcas. by destruct result.
Qed.

(** Monotonicity on the webhook route: a row that has left PENDING is
    not changed by any notification handled there. *)
Lemma notification_keeps_settled (signature : string)
    (notification : Notification) (now : Z) (race : Store → Store)
    (processed : gset string) (db : Store) (k : nat) (r : Invoice) :
  db !! k = Some r → race db !! k = Some r → status r ≠ PENDING →
  (MidtransRoute.notification signature notification now race processed
     db).1.2 !! k = Some r.
Proof.
  intros Hk Hrace Hst.
  destruct (notification_store signature notification now race processed
              db) as [->|[newStatus ->]]; [done|].
  by apply atomic_keeps_settled.
Qed.

(** The exact-amount rule on the webhook route: a notification whose
    amount is not the invoice's changes nothing. *)
Lemma notification_amount_mismatch (signature : string)
    (notification : Notification) (now : Z) (race : Store → Store)
    (processed : gset string) (db : Store) (k : nat) (invoice : Invoice) :
  InvoiceService.getByOrderId (str (order_id notification)) db
  = Some (k, invoice) →
  Number (gross_amount notification) ≠ Some (amount invoice) →
  (MidtransRoute.notification signature notification now race processed
     db).1 = (processed, db) ∧
  (MidtransRouteV1.notification signature notification now race processed
     db).1 = (processed, db).
Proof.
  intros Hg Hne.
  unfold MidtransRoute.notification, MidtransRouteV1.notification.
  change (MidtransRouteV1.validateWebhookRequest notification)
    with (validateWebhookRequest notification).
  destruct (validateWebhookRequest _); [done|].
  change (MidtransRouteV1.verifySignature notification signature)
    with (verifySignature notification signature).
  destruct (_ && _); [done|].
  case_bool_decide; [done|]. rewrite Hg.
  unfold validatePaymentRules, MidtransRouteV1.validatePaymentRules.
  by rewrite bool_decide_eq_false_2.
Qed.

(** C3, amended. On the webhook route of [midtrans.route.ts] a failure of
    steps 1-2 and 4-6 (schema, signature, unknown order, business rule,
    unknown vendor status) is answered with an error status (400, 401,
    404, 400, and a 4xx/5xx) and leaves table and cache as they were,
    while a refused transition (step 7) and a conditional update that
    changes no row (step 8) are answered 200 with [success: true].  The
    callback route of the earlier [midtrans.service.ts] answers every JSON
    notification, the failed ones included, with 200 [received: true]. *)
Theorem notification_failure_semantics (signature : string)
    (notification : Notification) (now : Z) (race : Store → Store)
    (processed : gset string) (db : Store) :
  let out :=
    MidtransRoute.notification signature notification now race processed
      db in
  let unchanged := out.1 = (processed, db) in
  let o := str (order_id notification) in
  (∀ e, validateWebhookRequest notification = Some e →
     out.2 = mkResponse 400 (JError e) ∧ unchanged) ∧
  (validateWebhookRequest notification = None →
   (IS_PRODUCTION = true →
    verifySignature notification signature = false →
    out.2 = mkResponse 401 (JError "Unauthorized") ∧ unchanged) ∧
   (IS_PRODUCTION = false ∨ verifySignature notification signature = true →
    MidtransRoute.notificationId notification ∉ processed →
    (InvoiceService.getByOrderId o db = None →
     out.2 = mkResponse 404 (JError "Invoice tidak ditemukan") ∧
     unchanged) ∧
    (∀ k invoice,
       InvoiceService.getByOrderId o db = Some (k, invoice) →
       (∀ v, validatePaymentRules invoice notification = Some v →
          out.2 = mkResponse 400 (JRuleError v) ∧ unchanged) ∧
       (validatePaymentRules invoice notification = None →
        (mapMidtransStatusToInvoice (transaction_status notification)
         = None →
         is_error out.2 = true ∧ unchanged) ∧
        (∀ newStatus,
           mapMidtransStatusToInvoice (transaction_status notification)
           = Some newStatus →
           (isValidStatusTransition (status invoice) newStatus = false ∨
            status invoice = newStatus →
            is_error out.2 = false ∧ unchanged ∧
            ∃ message, out.2 = mkResponse 200 (JSuccessMessage message)) ∧
           (isValidStatusTransition (status invoice) newStatus = true →
            status invoice ≠ newStatus →
            let cas :=
              InvoiceService.updateStatusAtomicFromPending o newStatus
                (Some notification) now (race db) in
            (cas.2 = NOOP →
             out = (processed, race db,
                    mkResponse 200
                      (JSuccessMessage "No operation performed"))) ∧
            (cas.2 = SUCCESS →
             out.1 = ({[MidtransRoute.notificationId notification]}
                      ∪ processed, cas.1) ∧
             http_status out.2 = 200))))))) ∧
  (∀ body now' race' db',
     (CallbackRoute.notification (Some body) now' race' db').2
     = mkResponse 200 JReceived).
Proof.
  intros out unchanged o. subst out unchanged o.
  unfold MidtransRoute.notification.
  split; [intros e ->; done|]. split.
  - intros ->. split.
    + intros -> ->. done.
    + intros Hauth Hfresh.
      assert (IS_PRODUCTION
              && negb (verifySignature notification signature) = false)
        as ->.
      { destruct Hauth as [->| ->]; [done|]. simpl. apply andb_false_r. }
      rewrite bool_decide_eq_false_2 by done.
      split; [by intros ->|].
      intros k invoice ->. split; [by intros v ->|].
      intros ->. split; [intros ->; split; [apply onError_is_error|done]|].
      intros newStatus ->. split.
      * intros [-> | Heq]; simpl; [eauto|].
        destruct (negb _); [eauto|].
        rewrite bool_decide_eq_true_2 by done. eauto.
      * intros -> Hne. cbn [negb]. rewrite bool_decide_eq_false_2 by done.
        destruct (InvoiceService.updateStatusAtomicFromPending _ _ _ _ _)
          as [db' result] eqn:Hcas.
        simpl. split; intros ->; [|done].
        pose proof (atomic_NOOP_store (str (order_id notification))
                      newStatus (Some notification) now (race db)) as Hst.
        rewrite Hcas in Hst. simpl in Hst. by rewrite Hst.
  - intros body now' race' db'. unfold CallbackRoute.notification.
    destruct (negb _); [done|].
    destruct (InvoiceService.getByOrderId _ _) as [[k invoice]|]; [|done].
    destruct (CallbackRoute.mapMidtransStatusToInvoice _); [|done].
    destruct (negb _); [done|]. case_bool_decide; [done|].
    destruct (InvoiceService.updateStatusAtomicFromPending _ _ _ _ _)
      as [db'' result].
    by destruct result.
Qed.

End Webhook.

(** ** Monotonicity of the stored status *)

Section Monotonicity.
Context `{Platform} `{driver : Driver}.
Import MikroOrmInvoiceRepository.

Lemma status_find_flush (w : Invoice → bool) (r2 : Invoice) (now : Z)
    (db : Store) (k : nat) (r : Invoice) :
  findOne w db = Some (k, r) → status r2 = status r →
  ∀ j x, db !! j = Some x →
    ∃ x', flush (k, r2) now db !! j = Some x' ∧ status x' = status x.
Proof.
  intros Hf Hs j x Hj.
  destruct (flush_found w r2 now db k r Hf j x Hj) as [Hlk Hx].
  eexists. split; [exact Hlk|]. case_decide as Hjk; [|done].
  rewrite (Hx Hjk), <- Hs.
  by destruct (flushed_fields (k, r2) now db) as (_ & _ & _ & Fs & _).
Qed.

(** Two conditional updates for one order, one after the other: the second
    changes nothing and answers NOOP. *)
Lemma atomic_twice (o : string) (st1 st2 : InvoiceStatus)
    (pd1 pd2 : option Notification) (t1 t2 : Z) (db : Store) :
  st1 ≠ PENDING →
  let db1 := (updateStatusAtomicFromPending o st1 pd1 t1 db).1 in
  updateStatusAtomicFromPending o st2 pd2 t2 db1 = (db1, NOOP).
Proof.
  intros Hst db1. apply atomic_noop. intros k r' Hk.
  subst db1. rewrite atomic_fst in Hk. unfold nativeUpdate in Hk.
  simpl in Hk. rewrite list_lookup_fmap in Hk.
  destruct (db !! k) as [r|]; [|done]. injection Hk as <-.
  destruct (where_pending o r) eqn:Hw; [|done].
  apply where_pending_false. intros (_ & Hp & _).
  destruct pd1; simpl in Hp; congruence.
Qed.

(** A guarded write never changes the status of a row that has left
    PENDING. *)
Lemma commit_keeps_settled (w : Txn) (db : Store) (k : nat) (r : Invoice) :
  guardedWrite w = true → db !! k = Some r → status r ≠ PENDING →
  ∃ r', commit w db !! k = Some r' ∧ status r' = status r.
Proof.
  intros Hguard Hk Hst.
  assert (Hsame : ∃ r', db !! k = Some r' ∧ status r' = status r)
    by (by exists r).
  destruct w; try discriminate Hguard; cbn [commit].
  - unfold create. destruct (findOne _ db); simpl; [done|].
    destruct (accepts db _); simpl; [|done].
    exists r. split; [|done].
    rewrite lookup_app_l; [done|]. by apply lookup_lt_Some in Hk.
  - exists r. split; [|done]. by apply atomic_keeps_settled.
  - unfold softDelete.
    destruct (findOne _ db) as [[j x]|] eqn:Hf; simpl; [|done].
    by eapply status_find_flush.
  - unfold InvoiceService.phase1, findById.
    destruct (findOne _ db) as [[j x]|] eqn:Hf; simpl; [|done].
    repeat (case_decide; simpl; [done|]).
    destruct (InvoiceService.activeLink x now); simpl; [done|].
    by eapply status_find_flush.
  - unfold InvoiceService.phase3a, findById.
    destruct (findOne _ db) as [[j x]|] eqn:Hf; simpl; [|done].
    by eapply status_find_flush.
  - unfold InvoiceService.phase3b, findById.
    destruct (findOne _ db) as [[j x]|] eqn:Hf; simpl; [|done].
    by eapply status_find_flush.
Qed.

Lemma commits_keep_settled (history : list Txn) (db : Store) (k : nat)
    (r : Invoice) :
  forallb guardedWrite history = true → db !! k = Some r →
  status r ≠ PENDING →
  ∃ r', commits history db !! k = Some r' ∧ status r' = status r.
Proof.
  revert db r. induction history as [|w history IH]; intros db r Hg Hk Hst.
  - by exists r.
  - simpl in Hg. apply andb_true_iff in Hg as [Hw Hg]. simpl.
    destruct (commit_keeps_settled w db k r Hw Hk Hst) as (r1 & H1 & E1).
    destruct (IH (commit w db) r1 Hg H1) as (r2 & H2 & E2); [congruence|].
    exists r2. split; [done|congruence].
Qed.

(** The earlier revisions of the route write through the conditional update
    only, as the webhook route does. *)
Lemma notification_v1_keeps_settled (signature : string)
    (notification : Notification) (now : Z) (race : Store → Store)
    (processed : gset string) (db : Store) (k : nat) (r : Invoice) :
  db !! k = Some r → race db !! k = Some r → status r ≠ PENDING →
  (MidtransRouteV1.notification signature notification now race processed
     db).1.2 !! k = Some r.
Proof.
  intros Hk Hrace Hst. unfold MidtransRouteV1.notification.
  destruct (MidtransRouteV1.validateWebhookRequest _); [done|].
  destruct (_ && _); [done|]. case_bool_decide; [done|].
  destruct (InvoiceService.getByOrderId _ db) as [[j invoice]|]; [|done].
  destruct (MidtransRouteV1.validatePaymentRules _ _); [done|].
  destruct (MidtransService.mapMidtransStatusToInvoice _) as [newStatus|];
    [|done].
  pose proof (atomic_keeps_settled (str (order_id notification)) newStatus
                (Some notification) now (race db) k r Hrace Hst) as Hcas.
  unfold InvoiceService.updateStatusAtomicFromPending.
  destruct (updateStatusAtomicFromPending _ _ _ _ _) as [db' result].
  by destruct result.
Qed.

Lemma callback_keeps_settled (body : option Notification) (now : Z)
    (race : Store → Store) (db : Store) (k : nat) (r : Invoice) :
  db !! k = Some r → race db !! k = Some r → status r ≠ PENDING →
  (CallbackRoute.notification body now race db).1 !! k = Some r.
Proof.
  intros Hk Hrace Hst. unfold CallbackRoute.notification.
  destruct body as [body|]; [|done].
  destruct (negb _); [done|].
  destruct (InvoiceService.getByOrderId _ db) as [[j invoice]|]; [|done].
  destruct (CallbackRoute.mapMidtransStatusToInvoice _) as [newStatus|];
    [|done].
  destruct (negb _); [done|]. case_bool_decide; [done|].
  pose proof (atomic_keeps_settled (str (order_id body)) newStatus
                (Some body) now (race db) k r Hrace Hst) as Hcas.
  unfold InvoiceService.updateStatusAtomicFromPending.
  destruct (updateStatusAtomicFromPending _ _ _ _ _) as [db' result].
  by destruct result.
Qed.

End Monotonicity.

(** ** Evaluations on the sample data *)

(** C3, as stated, fails on the callback route: a notification whose
    signature does not verify is acknowledged, not refused. *)
Lemma callback_route_acknowledges_bad_signature :
  let body := sampleNotification "settlement" "100000" "forged" in
  let db := [sampleInvoice PENDING 0 None None None] in
  @CallbackRoute.verifySignature (samplePlatform true) body = false ∧
  @CallbackRoute.notification (samplePlatform true) (Some body) 5 (λ d, d) db
  = (db, mkResponse 200 JReceived) ∧
  is_error (mkResponse 200 JReceived) = false.
Proof. repeat split; reflexivity. Qed.

(** On the self-contained revision of the webhook route a conditional
    update that changes no row is raised as an error and answered 500. *)
Example route_v1_noop_is_answered_500 :
  let body :=
    sampleNotification "settlement" "100000"
      "sha512:PAY-1200100000SB-Mid-server-KEY" in
  let db := [sampleInvoice FAILED 0 None None None] in
  @MidtransRouteV1.notification (samplePlatform true)
    "sha512:PAY-1200100000SB-Mid-server-KEY" body 5 (λ d, d) ∅ db
  = (∅, db, mkResponse 500 (JFailure "Gagal memproses notifikasi pembayaran")).
Proof. reflexivity. Qed.

(** C2: [handleMidtransCallback] has no guard on the current status; an
    invoice that is PAID is moved to EXPIRED by an [expire] notification,
    in the repository-based service and in the legacy one. *)
Theorem handleMidtransCallback_rewrites_paid_invoice :
  let db := [sampleInvoice PAID 0 None None None] in
  (status <$>
     (InvoiceService.handleMidtransCallback "inv-1" "expire" "{}" 9 db).1
     !! 0%nat) = Some EXPIRED ∧
  (status <$>
     (InvoiceServiceLegacy.handleMidtransCallback "PAY-1" "expire" "{}" 9
        db).1 !! 0%nat) = Some EXPIRED.
Proof. split; reflexivity. Qed.

(** C4: the callback route never compares amounts; a signed [settlement]
    for 90000 marks an invoice of 100000 as PAID. *)
Theorem callback_route_accepts_amount_mismatch :
  let body :=
    sampleNotification "settlement" "90000"
      "sha512:PAY-120090000SB-Mid-server-KEY" in
  let db := [sampleInvoice PENDING 0 None None None] in
  (amount <$> db !! 0%nat) = Some 100000 ∧
  @Number (samplePlatform true) (gross_amount body) = Some 90000 ∧
  @CallbackRoute.verifySignature (samplePlatform true) body = true ∧
  (status <$>
     (@CallbackRoute.notification (samplePlatform true) (Some body) 5
        (λ d, d) db).1 !! 0%nat) = Some PAID.
Proof. repeat split; reflexivity. Qed.

(** The same notification on the webhook route is refused. *)
Example webhook_route_refuses_amount_mismatch :
  let body :=
    sampleNotification "settlement" "90000"
      "sha512:PAY-120090000SB-Mid-server-KEY" in
  let db := [sampleInvoice PENDING 0 None None None] in
  @MidtransRoute.notification (samplePlatform true)
    "sha512:PAY-120090000SB-Mid-server-KEY" body 5 (λ d, d) ∅ db
  = (∅, db, mkResponse 400 (JRuleError (AmountMismatch 100000 (Some 90000)))).
Proof. reflexivity. Qed.

(** Scenario A of the design document: a settlement for the exact amount
    marks the invoice PAID, and its replay is answered as a duplicate. *)
Example scenario_A :
  let sig := "sha512:PAY-1200100000SB-Mid-server-KEY" in
  let body := sampleNotification "settlement" "100000" sig in
  let db := [sampleInvoice PENDING 0 None None None] in
  let first :=
    @MidtransRoute.notification (samplePlatform true) sig body 5 (λ d, d) ∅
      db in
  let replay :=
    @MidtransRoute.notification (samplePlatform true) sig body 6 (λ d, d)
      first.1.1 first.1.2 in
  (status <$> first.1.2 !! 0%nat) = Some PAID ∧
  (paidAt <$> first.1.2 !! 0%nat) = Some (Some 5) ∧
  replay.2 = mkResponse 200 (JSuccessMessage "Sudah diproses") ∧
  replay.1.2 = first.1.2.
Proof. repeat split; vm_compute; reflexivity. Qed.

(** ** Instances on the sample data *)

Lemma soft_deleted_row_is_absent_sample :
  let db := [sampleInvoice PENDING 0 None None (Some 3)] in
  MikroOrmInvoiceRepository.findById "inv-1" db = None ∧
  MikroOrmInvoiceRepository.updateStatusAtomicFromPending "PAY-1" PAID None 4
    db = (db, NOOP).
Proof.
  intros db.
  assert (Hdel : deletedAt (sampleInvoice PENDING 0 None None (Some 3)) ≠ None)
    by discriminate.
  destruct (soft_deleted_row_is_absent (driver := sampleDriver) db 0
              (sampleInvoice PENDING 0 None None (Some 3)) eq_refl Hdel)
    as (_ & _ & _ & _ & Hpk & Hu).
  split.
  - apply Hpk. intros [|j] [|k] r r' Hj Hk _; try reflexivity;
      discriminate.
  - apply Hu. intros [|j] [|k] r r' Hj Hk _; try reflexivity;
      discriminate.
Defined.

Lemma generatePaymentLink_gateway_failure_sample :
  let db := [sampleInvoice PENDING 0 None None None] in
  InvoiceService.generatePaymentLink failingGateway (λ d, d) "inv-1" 10 20 db
  = ([mkInvoice "inv-1" "PAY-1" 100000 PENDING None None None None None None
        None 1 0 20 None],
     Throw "Midtrans API error: 500 - ").
Proof.
  intros db.
  set (marked := mkInvoice "inv-1" "PAY-1" 100000 PENDING None None None None
                   None None (Some 10) 1 0 10 None).
  assert (Hp : InvoiceService.phase1 "inv-1" 10 db
               = ([marked], Ok (0%nat, marked))) by reflexivity.
  assert (Hg : failingGateway (InvoiceService.gatewayRequest marked)
               = Throw "Midtrans API error: 500 - ") by reflexivity.
  exact (proj1 (generatePaymentLink_gateway_failure failingGateway
                  (λ d, d) "inv-1" 10 20 db [marked] 0 marked _ Hp Hg)).
Defined.

Lemma link_freshness_sample :
  let db :=
    [sampleInvoice PENDING 1 (Some "https://pay.example/1") (Some 0) None] in
  ∃ m,
    InvoiceService.generatePaymentLink workingGateway (λ d, d) "inv-1" 60000
      60001 db = (db, Throw m) ∧
    (1 < 3 → m = "ACTIVE_PAYMENT_LINK_EXISTS").
Proof.
  intros db.
  assert (H1 : status (sampleInvoice PENDING 1 (Some "https://pay.example/1")
                         (Some 0) None) ≠ PAID) by discriminate.
  assert (H2 : status (sampleInvoice PENDING 1 (Some "https://pay.example/1")
                         (Some 0) None) ≠ EXPIRED) by discriminate.
  assert (H3 : "https://pay.example/1" ≠ "") by discriminate.
  destruct (link_freshness workingGateway (λ d, d) "inv-1" 60000 60001 db 0
              _ "https://pay.example/1" 0 eq_refl H1 H2 eq_refl H3 eq_refl)
    as [Hfresh _].
  assert (Hlt : 60000 - 0 < 30 * 60 * 1000) by lia.
  exact (proj1 (Hfresh Hlt)).
Defined.

Lemma updateStatusAtomicFromPending_conditional_sample :
  let stored :=
    mkInvoice "inv-1" "PAY-1" 100000 PENDING (Some "qris") (Some "bni")
      (Some "9988") None None None None 0 0 0 None in
  let bare :=
    mkNotification (Some "PAY-1") (Some "trx-1") (Some "settlement")
      (Some "100000") (Some "200") (Some "") None None None "{}" in
  let out :=
    MikroOrmInvoiceRepository.updateStatusAtomicFromPending "PAY-1" PAID
      (Some bare) 7 [stored] in
  out.2 = SUCCESS ∧
  ∃ r', out.1 !! 0%nat = Some r' ∧ status r' = PAID ∧
        paymentType r' = None ∧ bank r' = None ∧ vaNumber r' = None ∧
        gatewayResponse r' = Some "{}" ∧ paidAt r' = Some 7.
Proof.
  intros stored bare out.
  pose proof (updateStatusAtomicFromPending_conditional "PAY-1" PAID
                (Some bare) 7 [stored]) as Hall.
  cbv zeta in Hall. destruct Hall as (_ & _ & Hrow & Hsuccess & _).
  assert (Hsel : orderId stored = "PAY-1" ∧ status stored = PENDING ∧
                 deletedAt stored = None) by (repeat split; reflexivity).
  split.
  - apply Hsuccess. by exists 0%nat, stored.
  - destruct (Hrow 0%nat stored eq_refl Hsel)
      as (r' & Hr' & Hs & _ & (Hp & Hb & Hv & Hg & Hpaid) & _).
    exists r'. repeat split; assumption.
Defined.

Lemma notification_failure_semantics_sample :
  let sig := "sha512:PAY-1200100000SB-Mid-server-KEY" in
  let body := sampleNotification "settlement" "100000" sig in
  let db := [sampleInvoice PENDING 0 None None None] in
  let race := λ _ : Store, [sampleInvoice EXPIRED 0 None None None] in
  @MidtransRoute.notification (samplePlatform true) sig body 5 race ∅ db
  = (∅, race db, mkResponse 200 (JSuccessMessage "No operation performed")).
Proof.
  intros sig body db race.
  pose proof (@notification_failure_semantics (samplePlatform true) sig body
                5 race ∅ db) as Hall.
  cbv zeta in Hall. destruct Hall as (_ & Hschema & _).
  destruct (Hschema eq_refl) as [_ Hauth].
  destruct (Hauth (or_intror eq_refl) (not_elem_of_empty _)) as [_ Hfound].
  destruct (Hfound 0%nat (sampleInvoice PENDING 0 None None None) eq_refl)
    as [_ Hrules].
  destruct (Hrules eq_refl) as [_ Hmapped].
  destruct (Hmapped PAID eq_refl) as [_ Hcas].
  assert (Hne : status (sampleInvoice PENDING 0 None None None) ≠ PAID)
    by discriminate.
  destruct (Hcas eq_refl Hne) as [Hnoop _].
  exact (Hnoop eq_refl).
Defined.

Lemma attempt_budget_sample :
  let db := [sampleInvoice PENDING 3 None None None] in
  ∃ m,
    InvoiceService.generatePaymentLink workingGateway (λ d, d) "inv-1" 10 20
      db = (db, Throw m) ∧
    m = "MAX_PAYMENT_ATTEMPTS_REACHED".
Proof.
  intros db.
  destruct (attempt_budget (driver := sampleDriver))
    as (_ & _ & _ & Hfourth).
  destruct (Hfourth workingGateway (λ d, d) "inv-1" 10 20 db 0%nat
              (sampleInvoice PENDING 3 None None None) eq_refl eq_refl)
    as (m & Hm & _ & _ & _ & Hkind).
  exists m. split; [exact Hm|].
  apply Hkind; discriminate.
Defined.

Lemma verifySignature_characterised_sample :
  @MidtransService.verifySignature (samplePlatform true)
    (sampleNotification "settlement" "100000" "")
    "sha512:PAY-1200100000SB-Mid-server-KEY" = true.
Proof.
  pose proof (@verifySignature_characterised (samplePlatform true)
                (sampleNotification "settlement" "100000" "")
                "sha512:PAY-1200100000SB-Mid-server-KEY") as Hall.
  cbv zeta in Hall. destruct Hall as (_ & Hproduction & _).
  apply (Hproduction eq_refl). reflexivity.
Defined.

(** ** Scenarios of the design document *)

(** Scenario B: an amount other than the invoice's is refused and the
    invoice stays PENDING. *)
Example scenario_B :
  let sig := "sha512:PAY-120090000SB-Mid-server-KEY" in
  let body := sampleNotification "settlement" "90000" sig in
  let db := [sampleInvoice PENDING 0 None None None] in
  let out :=
    @MidtransRoute.notification (samplePlatform true) sig body 5 (λ d, d) ∅
      db in
  is_error out.2 = true ∧ out.1.2 = db.
Proof. split; reflexivity. Qed.

(** Scenario C: a paid invoice refuses a further settlement. *)
Example scenario_C :
  let sig := "sha512:PAY-1200100000SB-Mid-server-KEY" in
  let body := sampleNotification "settlement" "100000" sig in
  let db := [sampleInvoice PAID 0 None None None] in
  @MidtransRoute.notification (samplePlatform true) sig body 5 (λ d, d) ∅ db
  = (∅, db, mkResponse 400 (JRuleError AlreadyPaid)).
Proof. reflexivity. Qed.

(** Scenario D: four calls in a row with the gateway always failing.  Each
    of the first three consumes one attempt and leaves no active link; the
    fourth is refused and leaves the table as it is. *)
Example scenario_D :
  let call (t : Z) (db : Store) :=
    InvoiceService.generatePaymentLink failingGateway (λ d, d) "inv-1" t
      (t + 1) db in
  let db0 := [sampleInvoice PENDING 0 None None None] in
  let db1 := (call 10 db0).1 in
  let db2 := (call 20 db1).1 in
  let db3 := (call 30 db2).1 in
  (paymentAttemptCount <$> db1 !! 0%nat) = Some 1 ∧
  (paymentAttemptCount <$> db2 !! 0%nat) = Some 2 ∧
  (paymentAttemptCount <$> db3 !! 0%nat) = Some 3 ∧
  (paymentLinkCreatedAt <$> db3 !! 0%nat) = Some None ∧
  call 40 db3 = (db3, Throw "MAX_PAYMENT_ATTEMPTS_REACHED").
Proof. repeat split; vm_compute; reflexivity. Qed.

(** * Further properties of the code *)

(** ** The repository: creation, deletion, status updates *)

Section RepositoryMore.
Context `{driver : Driver}.
Import MikroOrmInvoiceRepository.

Lemma where_orderId_flushed (o : string) (k : nat) (r r2 : Invoice)
    (now : Z) (db : Store) :
  where_orderId o r = true → orderId r2 = orderId r →
  deletedAt r2 = deletedAt r →
  where_orderId o (flushed (k, r2) now db) = true.
Proof.
  intros Hw Ho Hd. apply where_orderId_true in Hw as [Ho' Hd'].
  destruct (flushed_fields (k, r2) now db)
    as (_ & Fo & _ & _ & _ & _ & _ & _ & _ & _ & _ & _ & _ & Fd).
  simpl in *. apply where_orderId_true. split; congruence.
Qed.

(** X1. [create], when no live invoice carries the order id and the
    database accepts the row, appends a PENDING invoice with the given
    amount, no link and zero attempts, and [findByOrderId] then returns
    exactly that invoice.  When a live invoice carries the order id it
    throws INVOICE_ALREADY_EXISTS; when the database refuses the row (as it
    does whenever any row, soft-deleted or not, carries the order id) it
    throws the driver's exception; either way the table is left as it
    is. *)
Theorem create_then_findByOrderId (newId o : string) (amt now : Z)
    (db : Store) :
  (findByOrderId o db = None →
   accepts db (newInvoice newId o amt now) = true →
   ∃ invoice,
     create newId o amt now db = ((db ++ [invoice])%list, Ok invoice) ∧
     findByOrderId o (db ++ [invoice])%list = Some (length db, invoice) ∧
     id invoice = newId ∧ orderId invoice = o ∧ amount invoice = amt ∧
     status invoice = PENDING ∧ paymentAttemptCount invoice = 0 ∧
     paymentLink invoice = None ∧ paidAt invoice = None ∧
     deletedAt invoice = None) ∧
  (∀ e, findByOrderId o db = Some e →
     create newId o amt now db = (db, Throw "INVOICE_ALREADY_EXISTS")) ∧
  (findByOrderId o db = None →
   accepts db (newInvoice newId o amt now) = false →
   create newId o amt now db
   = (db, Throw (rejection db (newInvoice newId o amt now)))) ∧
  (∀ k x, db !! k = Some x → orderId x = o →
     ∃ message, create newId o amt now db = (db, Throw message)).
Proof.
  split; [|split; [|split]].
  - intros Hnone Hok. unfold findByOrderId in Hnone.
    exists (newInvoice newId o amt now).
    split; [unfold create; by rewrite Hnone, Hok|].
    split; [|done].
    unfold findByOrderId, findOne. apply list_find_Some.
    split; [by rewrite lookup_app_r, Nat.sub_diag|].
    split; [by apply where_orderId_true|].
    intros j y Hj Hlt. rewrite lookup_app_l in Hj by done.
    rewrite (proj1 (findOne_None _ _) Hnone j y Hj). done.
  - intros e He. unfold create. unfold findByOrderId in He. by rewrite He.
  - intros Hnone Hno. unfold findByOrderId in Hnone. unfold create.
    by rewrite Hnone, Hno.
  - intros k x Hk Ho. unfold create.
    destruct (findOne _ db); [by eexists|].
    destruct (accepts db _) eqn:Hok; [|by eexists].
    destruct (accepts_unique db _ Hok k x Hk). done.
Qed.

(** Every committed write keeps the length of the table, except a
    successful [create], which appends one invoice whose order id no live
    row carried. *)
Lemma commit_cases (w : Txn) (db : Store) :
  length (commit w db) = length db ∨
  ∃ newId o amt now,
    findOne (where_orderId o) db = None ∧
    commit w db = (db ++ [newInvoice newId o amt now])%list.
Proof.
  destruct w; cbn [commit].
  - unfold create. destruct (findOne _ db) eqn:Hf; simpl; [by left|].
    destruct (accepts db _); simpl; [|by left].
    right. by exists newId, o, amt, now.
  - left. unfold MikroOrmInvoiceRepository.updateStatus.
    destruct (findOne _ db) as [[k r]|]; simpl;
      [by rewrite flush_length|done].
  - left. unfold MikroOrmInvoiceRepository.updateStatusByOrderId.
    destruct (findOne _ db) as [[k r]|]; simpl;
      [by rewrite flush_length|done].
  - left. rewrite atomic_fst. apply nativeUpdate_length.
  - left. unfold MikroOrmInvoiceRepository.softDelete.
    destruct (findOne _ db) as [[k r]|]; simpl;
      [by rewrite flush_length|done].
  - left. destruct (phase1_cases i now db) as [[m ->]|Hok]; [done|].
    destruct Hok as (k & r & Hf & Hp & He & Hc & Ha).
    rewrite (phase1_proceeds i now db k r Hf Hp He Hc Ha). simpl.
    by rewrite flush_length.
  - left. unfold InvoiceService.phase3a.
    destruct (findById i db) as [[k r]|]; simpl;
      [by rewrite flush_length|done].
  - left. unfold InvoiceService.phase3b.
    destruct (findById i db) as [[k r]|]; simpl;
      [by rewrite flush_length|done].
  - left. unfold InvoiceService.handleMidtransCallback.
    destruct (_ || _); simpl; [done|].
    destruct (findWithLock o db) as [[k r]|]; simpl; [|done].
    destruct (InvoiceService.switchStatus _); simpl; [|done].
    case_decide; simpl; [done|]. by rewrite flush_length.
  - left. unfold InvoiceServiceLegacy.handleMidtransCallback.
    destruct (_ || _); simpl; [done|].
    destruct (findOne _ db) as [[k r]|]; simpl; [|done].
    destruct (InvoiceService.switchStatus _); simpl; [|done].
    case_decide; simpl; [done|]. by rewrite flush_length.
Qed.

(** X2. No committed write ever makes two live invoices share an order
    id: uniqueness of [orderId] among the rows that are not soft-deleted is
    kept by every write, hence holds in every table built from the empty
    one. *)
Theorem live_orderId_stays_unique :
  (∀ w db, liveUnique db → liveUnique (commit w db)) ∧
  (∀ history, liveUnique (commits history [])).
Proof.
  assert (Hstep : ∀ w db, liveUnique db → liveUnique (commit w db)).
  { intros w db Hu j k r1' r2' Hj Hk Hl1 Hl2 Ho.
    assert (Hold : ∀ n x', (n < length db)%nat → commit w db !! n = Some x' →
              deletedAt x' = None →
              ∃ x, db !! n = Some x ∧ deletedAt x = None ∧
                   orderId x = orderId x').
    { intros n x' Hn Hx' Hl.
      destruct (lookup_lt_is_Some_2 db n Hn) as [x Hx].
      destruct (commit_evolves w db n x Hx) as (x'' & Hx'' & He).
      rewrite Hx' in Hx''. injection Hx'' as <-.
      destruct He as (_ & Ho' & _ & Hd & _).
      exists x. split; [done|]. split; [|done].
      destruct (deletedAt x) eqn:Hdx; [|done].
      rewrite Hd in Hl by done. congruence. }
    destruct (commit_cases w db)
      as [Hlen|(newId & o & amt & now & Hnone & Happ)].
    - assert (Hjl : (j < length db)%nat)
        by (rewrite <- Hlen; by apply lookup_lt_Some in Hj).
      assert (Hkl : (k < length db)%nat)
        by (rewrite <- Hlen; by apply lookup_lt_Some in Hk).
      destruct (Hold j r1' Hjl Hj Hl1) as (r1 & H1 & L1 & O1).
      destruct (Hold k r2' Hkl Hk Hl2) as (r2 & H2 & L2 & O2).
      apply (Hu j k r1 r2); try done. congruence.
    - rewrite Happ in Hj, Hk.
      pose proof (proj1 (findOne_None _ _) Hnone) as Hfree.
      assert (Hclash : ∀ n x, db !! n = Some x → deletedAt x = None →
                orderId x = o → False).
      { intros n x Hx Hlx Hox. specialize (Hfree n x Hx).
        assert (where_orderId o x = true) by (by apply where_orderId_true).
        congruence. }
      destruct (decide (j < length db)%nat) as [Hjl|Hjl],
        (decide (k < length db)%nat) as [Hkl|Hkl].
      + rewrite lookup_app_l in Hj, Hk by done. by apply (Hu j k r1' r2').
      + rewrite lookup_app_l in Hj by done.
        rewrite lookup_app_r in Hk by lia.
        apply list_lookup_singleton_Some in Hk as [_ <-].
        destruct (Hclash j r1' Hj Hl1). by rewrite Ho.
      + rewrite lookup_app_l in Hk by done.
        rewrite lookup_app_r in Hj by lia.
        apply list_lookup_singleton_Some in Hj as [_ <-].
        destruct (Hclash k r2' Hk Hl2). by rewrite <- Ho.
      + rewrite lookup_app_r in Hj, Hk by lia.
        apply list_lookup_singleton_Some in Hj as [Hj _].
        apply list_lookup_singleton_Some in Hk as [Hk _]. lia. }
  split; [exact Hstep|].
  assert (Hrun : ∀ history db, liveUnique db → liveUnique (commits history db)).
  { induction history as [|w history IH]; intros db Hu; [done|].
    simpl. apply IH. by apply Hstep. }
  intros history. apply Hrun. intros j k r r' Hj. done.
Qed.

(** What [softDelete] leaves behind when it finds its invoice. *)
Lemma softDelete_found (i : string) (now : Z) (db : Store) (k : nat)
    (r : Invoice) :
  findById i db = Some (k, r) →
  ∃ r',
    MikroOrmInvoiceRepository.softDelete i now db
    = (<[k := r']> db, Ok r') ∧
    r' = set_updatedAt now (set_deletedAt (Some now) r).
Proof.
  intros Hf. pose proof (findOne_Some _ _ _ _ Hf) as (Hk & Hw & _).
  apply where_id_true in Hw as [_ Hl].
  exists (set_updatedAt now (set_deletedAt (Some now) r)).
  split; [|done].
  unfold MikroOrmInvoiceRepository.softDelete. unfold findById in Hf.
  rewrite Hf. unfold flush, flushed. simpl.
  rewrite decide_False; [done|].
  rewrite Hk. intros [= Heq]. apply (f_equal deletedAt) in Heq.
  simpl in Heq. congruence.
Qed.

Lemma softDelete_absent (i : string) (now : Z) (db : Store) (k : nat)
    (r : Invoice) :
  primaryKey db → findById i db = Some (k, r) →
  findById i (MikroOrmInvoiceRepository.softDelete i now db).1 = None.
Proof.
  intros Hpk Hf. destruct (softDelete_found i now db k r Hf) as (r' & -> & ->).
  pose proof (findOne_Some _ _ _ _ Hf) as (Hk & Hw & _).
  apply where_id_true in Hw as [Hi _]. simpl.
  apply findOne_None. intros j x Hj.
  destruct (where_id i x) eqn:Hwx; [|done].
  apply where_id_true in Hwx as [Hix Hlx].
  destruct (decide (j = k)) as [->|Hne].
  - rewrite list_lookup_insert_eq in Hj by (by apply lookup_lt_Some in Hk).
    injection Hj as <-. done.
  - rewrite list_lookup_insert_ne in Hj by done.
    destruct Hne. apply (Hpk j k x r); congruence.
Qed.

(** X3. With [id] the primary key, a successful [softDelete] stamps
    [deletedAt] on the invoice, changing nothing else of it but [updatedAt]
    and no other row, after which the invoice is gone for the repository:
    [findById] returns null and a second [softDelete] throws the not-found
    error, leaving the table as it is. *)
Theorem softDelete_then_absent (i : string) (now : Z) (db : Store)
    (k : nat) (r : Invoice) :
  primaryKey db → findById i db = Some (k, r) →
  let out := MikroOrmInvoiceRepository.softDelete i now db in
  (∃ r', out.2 = Ok r' ∧ out.1 !! k = Some r' ∧
         deletedAt r' = Some now ∧ updatedAt r' = now ∧
         set_updatedAt (updatedAt r) (set_deletedAt None r') = r) ∧
  (∀ j, j ≠ k → out.1 !! j = db !! j) ∧
  findById i out.1 = None ∧
  (∀ later,
     MikroOrmInvoiceRepository.softDelete i later out.1
     = (out.1, Throw "Invoice not found")).
Proof.
  intros Hpk Hf out.
  pose proof (softDelete_absent i now db k r Hpk Hf) as Habsent.
  pose proof (findOne_Some _ _ _ _ Hf) as (Hk & Hw & _).
  apply where_id_true in Hw as [_ Hl].
  destruct (softDelete_found i now db k r Hf) as (r' & Hout & Hr').
  subst out. rewrite Hout in *. simpl in *. split; [|split; [|split]].
  - exists r'. split; [done|].
    split; [apply list_lookup_insert_eq; by apply lookup_lt_Some in Hk|].
    subst r'. simpl. repeat split. destruct r. simpl in *. by subst.
  - intros j Hne. by apply list_lookup_insert_ne.
  - done.
  - intros later. unfold MikroOrmInvoiceRepository.softDelete.
    unfold findById in Habsent. by rewrite Habsent.
Qed.

(** X5. [updateStatus] and [updateStatusByOrderId] are unguarded: on a live
    invoice they set whatever status they are given, from whatever status
    the invoice has, and the lookup that found the invoice then returns it
    with that status.  [paidAt] is stamped only when payment data comes with
    the call and the status is PAID; without payment data neither [paidAt]
    nor the payment fields change. *)
Theorem updateStatus_then_find (st : InvoiceStatus)
    (paymentData : option PaymentData) (now : Z) (db : Store) (k : nat)
    (r : Invoice) :
  let written (r' : Invoice) :=
    status r' = st ∧
    paidAt r' = match paymentData with
                | Some _ => if decide (st = PAID) then Some now else paidAt r
                | None => paidAt r
                end ∧
    match paymentData with
    | Some pd =>
        paymentType r' = pd_paymentType pd ∧ bank r' = pd_bank pd ∧
        vaNumber r' = pd_vaNumber pd ∧
        gatewayResponse r' = pd_gatewayResponse pd
    | None =>
        paymentType r' = paymentType r ∧ bank r' = bank r ∧
        vaNumber r' = vaNumber r ∧ gatewayResponse r' = gatewayResponse r
    end ∧
    amount r' = amount r ∧ paymentAttemptCount r' = paymentAttemptCount r ∧
    paymentLink r' = paymentLink r in
  (∀ i, findById i db = Some (k, r) →
     ∃ r',
       (MikroOrmInvoiceRepository.updateStatus i st paymentData now db).2
       = Ok r' ∧
       findById i
         (MikroOrmInvoiceRepository.updateStatus i st paymentData now db).1
       = Some (k, r') ∧ written r') ∧
  (∀ o, findByOrderId o db = Some (k, r) →
     ∃ r',
       (MikroOrmInvoiceRepository.updateStatusByOrderId o st paymentData now
          db).2 = Ok r' ∧
       findByOrderId o
         (MikroOrmInvoiceRepository.updateStatusByOrderId o st paymentData
            now db).1 = Some (k, r') ∧ written r').
Proof.
  intros written.
  set (r2 := assignStatus st paymentData now r).
  assert (Hfields : written (flushed (k, r2) now db)).
  { destruct (flushed_fields (k, r2) now db)
      as (_ & _ & Fa & Fs & Fp & Fb & Fv & Fg & Fpa & Fl & _ & Fc & _ & _).
    simpl in *. unfold written.
    rewrite Fa, Fs, Fp, Fb, Fv, Fg, Fpa, Fl, Fc. subst r2.
    unfold assignStatus. destruct paymentData as [pd|]; simpl;
      [case_decide; simpl|]; by repeat split. }
  assert (Hid : id r2 = id r ∧ orderId r2 = orderId r ∧
                deletedAt r2 = deletedAt r).
  { subst r2. unfold assignStatus. destruct paymentData as [pd|]; simpl;
      [case_decide; simpl|]; by repeat split. }
  destruct Hid as (Hi & Ho & Hd). split.
  - intros i Hf. pose proof (findOne_Some _ _ _ _ Hf) as (_ & Hw & _).
    exists (flushed (k, r2) now db).
    unfold MikroOrmInvoiceRepository.updateStatus. unfold findById in Hf.
    rewrite Hf. simpl. split; [done|]. split; [|done].
    apply (findOne_flush _ _ _ _ _ r Hf). by apply (where_id_flushed i k r).
  - intros o Hf. pose proof (findOne_Some _ _ _ _ Hf) as (_ & Hw & _).
    exists (flushed (k, r2) now db).
    unfold MikroOrmInvoiceRepository.updateStatusByOrderId.
    unfold findByOrderId in Hf. rewrite Hf. simpl.
    split; [done|]. split; [|done].
    apply (findOne_flush _ _ _ _ _ r Hf).
    by apply (where_orderId_flushed o k r).
Qed.

(** X7. [handleMidtransCallback] is idempotent: once it has run for an
    order and a vendor status, running it again for the same order and
    status writes nothing, whatever the payload and the instant.  The same
    holds of the legacy service. *)
Theorem handleMidtransCallback_idempotent (o transactionStatus : string)
    (raw raw' : string) (now later : Z) (db : Store) :
  (let db1 :=
     (InvoiceService.handleMidtransCallback o transactionStatus raw now
        db).1 in
   (InvoiceService.handleMidtransCallback o transactionStatus raw' later
      db1).1 = db1) ∧
  (let db1 :=
     (InvoiceServiceLegacy.handleMidtransCallback o transactionStatus raw
        now db).1 in
   (InvoiceServiceLegacy.handleMidtransCallback o transactionStatus raw'
      later db1).1 = db1).
Proof.
  split.
  - unfold InvoiceService.handleMidtransCallback, findWithLock.
    destruct (_ || _) eqn:Hempty; simpl; [done|].
    destruct (findOne (where_id o) db) as [[k r]|] eqn:Hf; simpl;
      [|by rewrite ?Hempty, ?Hf].
    destruct (InvoiceService.switchStatus transactionStatus)
      as [newStatus|] eqn:Hs; simpl; [|by rewrite ?Hempty, ?Hf, ?Hs].
    case_decide as Heq; simpl.
    { rewrite ?Hempty, ?Hf, ?Hs. by rewrite ?decide_True. }
    rewrite ?Hempty.
    set (r2 := (if decide (newStatus = PAID) then _ else _)).
    pose proof (findOne_Some _ _ _ _ Hf) as (_ & Hw & _).
    rewrite (findOne_flush (where_id o) r2 now db k r Hf); last first.
    { apply (where_id_flushed o k r); [done| |];
        subst r2; by case_decide. }
    rewrite ?Hs.
    destruct (flushed_fields (k, r2) now db) as (_ & _ & _ & Fs & _).
    simpl in Fs. rewrite decide_True; [done|].
    rewrite Fs. subst r2. by case_decide.
  - unfold InvoiceServiceLegacy.handleMidtransCallback.
    rewrite legacy_live_orderId.
    destruct (_ || _) eqn:Hempty; simpl; [done|].
    destruct (findOne (where_orderId o) db) as [[k r]|] eqn:Hf; simpl;
      [|by rewrite ?Hempty, ?Hf].
    destruct (InvoiceService.switchStatus transactionStatus)
      as [newStatus|] eqn:Hs; simpl; [|by rewrite ?Hempty, ?Hf, ?Hs].
    case_decide as Heq; simpl.
    { rewrite ?Hempty, ?Hf, ?Hs. by rewrite ?decide_True. }
    rewrite ?Hempty.
    set (r2 := (if decide (newStatus = PAID) then _ else _)).
    pose proof (findOne_Some _ _ _ _ Hf) as (_ & Hw & _).
    rewrite (findOne_flush (where_orderId o) r2 now db k r Hf); last first.
    { apply (where_orderId_flushed o k r); [done| |];
        subst r2; by case_decide. }
    rewrite ?Hs.
    destruct (flushed_fields (k, r2) now db) as (_ & _ & _ & Fs & _).
    simpl in Fs. rewrite decide_True; [done|].
    rewrite Fs. subst r2. by case_decide.
Qed.

End RepositoryMore.

(** ** The webhook routes: replays, isolation, settled invoices *)

Section WebhookMore.
Context `{Platform}.
Import MikroOrmInvoiceRepository MidtransService.

Lemma findOne_nativeUpdate (w' w : Invoice → bool) (u : UpdateData)
    (db : Store) (k : nat) (r : Invoice) :
  (∀ x, w' (applyUpdate u x) = w' x) →
  findOne w' db = Some (k, r) →
  findOne w' (nativeUpdate w u db).1
  = Some (k, if w r then applyUpdate u r else r).
Proof.
  intros Hkeep Hf. pose proof (findOne_Some _ _ _ _ Hf) as (Hk & Hw & Hmin).
  unfold findOne. apply list_find_Some. split; [|split].
  - by apply nativeUpdate_lookup.
  - destruct (w r); [by rewrite Hkeep|done].
  - intros j y Hj Hlt.
    assert (Hjl : (j < length db)%nat)
      by (rewrite <- (nativeUpdate_length w u); by apply lookup_lt_Some in Hj).
    destruct (lookup_lt_is_Some_2 db j Hjl) as [x Hx].
    rewrite (nativeUpdate_lookup _ _ _ _ _ Hx) in Hj. injection Hj as <-.
    specialize (Hmin j x Hx Hlt).
    destruct (w x); [rewrite Hkeep|]; by rewrite Hmin.
Qed.

(** The conditional update on an order whose first live invoice is
    pending. *)
Lemma atomic_on_found (o : string) (newStatus : InvoiceStatus)
    (paymentData : option Notification) (now : Z) (db : Store) (k : nat)
    (invoice : Invoice) :
  findByOrderId o db = Some (k, invoice) → status invoice = PENDING →
  let cas :=
    updateStatusAtomicFromPending o newStatus paymentData now db in
  cas.2 = SUCCESS ∧
  findByOrderId o cas.1
  = Some (k, applyUpdate (buildUpdateData newStatus paymentData now) invoice).
Proof.
  intros Hf Hst cas. subst cas.
  pose proof (findOne_Some _ _ _ _ Hf) as (Hk & Hw & _).
  apply where_orderId_true in Hw as [Ho Hl].
  assert (Hwp : where_pending o invoice = true)
    by (by apply where_pending_true).
  split.
  - rewrite atomic_snd. rewrite decide_True; [done|].
    apply nativeUpdate_count_pos. eauto.
  - rewrite atomic_fst. unfold findByOrderId.
    rewrite (findOne_nativeUpdate (where_orderId o) (where_pending o) _ db k
               invoice); [by rewrite Hwp|done|done].
Qed.

Lemma atomic_keeps_other_orders (o : string) (newStatus : InvoiceStatus)
    (paymentData : option Notification) (now : Z) (db : Store) (k : nat)
    (r : Invoice) :
  db !! k = Some r → orderId r ≠ o →
  (updateStatusAtomicFromPending o newStatus paymentData now db).1 !! k
  = Some r.
Proof.
  intros Hk Ho. rewrite atomic_fst, (nativeUpdate_lookup _ _ _ _ _ Hk).
  assert (where_pending o r = false) as ->; [|done].
  apply where_pending_false. tauto.
Qed.

Lemma onError_not_success (message : string) (invoice : option Invoice) :
  MidtransRoute.onError message ≠ mkResponse 200 (JSuccessInvoice invoice).
Proof.
  unfold MidtransRoute.onError.
  destruct (_ && _); [done|]. destruct (includes "Invalid Status" _); [done|].
  by destruct (includes "Database not initialized" _).
Qed.

(** Everything the webhook route can do, in one statement: nothing, or the
    conditional update on the order of a notification that passed every
    check. *)
Lemma notification_outcome (signature : string) (notification : Notification)
    (now : Z) (race : Store → Store) (processed : gset string)
    (db : Store) :
  let out :=
    MidtransRoute.notification signature notification now race processed
      db in
  let o := str (order_id notification) in
  (out.1 = (processed, db) ∧
   ∀ invoice, out.2 ≠ mkResponse 200 (JSuccessInvoice invoice)) ∨
  (∃ k invoice newStatus,
     validateWebhookRequest notification = None ∧
     (IS_PRODUCTION && negb (verifySignature notification signature))
     = false ∧
     (MidtransRoute.notificationId notification ∉ processed) ∧
     InvoiceService.getByOrderId o db = Some (k, invoice) ∧
     validatePaymentRules invoice notification = None ∧
     mapMidtransStatusToInvoice (transaction_status notification)
     = Some newStatus ∧
     isValidStatusTransition (status invoice) newStatus = true ∧
     status invoice ≠ newStatus ∧
     (let cas :=
        updateStatusAtomicFromPending o newStatus (Some notification) now
          (race db) in
      (cas.2 = NOOP ∧
       out = (processed, cas.1,
              mkResponse 200 (JSuccessMessage "No operation performed"))) ∨
      (cas.2 = SUCCESS ∧
       out = ({[MidtransRoute.notificationId notification]} ∪ processed,
              cas.1,
              mkResponse 200
                (JSuccessInvoice (snd <$> findByOrderId o cas.1)))))).
Proof.
  intros out o. subst out o. unfold MidtransRoute.notification.
  destruct (validateWebhookRequest _) eqn:Hv; [by left|].
  destruct (_ && _) eqn:Ha; [by left|].
  case_bool_decide as Hdup; [by left|].
  destruct (InvoiceService.getByOrderId _ db) as [[k invoice]|] eqn:Hf;
    [|by left].
  destruct (validatePaymentRules _ _) eqn:Hr; [by left|].
  destruct (mapMidtransStatusToInvoice _) as [newStatus|] eqn:Hm;
    [|left; split; [done|apply onError_not_success]].
  destruct (isValidStatusTransition _ _) eqn:Hfsm; [|by left].
  cbn [negb]. case_bool_decide as Heq; [by left|].
  right. exists k, invoice, newStatus. repeat (split; [done|]).
  unfold InvoiceService.updateStatusAtomicFromPending,
    InvoiceService.getByOrderId.
  destruct (updateStatusAtomicFromPending _ _ _ _ _) as [db' result].
  destruct result; [by right|by left].
Qed.

(** X8. Idempotent replay on the webhook route: once a notification has
    been answered with the updated invoice, delivering the same notification
    again is answered 200 'Sudah diproses' and changes nothing, at any later
    instant, on whatever table the writes committed in between have left,
    with whatever keys the cache has gained in between, and whatever
    happens concurrently. *)
Theorem notification_replay (signature : string)
    (notification : Notification) (now later : Z)
    (race race' : Store → Store) (processed processed' : gset string)
    (db db' : Store) (invoice : option Invoice) :
  let out :=
    MidtransRoute.notification signature notification now race processed
      db in
  out.2 = mkResponse 200 (JSuccessInvoice invoice) →
  out.1.1 ⊆ processed' →
  MidtransRoute.notification signature notification later race' processed'
    db'
  = (processed', db', mkResponse 200 (JSuccessMessage "Sudah diproses")).
Proof.
  intros out Hresp Hgrown.
  destruct (notification_outcome signature notification now race processed
              db) as [[_ Hno]|Hyes].
  { by destruct (Hno invoice). }
  destruct Hyes as (k & inv & newStatus & Hv & Ha & _ & _ & _ & _ & _ & _ &
                    Hcas).
  assert (Hkey : MidtransRoute.notificationId notification ∈ out.1.1).
  { destruct Hcas as [[_ Hout]|[_ Hout]]; fold out in Hout.
    - rewrite Hout in Hresp. done.
    - rewrite Hout. simpl. apply elem_of_union_l, elem_of_singleton. done. }
  unfold MidtransRoute.notification. rewrite Hv, Ha.
  rewrite bool_decide_eq_true_2; [done|]. by apply Hgrown.
Qed.

(** X9. The idempotency key of a notification is recorded exactly when the
    route ran the conditional update and it changed a row, which is exactly
    when the answer is the one carrying the updated invoice.  When the
    notification passes every check and the update answers SUCCESS, the key
    is added to the cache and the answer is 200 with the invoice as the
    table then has it; in every other case the cache is left as it was and
    the answer is another one. *)
Theorem notification_records_key_on_success (signature : string)
    (notification : Notification) (now : Z) (race : Store → Store)
    (processed : gset string) (db : Store) :
  let out :=
    MidtransRoute.notification signature notification now race processed
      db in
  let o := str (order_id notification) in
  let cas (newStatus : InvoiceStatus) :=
    updateStatusAtomicFromPending o newStatus (Some notification) now
      (race db) in
  let updates (newStatus : InvoiceStatus) :=
    validateWebhookRequest notification = None ∧
    (IS_PRODUCTION && negb (verifySignature notification signature))
    = false ∧
    (MidtransRoute.notificationId notification ∉ processed) ∧
    (∃ k invoice,
       InvoiceService.getByOrderId o db = Some (k, invoice) ∧
       validatePaymentRules invoice notification = None ∧
       isValidStatusTransition (status invoice) newStatus = true ∧
       status invoice ≠ newStatus) ∧
    mapMidtransStatusToInvoice (transaction_status notification)
    = Some newStatus ∧
    (cas newStatus).2 = SUCCESS in
  (∀ newStatus, updates newStatus →
     out = ({[MidtransRoute.notificationId notification]} ∪ processed,
            (cas newStatus).1,
            mkResponse 200
              (JSuccessInvoice
                 (snd <$> findByOrderId o (cas newStatus).1)))) ∧
  ((¬ ∃ newStatus, updates newStatus) →
     out.1.1 = processed ∧
     ∀ invoice, out.2 ≠ mkResponse 200 (JSuccessInvoice invoice)).
Proof.
  intros out o cas updates. split.
  - intros newStatus (Hv & Ha & Hfresh & (k & invoice & Hf & Hr & Hfsm & Hne)
                      & Hm & Hsuccess).
    subst out cas. cbv beta in Hsuccess. unfold MidtransRoute.notification.
    rewrite Hv, Ha. rewrite bool_decide_eq_false_2 by done.
    fold o. rewrite Hf, Hr, Hm, Hfsm. cbn [negb].
    rewrite bool_decide_eq_false_2 by done.
    unfold InvoiceService.updateStatusAtomicFromPending,
      InvoiceService.getByOrderId.
    revert Hsuccess.
    destruct (updateStatusAtomicFromPending o newStatus _ now (race db))
      as [db1 result].
    cbn [fst snd]. by intros ->.
  - intros Hnever.
    destruct (notification_outcome signature notification now race processed
                db) as [[Hsame Hno]|Hyes].
    { fold out in Hsame, Hno. by rewrite Hsame. }
    destruct Hyes as (k & invoice & newStatus & Hv & Ha & Hfresh & Hf & Hr &
                      Hm & Hfsm & Hne & Hcas).
    destruct Hcas as [[_ Hout]|[Hs Hout]].
    + fold out in Hout. by rewrite Hout.
    + destruct Hnever. exists newStatus. unfold updates.
      repeat (split; [done|]). split; [by exists k, invoice|]. done.
Qed.

(** A row the conditional update would leave alone, whatever the target
    status, is left alone by each of the three notification routes. *)
Lemma routes_frame (signature : string) (notification : Notification)
    (now : Z) (race : Store → Store) (processed : gset string) (db : Store)
    (k : nat) (r : Invoice) :
  db !! k = Some r →
  (∀ newStatus,
     (updateStatusAtomicFromPending (str (order_id notification)) newStatus
        (Some notification) now (race db)).1 !! k = Some r) →
  (MidtransRoute.notification signature notification now race processed
     db).1.2 !! k = Some r ∧
  (MidtransRouteV1.notification signature notification now race processed
     db).1.2 !! k = Some r ∧
  (CallbackRoute.notification (Some notification) now race db).1 !! k
  = Some r.
Proof.
  intros Hk Hcas. split; [|split].
  - destruct (notification_store signature notification now race processed
                db) as [->|[newStatus ->]]; [done|apply Hcas].
  - unfold MidtransRouteV1.notification.
    destruct (MidtransRouteV1.validateWebhookRequest _); [done|].
    destruct (_ && _); [done|]. case_bool_decide; [done|].
    destruct (InvoiceService.getByOrderId _ db) as [[j invoice]|]; [|done].
    destruct (MidtransRouteV1.validatePaymentRules _ _); [done|].
    destruct (mapMidtransStatusToInvoice _) as [newStatus|]; [|done].
    specialize (Hcas newStatus).
    unfold InvoiceService.updateStatusAtomicFromPending.
    destruct (updateStatusAtomicFromPending _ _ _ _ _) as [db' result].
    by destruct result.
  - unfold CallbackRoute.notification.
    destruct (negb _); [done|].
    destruct (InvoiceService.getByOrderId _ db) as [[j invoice]|]; [|done].
    destruct (CallbackRoute.mapMidtransStatusToInvoice _) as [newStatus|];
      [|done].
    destruct (negb _); [done|]. case_bool_decide; [done|].
    specialize (Hcas newStatus).
    unfold InvoiceService.updateStatusAtomicFromPending.
    destruct (updateStatusAtomicFromPending _ _ _ _ _) as [db' result].
    by destruct result.
Qed.

(** X10. A notification never changes the invoice of another order: on
    each of the three notification routes, a row whose [orderId] is not the
    notification's [order_id] is left exactly as it was. *)
Theorem notification_keeps_other_orders (signature : string)
    (notification : Notification) (now : Z) (race : Store → Store)
    (processed : gset string) (db : Store) (k : nat) (r : Invoice) :
  db !! k = Some r → race db !! k = Some r →
  orderId r ≠ str (order_id notification) →
  (MidtransRoute.notification signature notification now race processed
     db).1.2 !! k = Some r ∧
  (MidtransRouteV1.notification signature notification now race processed
     db).1.2 !! k = Some r ∧
  (CallbackRoute.notification (Some notification) now race db).1 !! k
  = Some r.
Proof.
  intros Hk Hrace Ho. apply routes_frame; [done|].
  intros newStatus. by apply atomic_keeps_other_orders.
Qed.

Lemma isValidStatusTransition_true (current next : InvoiceStatus) :
  isValidStatusTransition current next = true → current = PENDING.
Proof. by destruct current. Qed.

(** X11. The webhook route performs no write at all for an order whose
    invoice it reads as PAID, FAILED or EXPIRED: table and cache are
    returned as they were, whatever is committed concurrently.  In
    particular a FAILED invoice, although it passes the business rules,
    cannot be paid through the route: a notification for it that passes
    every check is answered 200 'Status transition not allowed'. *)
Theorem notification_on_settled_invoice (signature : string)
    (notification : Notification) (now : Z) (race : Store → Store)
    (processed : gset string) (db : Store) (k : nat) (invoice : Invoice) :
  InvoiceService.getByOrderId (str (order_id notification)) db
  = Some (k, invoice) →
  status invoice ≠ PENDING →
  let out :=
    MidtransRoute.notification signature notification now race processed
      db in
  out.1 = (processed, db) ∧
  (status invoice = FAILED →
   validateWebhookRequest notification = None →
   IS_PRODUCTION = false ∨ verifySignature notification signature = true →
   MidtransRoute.notificationId notification ∉ processed →
   Number (gross_amount notification) = Some (amount invoice) →
   ∀ newStatus,
     mapMidtransStatusToInvoice (transaction_status notification)
     = Some newStatus →
     out.2 = mkResponse 200 (JSuccessMessage "Status transition not allowed")).
Proof.
  intros Hf Hst out. split.
  - destruct (notification_outcome signature notification now race processed
                db) as [[Hsame _]|Hyes]; [done|].
    destruct Hyes as (k' & inv' & newStatus & _ & _ & _ & Hf' & _ & _ & Hfsm
                      & _).
    rewrite Hf in Hf'. injection Hf' as <- <-.
    by apply isValidStatusTransition_true in Hfsm.
  - intros Hfailed Hv Hauth Hfresh Hamount newStatus Hm.
    subst out. unfold MidtransRoute.notification. rewrite Hv.
    assert (IS_PRODUCTION
            && negb (verifySignature notification signature) = false) as ->.
    { destruct Hauth as [->| ->]; [done|]. simpl. apply andb_false_r. }
    rewrite bool_decide_eq_false_2 by done. rewrite Hf.
    unfold validatePaymentRules. rewrite Hamount, Hfailed, Hm.
    rewrite bool_decide_eq_true_2 by done. done.
Qed.

(** X12. The success path of the webhook route, when nothing is committed
    concurrently: a notification that passes the schema and signature
    checks, is not in the cache, names an order whose live invoice is
    PENDING with exactly the notified amount, and carries a vendor status
    mapped to a status other than PENDING, moves that invoice to the mapped
    status, stores the body as [gatewayResponse], stamps [paidAt] exactly
    when the status is PAID, records the key and answers 200 with the
    updated invoice. *)
Theorem notification_success (signature : string)
    (notification : Notification) (now : Z) (race : Store → Store)
    (processed : gset string) (db : Store) (k : nat) (invoice : Invoice)
    (newStatus : InvoiceStatus) :
  validateWebhookRequest notification = None →
  IS_PRODUCTION = false ∨ verifySignature notification signature = true →
  MidtransRoute.notificationId notification ∉ processed →
  InvoiceService.getByOrderId (str (order_id notification)) db
  = Some (k, invoice) →
  status invoice = PENDING →
  Number (gross_amount notification) = Some (amount invoice) →
  mapMidtransStatusToInvoice (transaction_status notification)
  = Some newStatus →
  newStatus ≠ PENDING →
  race db = db →
  ∃ updated db',
    MidtransRoute.notification signature notification now race processed db
    = ({[MidtransRoute.notificationId notification]} ∪ processed, db',
       mkResponse 200 (JSuccessInvoice (Some updated))) ∧
    db' !! k = Some updated ∧
    status updated = newStatus ∧ updatedAt updated = now ∧
    gatewayResponse updated = Some (json notification) ∧
    paidAt updated
    = (if decide (newStatus = PAID) then Some now else paidAt invoice) ∧
    id updated = id invoice ∧ orderId updated = orderId invoice ∧
    amount updated = amount invoice ∧
    paymentAttemptCount updated = paymentAttemptCount invoice.
Proof.
  intros Hv Hauth Hfresh Hf Hst Hamount Hm Hne Hrace.
  set (u := buildUpdateData newStatus (Some notification) now).
  exists (applyUpdate u invoice),
    (updateStatusAtomicFromPending (str (order_id notification)) newStatus
       (Some notification) now db).1.
  destruct (atomic_on_found (str (order_id notification)) newStatus
              (Some notification) now db k invoice Hf Hst)
    as [Hsuccess Hfound].
  split.
  - unfold MidtransRoute.notification. rewrite Hv.
    assert (IS_PRODUCTION
            && negb (verifySignature notification signature) = false) as ->.
    { destruct Hauth as [->| ->]; [done|]. simpl. apply andb_false_r. }
    rewrite bool_decide_eq_false_2 by done. rewrite Hf.
    assert (validatePaymentRules invoice notification = None) as ->.
    { unfold validatePaymentRules. rewrite Hamount, Hst.
      by rewrite bool_decide_eq_true_2. }
    rewrite Hm, Hst.
    change (isValidStatusTransition PENDING newStatus) with true.
    cbn [negb]. rewrite bool_decide_eq_false_2 by congruence.
    rewrite Hrace.
    unfold InvoiceService.updateStatusAtomicFromPending,
      InvoiceService.getByOrderId.
    destruct (updateStatusAtomicFromPending _ _ _ _ db) as [db' result].
    simpl in Hsuccess, Hfound. subst result. rewrite Hfound. done.
  - pose proof (findOne_Some _ _ _ _ Hfound) as (Hk & _ & _).
    split; [exact Hk|]. subst u. simpl. repeat split; try done.
    by case_decide.
Qed.

(** X13. [validatePaymentRules] accepts exactly the notifications whose
    amount is, as a number, the invoice's amount, for an invoice that is
    PENDING or FAILED.  The amount is compared first, so a mismatch is what
    is reported even for a PAID or EXPIRED invoice, and the third rule
    ('status not open for payment') can never be the one that fires.  The
    copy in the earlier route revision is the same function. *)
Theorem validatePaymentRules_characterised (invoice : Invoice)
    (notification : Notification) :
  (validatePaymentRules invoice notification = None ↔
   Number (gross_amount notification) = Some (amount invoice) ∧
   (status invoice = PENDING ∨ status invoice = FAILED)) ∧
  (Number (gross_amount notification) ≠ Some (amount invoice) ↔
   validatePaymentRules invoice notification
   = Some (AmountMismatch (amount invoice)
             (Number (gross_amount notification)))) ∧
  (∀ s, validatePaymentRules invoice notification
        ≠ Some (StatusNotPayable s)) ∧
  MidtransRouteV1.validatePaymentRules invoice notification
  = validatePaymentRules invoice notification.
Proof.
  unfold validatePaymentRules, MidtransRouteV1.validatePaymentRules.
  case_bool_decide as Hamount; simpl.
  - split; [|split; [|split; [|done]]].
    + destruct (status invoice); simpl; split; try done; try tauto;
        intros [_ [?|?]]; done.
    + split; [done|]. by destruct (status invoice).
    + intros s. by destruct (status invoice).
  - split; [|split; [|split; [|done]]].
    + split; [done|]. by intros [? _].
    + done.
    + done.
Qed.

(** X14. The callback route writes only through the conditional update,
    and only for a body whose signature verifies, whose order has a live
    invoice read as PENDING, and whose vendor status maps to a status other
    than PENDING; in every other case the table is returned as it was. *)
Theorem callback_route_writes_only_when (body : option Notification)
    (now : Z) (race : Store → Store) (db : Store) :
  let out := CallbackRoute.notification body now race db in
  out.1 = db ∨
  ∃ b k invoice newStatus,
    body = Some b ∧ CallbackRoute.verifySignature b = true ∧
    InvoiceService.getByOrderId (str (order_id b)) db = Some (k, invoice) ∧
    status invoice = PENDING ∧
    CallbackRoute.mapMidtransStatusToInvoice (transaction_status b)
    = Some newStatus ∧
    newStatus ≠ PENDING ∧
    out.1
    = (updateStatusAtomicFromPending (str (order_id b)) newStatus (Some b)
         now (race db)).1.
Proof.
  intros out. subst out. unfold CallbackRoute.notification.
  destruct body as [b|]; [|by left].
  destruct (CallbackRoute.verifySignature b) eqn:Hsig; [|by left].
  cbn [negb].
  destruct (InvoiceService.getByOrderId _ db) as [[k invoice]|] eqn:Hf;
    [|by left].
  destruct (CallbackRoute.mapMidtransStatusToInvoice _) as [newStatus|]
    eqn:Hm; [|by left].
  destruct (CallbackRoute.isValidStatusTransition _ _) eqn:Hfsm; [|by left].
  cbn [negb]. case_bool_decide as Heq; [by left|].
  assert (Hst : status invoice = PENDING) by (by destruct (status invoice)).
  right. exists b, k, invoice, newStatus.
  repeat (split; [done || congruence|]).
  unfold InvoiceService.updateStatusAtomicFromPending.
  destruct (updateStatusAtomicFromPending _ _ _ _ _) as [db' result].
  by destruct result.
Qed.

End WebhookMore.

(** ** The coordinator and the payment-link routes *)

Section LinkMore.
Import MikroOrmInvoiceRepository.

Lemma activeLink_later (r : Invoice) (now now1 : Z) :
  InvoiceService.activeLink r now = false → now ≤ now1 →
  InvoiceService.activeLink r now1 = false.
Proof.
  unfold InvoiceService.activeLink, InvoiceService.maxAge.
  destruct (paymentLinkCreatedAt r) as [t|]; [|done].
  destruct (truthy (paymentLink r)); [|done]. simpl.
  rewrite !bool_decide_eq_false. lia.
Qed.

(** A call whose gateway request succeeds, nothing else being committed
    meanwhile. *)
Lemma generatePaymentLink_succeeds (gateway : Gateway)
    (race : Store → Store) (i : string) (now later : Z) (db db1 : Store)
    (k : nat) (marked : Invoice) (url : string) :
  InvoiceService.phase1 i now db = (db1, Ok (k, marked)) →
  gateway (InvoiceService.gatewayRequest marked) = Ok url →
  race db1 = db1 →
  ∃ db3 updated,
    InvoiceService.generatePaymentLink gateway race i now later db
    = (db3, Ok updated) ∧
    findById i db3 = Some (k, updated) ∧
    paymentLink updated = Some url ∧
    paymentLinkCreatedAt updated = Some now ∧
    paymentAttemptCount updated = paymentAttemptCount marked ∧
    status updated = status marked.
Proof.
  intros Hp Hg Hrace.
  destruct (phase1_fields i now db db1 k marked Hp)
    as (r0 & _ & _ & Hf1 & _ & _ & Hstamp & _).
  pose proof (findOne_Some _ _ _ _ Hf1) as (Hk1 & Hw1 & _).
  set (linked := set_paymentLink (Some url) marked).
  exists (flush (k, linked) later db1), (flushed (k, linked) later db1).
  destruct (flushed_fields (k, linked) later db1)
    as (_ & _ & _ & Fs & _ & _ & _ & _ & _ & Fl & Ft & Fc & _ & _).
  simpl in *. split; [|split].
  - unfold InvoiceService.generatePaymentLink. rewrite Hp, Hg, Hrace.
    unfold InvoiceService.phase3a. by rewrite Hf1.
  - apply (findOne_flush _ _ _ _ _ marked Hf1).
    by apply (where_id_flushed i k marked).
  - rewrite Fl, Ft, Fc, Fs. by repeat split.
Qed.

(** A call whose gateway request fails, nothing else being committed
    meanwhile. *)
Lemma generatePaymentLink_fails (gateway : Gateway) (race : Store → Store)
    (i : string) (now later : Z) (db db1 : Store) (k : nat)
    (marked : Invoice) (message : string) :
  InvoiceService.phase1 i now db = (db1, Ok (k, marked)) →
  gateway (InvoiceService.gatewayRequest marked) = Throw message →
  race db1 = db1 →
  ∃ db3 cleared,
    InvoiceService.generatePaymentLink gateway race i now later db
    = (db3, Throw message) ∧
    findById i db3 = Some (k, cleared) ∧
    paymentLinkCreatedAt cleared = None ∧
    paymentAttemptCount cleared = paymentAttemptCount marked ∧
    status cleared = status marked.
Proof.
  intros Hp Hg Hrace.
  destruct (phase1_fields i now db db1 k marked Hp)
    as (r0 & _ & _ & Hf1 & _).
  pose proof (findOne_Some _ _ _ _ Hf1) as (Hk1 & Hw1 & _).
  set (cleared := set_paymentLinkCreatedAt None marked).
  exists (flush (k, cleared) later db1), (flushed (k, cleared) later db1).
  destruct (flushed_fields (k, cleared) later db1)
    as (_ & _ & _ & Fs & _ & _ & _ & _ & _ & _ & Ft & Fc & _ & _).
  simpl in *. split; [|split].
  - unfold InvoiceService.generatePaymentLink. rewrite Hp, Hg, Hrace.
    unfold InvoiceService.phase3b. by rewrite Hf1.
  - apply (findOne_flush _ _ _ _ _ marked Hf1).
    by apply (where_id_flushed i k marked).
  - by rewrite Ft, Fc, Fs.
Qed.

(** X15. The reference sent to the gateway is the first 25 characters of
    the order id, a dash and the attempt number, with the invoice's amount,
    a usage limit of 1 and an expiry of 30 minutes; for one order, two
    requests carry the same reference only if they are for the same
    attempt number. *)
Theorem gatewayRequest_reference (invoice invoice' : Invoice) :
  orderId invoice = orderId invoice' →
  (req_order_id (InvoiceService.gatewayRequest invoice)
   = req_order_id (InvoiceService.gatewayRequest invoice')
   ↔ paymentAttemptCount invoice = paymentAttemptCount invoice') ∧
  req_order_id (InvoiceService.gatewayRequest invoice)
  = String.substring 0 25 (orderId invoice) +:+ "-"
    +:+ pretty (paymentAttemptCount invoice) ∧
  req_gross_amount (InvoiceService.gatewayRequest invoice) = amount invoice ∧
  req_usage_limit (InvoiceService.gatewayRequest invoice) = 1 ∧
  req_expiry_minutes (InvoiceService.gatewayRequest invoice) = 30.
Proof.
  intros Ho. split; [|done]. simpl. rewrite Ho. split.
  - intros Heq. apply String.app_inj in Heq.
    apply (String.app_inj "-") in Heq. by apply pretty_Z_inj in Heq.
  - by intros ->.
Qed.

(** X16. After a successful generation that stored a non-empty link,
    nothing else being committed meanwhile, a further call within 30
    minutes of the first one is refused and changes nothing: with
    ACTIVE_PAYMENT_LINK_EXISTS while fewer than 3 attempts were made, with
    MAX_PAYMENT_ATTEMPTS_REACHED once the third attempt was the successful
    one. *)
Theorem generatePaymentLink_again_within_window (gateway gateway' : Gateway)
    (race race' : Store → Store) (i : string) (now later now2 later2 : Z)
    (db db1 : Store) (k : nat) (marked : Invoice) (url : string) :
  InvoiceService.phase1 i now db = (db1, Ok (k, marked)) →
  gateway (InvoiceService.gatewayRequest marked) = Ok url →
  url ≠ "" → race db1 = db1 →
  now2 - now < 30 * 60 * 1000 →
  let db3 :=
    (InvoiceService.generatePaymentLink gateway race i now later db).1 in
  InvoiceService.generatePaymentLink gateway' race' i now2 later2 db3
  = (db3, Throw (if decide (3 ≤ paymentAttemptCount marked)
                 then "MAX_PAYMENT_ATTEMPTS_REACHED"
                 else "ACTIVE_PAYMENT_LINK_EXISTS")).
Proof.
  intros Hp Hg Hurl Hrace Hfresh db3.
  destruct (generatePaymentLink_succeeds gateway race i now later db db1 k
              marked url Hp Hg Hrace)
    as (db3' & updated & Hout & Hf3 & Hl & Ht & Hc & Hs).
  subst db3. rewrite Hout. simpl.
  destruct (phase1_fields i now db db1 k marked Hp)
    as (r0 & Hf0 & _ & _ & _ & _ & _ & _ & _ & _ & Hs0 & _).
  destruct (phase1_cases i now db) as [[m Hm]|Hok]; [by rewrite Hm in Hp|].
  destruct Hok as (k0 & r0' & Hf0' & Hpaid & Hexp & _).
  rewrite Hf0 in Hf0'. injection Hf0' as <- <-.
  unfold InvoiceService.generatePaymentLink, InvoiceService.phase1.
  rewrite Hf3, Hs, Hs0.
  rewrite !(decide_False (P := status r0 = _)) by done. rewrite Hc.
  case_decide; [done|].
  assert (InvoiceService.activeLink updated now2 = true) as ->; [|done].
  apply activeLink_true. exists now. rewrite Hl.
  by rewrite (truthy_Some url Hurl).
Qed.

(** X17. After a generation whose gateway request failed, nothing else
    being committed meanwhile, the failed attempt never blocks the next
    call as an active link: at any instant the next call passes the first
    transaction when fewer than 3 attempts were made, and is refused with
    MAX_PAYMENT_ATTEMPTS_REACHED otherwise. *)
Theorem generatePaymentLink_retry_after_failure (gateway : Gateway)
    (race : Store → Store) (i : string) (now later now2 : Z)
    (db db1 : Store) (k : nat) (marked : Invoice) (message : string) :
  InvoiceService.phase1 i now db = (db1, Ok (k, marked)) →
  gateway (InvoiceService.gatewayRequest marked) = Throw message →
  race db1 = db1 →
  let db3 :=
    (InvoiceService.generatePaymentLink gateway race i now later db).1 in
  (3 ≤ paymentAttemptCount marked →
   InvoiceService.phase1 i now2 db3
   = (db3, Throw "MAX_PAYMENT_ATTEMPTS_REACHED")) ∧
  (paymentAttemptCount marked < 3 →
   ∃ db4 marked',
     InvoiceService.phase1 i now2 db3 = (db4, Ok (k, marked')) ∧
     paymentAttemptCount marked' = paymentAttemptCount marked + 1 ∧
     paymentLinkCreatedAt marked' = Some now2).
Proof.
  intros Hp Hg Hrace db3.
  destruct (generatePaymentLink_fails gateway race i now later db db1 k
              marked message Hp Hg Hrace)
    as (db3' & cleared & Hout & Hf3 & Ht & Hc & Hs).
  subst db3. rewrite Hout. simpl.
  destruct (phase1_fields i now db db1 k marked Hp)
    as (r0 & Hf0 & _ & _ & _ & _ & _ & _ & _ & _ & Hs0 & _).
  destruct (phase1_cases i now db) as [[m Hm]|Hok]; [by rewrite Hm in Hp|].
  destruct Hok as (k0 & r0' & Hf0' & Hpaid & Hexp & _).
  rewrite Hf0 in Hf0'. injection Hf0' as <- <-.
  assert (Ha : InvoiceService.activeLink cleared now2 = false)
    by (unfold InvoiceService.activeLink; by rewrite Ht).
  split.
  - intros Hfull. unfold InvoiceService.phase1. rewrite Hf3, Hs, Hs0.
    rewrite !(decide_False (P := status r0 = _)) by done.
    by rewrite decide_True by lia.
  - intros Hleft.
    assert (Hp3 : status cleared ≠ PAID) by congruence.
    assert (He3 : status cleared ≠ EXPIRED) by congruence.
    assert (Hc3 : paymentAttemptCount cleared < 3) by lia.
    pose proof (phase1_proceeds i now2 db3' k cleared Hf3 Hp3 He3 Hc3 Ha)
      as Hnext. simpl in Hnext.
    destruct (phase1_fields i now2 db3' _ k _ Hnext)
      as (r3 & Hf3' & _ & _ & Hcount & _ & Hstamp & _).
    rewrite Hf3 in Hf3'. injection Hf3' as <-.
    eexists _, _. split; [exact Hnext|]. split; [lia|done].
Qed.

End LinkMore.

Section LinkRoutes.
Context `{Http}.
Import MikroOrmInvoiceRepository.

Lemma findById_of_findByOrderId (o : string) (db : Store) (k : nat)
    (r : Invoice) :
  primaryKey db → findByOrderId o db = Some (k, r) →
  findById (id r) db = Some (k, r).
Proof.
  intros Hpk Hf. pose proof (findOne_Some _ _ _ _ Hf) as (Hk & Hw & _).
  apply where_orderId_true in Hw as [_ Hl].
  unfold findById, findOne. apply list_find_Some.
  split; [done|]. split; [by apply where_id_true|].
  intros j y Hj Hlt.
  destruct (where_id (id r) y) eqn:Hwy; [|done].
  apply where_id_true in Hwy as [Hi _].
  assert (j = k) by (by apply (Hpk j k y r)). lia.
Qed.

(** X18. [POST /v1/payment-links] never leaks and never steals a lock:
    whatever the request and however it ends, the set of in-progress locks
    is the same after the call as before it.  A request that finds the lock
    of its order taken is answered 429 and changes nothing. *)
Theorem payment_links_restores_lock (gateway : Gateway)
    (race : Store → Store) (order : string) (now now1 later : Z)
    (processing : gset string) (db : Store) :
  let out :=
    InvoiceRoute.payment_links gateway race order now now1 later processing
      db in
  out.1.1 = processing ∧
  ("payment_link_" +:+ order ∈ processing → order ≠ "" →
   out = (processing, db,
          mkResponse 429
            (JError "Payment link generation is already in progress"))).
Proof.
  intros out. subst out. unfold InvoiceRoute.payment_links.
  destruct (String.eqb_spec order ""); [by split|].
  case_bool_decide as Hlock; [by split|].
  split; [|done].
  match goal with
  | |- context [let '(_, _) := ?body in _] => destruct body as [db' resp]
  end.
  simpl. by apply unlock.
Qed.

(** X19. With [id] the primary key, the clock not running backwards
    between the route's own checks and the coordinator's, and nothing else
    committed meanwhile, [POST /v1/payment-links], on a body that carries an
    order id, answers 500 only when the gateway request itself failed, after
    the coordinator had counted the attempt: every refusal of the
    coordinator's first transaction is caught by the route's own checks
    before. *)
Theorem payment_links_500_only_from_gateway (gateway : Gateway)
    (race : Store → Store) (order : string) (now now1 later : Z)
    (processing : gset string) (db : Store) :
  primaryKey db → now ≤ now1 → (∀ d, race d = d) →
  http_status
    (InvoiceRoute.payment_links gateway race order now now1 later processing
       db).2 = 500 →
  ∃ k payment db1 marked message,
    InvoiceService.getByOrderId order db = Some (k, payment) ∧
    InvoiceService.phase1 (id payment) now1 db = (db1, Ok (k, marked)) ∧
    paymentAttemptCount marked = paymentAttemptCount payment + 1 ∧
    gateway (InvoiceService.gatewayRequest marked) = Throw message.
Proof.
  intros Hpk Hclock Hrace. unfold InvoiceRoute.payment_links.
  destruct (String.eqb_spec order ""); [done|].
  case_bool_decide as Hlock; [done|].
  destruct (InvoiceService.getByOrderId order db) as [[k payment]|] eqn:Hf;
    [|done].
  destruct (decide (status payment = PAID)) as [|Hpaid]; [done|].
  destruct (decide (status payment = EXPIRED)) as [|Hexp]; [done|].
  destruct (decide (3 ≤ paymentAttemptCount payment)) as [|Hc]; [done|].
  destruct (InvoiceService.activeLink payment now) eqn:Ha; [done|].
  pose proof (findById_of_findByOrderId order db k payment Hpk Hf) as Hfi.
  pose proof (activeLink_later payment now now1 Ha Hclock) as Ha1.
  assert (Hc' : paymentAttemptCount payment < 3) by lia.
  pose proof (phase1_proceeds (id payment) now1 db k payment Hfi Hpaid Hexp
                Hc' Ha1) as Hp. simpl in Hp.
  destruct (phase1_fields (id payment) now1 db _ k _ Hp)
    as (r0 & Hf0 & _ & _ & Hcount & _).
  rewrite Hfi in Hf0. injection Hf0 as <-.
  destruct (gateway (InvoiceService.gatewayRequest
                       (flushed (k, set_paymentLinkCreatedAt (Some now1)
                                      (set_paymentAttemptCount
                                         (paymentAttemptCount payment + 1)
                                         payment)) now1 db)))
    as [url|message] eqn:Hg.
  - destruct (generatePaymentLink_succeeds gateway race (id payment) now1
                later db _ k _ url Hp Hg (Hrace _))
      as (db3 & updated & Hout & _).
    rewrite Hout. done.
  - intros _. by eexists k, payment, _, _, message.
Qed.

Lemma apiKeyAuth_Next (apiKey : option string) :
  AuthMiddleware.apiKeyAuth apiKey = AuthMiddleware.Next ↔
  apiKey = Some API_KEY ∧ API_KEY ≠ "".
Proof.
  unfold AuthMiddleware.apiKeyAuth. destruct apiKey as [key|]; simpl.
  - destruct (String.eqb_spec key ""), (String.eqb_spec key API_KEY);
      simpl; split; try done.
    + intros [[= <-] Hne]. done.
    + intros [[= ->] _]. done.
    + intros _. split; congruence.
    + intros [[= ->] _]. done.
  - split; [done|]. by intros [? _].
Qed.

(** X20. [POST /invoices/:id/generate-payment-link] answers every refusal
    of the coordinator's first transaction with its own status and leaves
    the table as it is: 404 for an unknown or soft-deleted invoice, 409 for
    a PAID invoice, an EXPIRED invoice, an exhausted attempt budget and an
    active link, in that order of precedence.  Without the API key it
    answers 401, and with a blank id 400, before any lookup. *)
Theorem generate_payment_link_refusals (gateway : Gateway)
    (race : Store → Store) (apiKey : option string) (i : string)
    (now later : Z) (db : Store) :
  let out :=
    InvoiceRouteById.generate_payment_link gateway race apiKey i now later
      db in
  (apiKey ≠ Some API_KEY ∨ API_KEY = "" →
   out = (db, RError 401 "Invalid credentials")) ∧
  (apiKey = Some API_KEY → API_KEY ≠ "" →
   (InvoiceRouteById.invalidId i = true →
    out = (db, RError 400 "ID invoice tidak valid")) ∧
   (InvoiceRouteById.invalidId i = false →
    (findById i db = None →
     out = (db, RError 404 "Invoice tidak ditemukan")) ∧
    (∀ k r, findById i db = Some (k, r) →
       (status r = PAID → out = (db, RError 409 "Invoice sudah lunas")) ∧
       (status r = EXPIRED →
        out = (db, RError 409 "Invoice sudah kadaluarsa")) ∧
       (status r ≠ PAID → status r ≠ EXPIRED →
        (3 ≤ paymentAttemptCount r →
         out = (db, RError 409 "Maksimal percobaan pembayaran tercapai")) ∧
        (paymentAttemptCount r < 3 →
         InvoiceService.activeLink r now = true →
         out = (db, RError 409 "Payment link aktif sudah ada")))))).
Proof.
  intros out. subst out. unfold InvoiceRouteById.generate_payment_link.
  split.
  - intros Hbad.
    destruct (AuthMiddleware.apiKeyAuth apiKey) eqn:Hauth; try done.
    apply apiKeyAuth_Next in Hauth as [-> Hne]. by destruct Hbad.
  - intros Hkey Hne.
    rewrite (proj2 (apiKeyAuth_Next apiKey)) by done.
    split; [by intros ->|]. intros ->.
    unfold InvoiceService.generatePaymentLink, InvoiceService.phase1.
    split; [by intros ->|].
    intros k r ->. split; [|split].
    + intros Hp. by rewrite decide_True.
    + intros He. destruct (decide (status r = PAID)); [congruence|].
      by rewrite decide_True.
    + intros Hp He. rewrite !(decide_False (P := status r = _)) by done.
      split.
      * intros Hc. by rewrite decide_True.
      * intros Hc Ha. rewrite decide_False by lia. by rewrite Ha.
Qed.

(** X21. With [id] the primary key, [DELETE /invoices/:id] on a live
    invoice answers with the invoice, now stamped as deleted, after which
    [GET /invoices/:id] answers 404 and a second DELETE answers 404 and
    changes nothing. *)
Theorem delete_then_get (apiKey : option string) (i : string) (now : Z)
    (db : Store) (k : nat) (r : Invoice) :
  primaryKey db → apiKey = Some API_KEY → API_KEY ≠ "" →
  InvoiceRouteById.invalidId i = false →
  findById i db = Some (k, r) →
  let out := InvoiceRouteById.delete_invoice apiKey i now db in
  (∃ r', out.2 = RInvoice r' ∧ deletedAt r' = Some now ∧ id r' = id r ∧
         orderId r' = orderId r ∧ status r' = status r) ∧
  InvoiceRouteById.get_invoice i db = RInvoice r ∧
  InvoiceRouteById.get_invoice i out.1
  = RError 404 "Pembayaran tidak ditemukan" ∧
  (∀ later,
     InvoiceRouteById.delete_invoice apiKey i later out.1
     = (out.1, RError 404 "Pembayaran tidak ditemukan")).
Proof.
  intros Hpk Hkey Hne Hid Hf out.
  pose proof (softDelete_absent i now db k r Hpk Hf) as Habsent.
  destruct (softDelete_found i now db k r Hf) as (r' & Hdel & Hr').
  assert (Hout : out = (<[k := r']> db, RInvoice r')).
  { subst out. unfold InvoiceRouteById.delete_invoice.
    rewrite (proj2 (apiKeyAuth_Next apiKey)) by done. rewrite Hid.
    unfold InvoiceService.softDelete. by rewrite Hdel. }
  rewrite Hdel in Habsent. simpl in Habsent. rewrite Hout. simpl.
  split; [exists r'; subst r'; by repeat split|].
  split.
  { unfold InvoiceRouteById.get_invoice, InvoiceService.getById.
    by rewrite Hid, Hf. }
  split.
  { unfold InvoiceRouteById.get_invoice, InvoiceService.getById.
    by rewrite Hid, Habsent. }
  intros later. unfold InvoiceRouteById.delete_invoice.
  rewrite (proj2 (apiKeyAuth_Next apiKey)) by done. rewrite Hid.
  unfold InvoiceService.softDelete, MikroOrmInvoiceRepository.softDelete.
  unfold findById in Habsent. by rewrite Habsent.
Qed.

End LinkRoutes.

(** ** The rate limiter *)

Section RateLimiter.
Import AuthMiddleware.

Lemma ceilSeconds_bounds (x : Z) :
  1000 * (ceilSeconds x - 1) < x ≤ 1000 * ceilSeconds x.
Proof.
  unfold ceilSeconds.
  pose proof (Z.div_mod (- x) 1000 ltac:(lia)) as Hdm.
  pose proof (Z.mod_pos_bound (- x) 1000 ltac:(lia)) as Hb. lia.
Qed.

(** Requests inside the window an entry describes. *)
Lemma replay_in_window (maxRequests windowMs : Z) (ip : string)
    (times : list Z) (rateLimiter : gmap string Client) (client : Client) :
  rateLimiter !! ip = Some client →
  Forall (λ t, t ≤ resetTime client) times →
  (replay maxRequests windowMs ip times rateLimiter).2
  = Nat.min (length times)
      (Z.to_nat (Z.max 0 (maxRequests - count client))).
Proof.
  revert rateLimiter client.
  induction times as [|now rest IH]; intros rateLimiter client Hc Hall;
    [done|].
  apply Forall_cons in Hall as [Hnow Hrest]. cbn [replay].
  unfold throttle. rewrite Hc.
  rewrite bool_decide_eq_false_2 by lia.
  case_bool_decide as Hfull.
  - specialize (IH rateLimiter client Hc Hrest).
    destruct (replay _ _ _ rest rateLimiter) as [final passed].
    cbn [snd] in *. rewrite IH. lia.
  - set (client' := mkClient (count client + 1) (resetTime client)).
    specialize (IH (<[ip := client']> rateLimiter) client'
                  (lookup_insert_eq _ _ _) Hrest).
    destruct (replay _ _ _ rest _) as [final passed].
    subst client'. cbn [snd count resetTime length] in *. rewrite IH. lia.
Qed.

(** X22. The budget of [throttle(maxRequests, windowMs)]: when a client
    opens a window at [t0] (it has no entry, or its entry has expired),
    then of its [n] requests up to [t0 + windowMs], the opening one
    included, [min(n, max(1, maxRequests))] reach the handler and the others
    are refused; the request that opens a window always passes, even with
    [maxRequests] at 0. *)
Theorem throttle_window_budget (maxRequests windowMs : Z) (ip : string)
    (t0 : Z) (times : list Z) (rateLimiter : gmap string Client) :
  (rateLimiter !! ip = None ∨
   ∃ client, rateLimiter !! ip = Some client ∧ resetTime client < t0) →
  Forall (λ t, t ≤ t0 + windowMs) times →
  (replay maxRequests windowMs ip (t0 :: times) rateLimiter).2
  = Nat.min (S (length times)) (Z.to_nat (Z.max 1 maxRequests)).
Proof.
  intros Hopen Hall. cbn [replay].
  set (opened := mkClient 1 (t0 + windowMs)).
  assert (Hfirst : throttle maxRequests windowMs ip t0 rateLimiter
                   = (<[ip := opened]> rateLimiter, Next)).
  { unfold throttle. destruct Hopen as [->|(client & -> & Hexp)]; [done|].
    by rewrite bool_decide_eq_true_2. }
  rewrite Hfirst.
  pose proof (replay_in_window maxRequests windowMs ip times
                (<[ip := opened]> rateLimiter) opened
                (lookup_insert_eq _ _ _) Hall) as Hrest.
  destruct (replay _ _ _ times _) as [final passed].
  subst opened. cbn [snd count resetTime length] in *. rewrite Hrest. lia.
Qed.

(** X23. [cleanupRateLimiter] is invisible to the throttle: for a request
    at or after the instant of the clean-up, the verdict and the entry the
    client is left with are the same whether or not the clean-up ran; the
    clean-up removes exactly the entries whose window had ended. *)
Theorem cleanup_is_transparent (maxRequests windowMs : Z) (ip : string)
    (cleanedAt now : Z) (rateLimiter : gmap string Client) :
  cleanedAt ≤ now →
  let cleaned := cleanupRateLimiter cleanedAt rateLimiter in
  (throttle maxRequests windowMs ip now cleaned).2
  = (throttle maxRequests windowMs ip now rateLimiter).2 ∧
  (throttle maxRequests windowMs ip now cleaned).1 !! ip
  = (throttle maxRequests windowMs ip now rateLimiter).1 !! ip ∧
  (∀ ip' client,
     cleaned !! ip' = Some client ↔
     rateLimiter !! ip' = Some client ∧ cleanedAt ≤ resetTime client).
Proof.
  intros Hle cleaned.
  assert (Hlookup : ∀ ip' client,
            cleaned !! ip' = Some client ↔
            rateLimiter !! ip' = Some client ∧ cleanedAt ≤ resetTime client).
  { intros ip' client. subst cleaned. unfold cleanupRateLimiter.
    rewrite map_lookup_filter_Some. simpl. split; intros [? ?]; split;
      try done; lia. }
  split; [|split; [|done]].
  - unfold throttle.
    destruct (rateLimiter !! ip) as [client|] eqn:Hc.
    + destruct (decide (cleanedAt ≤ resetTime client)) as [Hlive|Hdead].
      * rewrite (proj2 (Hlookup ip client)) by done.
        case_bool_decide; [done|]. by case_bool_decide.
      * assert (cleaned !! ip = None) as ->.
        { destruct (cleaned !! ip) as [c|] eqn:Hcc; [|done].
          apply Hlookup in Hcc as [Hcc ?]. rewrite Hc in Hcc.
          injection Hcc as <-. done. }
        by rewrite bool_decide_eq_true_2 by lia.
    + assert (cleaned !! ip = None) as ->; [|done].
      destruct (cleaned !! ip) as [c|] eqn:Hcc; [|done].
      apply Hlookup in Hcc as [Hcc ?]. by rewrite Hc in Hcc.
  - unfold throttle.
    destruct (rateLimiter !! ip) as [client|] eqn:Hc.
    + destruct (decide (cleanedAt ≤ resetTime client)) as [Hlive|Hdead].
      * rewrite (proj2 (Hlookup ip client)) by done.
        case_bool_decide; simpl; [by rewrite !lookup_insert_eq|].
        case_bool_decide; simpl; [|by rewrite !lookup_insert_eq].
        rewrite Hc. by apply Hlookup.
      * assert (cleaned !! ip = None) as ->.
        { destruct (cleaned !! ip) as [c|] eqn:Hcc; [|done].
          apply Hlookup in Hcc as [Hcc ?]. rewrite Hc in Hcc.
          injection Hcc as <-. done. }
        rewrite bool_decide_eq_true_2 by lia. simpl.
        by rewrite !lookup_insert_eq.
    + assert (cleaned !! ip = None) as ->.
      { destruct (cleaned !! ip) as [c|] eqn:Hcc; [|done].
        apply Hlookup in Hcc as [Hcc ?]. by rewrite Hc in Hcc. }
      simpl. by rewrite !lookup_insert_eq.
Qed.

(** X24. The throttle accounts per client: a request of one client never
    changes the entry of another, and its verdict and the entry it is left
    with depend on nothing but that client's own entry. *)
Theorem throttle_is_per_client (maxRequests windowMs : Z) (ip : string)
    (now : Z) (rateLimiter rateLimiter' : gmap string Client) :
  (∀ ip', ip' ≠ ip →
     (throttle maxRequests windowMs ip now rateLimiter).1 !! ip'
     = rateLimiter !! ip') ∧
  (rateLimiter !! ip = rateLimiter' !! ip →
   (throttle maxRequests windowMs ip now rateLimiter).2
   = (throttle maxRequests windowMs ip now rateLimiter').2 ∧
   (throttle maxRequests windowMs ip now rateLimiter).1 !! ip
   = (throttle maxRequests windowMs ip now rateLimiter').1 !! ip).
Proof.
  split.
  - intros ip' Hne. unfold throttle.
    destruct (rateLimiter !! ip) as [client|]; simpl;
      [|by rewrite lookup_insert_ne].
    case_bool_decide; simpl; [by rewrite lookup_insert_ne|].
    case_bool_decide; simpl; [done|by rewrite lookup_insert_ne].
  - intros Heq. unfold throttle. rewrite <- Heq.
    destruct (rateLimiter !! ip) as [client|] eqn:Hc; simpl;
      [|by rewrite !lookup_insert_eq].
    case_bool_decide; simpl; [by rewrite !lookup_insert_eq|].
    case_bool_decide; simpl; [|by rewrite !lookup_insert_eq].
    split; [done|]. by rewrite Hc, <- Heq.
Qed.

(** X25. A refused request costs nothing and is told how long to wait: the
    throttle answers 429 only to a client whose window is still open and
    whose count has reached [maxRequests]; it then leaves the limiter as it
    is, and [retryAfter] is the time to the end of the window in whole
    seconds, rounded up (never negative). *)
Theorem throttle_refusal (maxRequests windowMs : Z) (ip : string) (now : Z)
    (rateLimiter : gmap string Client) (retryAfter : Z) :
  (throttle maxRequests windowMs ip now rateLimiter).2
  = TooManyRequests retryAfter →
  (throttle maxRequests windowMs ip now rateLimiter).1 = rateLimiter ∧
  ∃ client,
    rateLimiter !! ip = Some client ∧ now ≤ resetTime client ∧
    maxRequests ≤ count client ∧
    0 ≤ retryAfter ∧
    1000 * (retryAfter - 1) < resetTime client - now ≤ 1000 * retryAfter.
Proof.
  unfold throttle. destruct (rateLimiter !! ip) as [client|]; [|done].
  case_bool_decide as Hexp; [done|]. case_bool_decide as Hfull; [|done].
  simpl. intros [= <-]. split; [done|]. exists client.
  pose proof (ceilSeconds_bounds (resetTime client - now)).
  repeat split; try done; lia.
Qed.

(** X6. The policies share one limiter: the count a client runs up under
    one throttle is the count every other throttle compares with its own
    maximum, inside the window the first one opened.  After a request that
    opens a window under [throttle(m1, w1)], of the client's [n] requests
    up to the end of that window a [throttle(m2, w2)] lets
    [min(n, max(0, m2 - 1))] through, whatever [w2] is. *)
Theorem throttle_policies_share_limiter (m1 w1 m2 w2 : Z) (ip : string)
    (t0 : Z) (times : list Z) (rateLimiter : gmap string Client) :
  (rateLimiter !! ip = None ∨
   ∃ client, rateLimiter !! ip = Some client ∧ resetTime client < t0) →
  Forall (λ t, t ≤ t0 + w1) times →
  let opened := throttle m1 w1 ip t0 rateLimiter in
  opened.2 = Next ∧
  (replay m2 w2 ip times opened.1).2
  = Nat.min (length times) (Z.to_nat (Z.max 0 (m2 - 1))).
Proof.
  intros Hopen Hall opened.
  assert (Hfirst : opened = (<[ip := mkClient 1 (t0 + w1)]> rateLimiter, Next)).
  { subst opened. unfold throttle.
    destruct Hopen as [->|(client & -> & Hexp)]; [done|].
    by rewrite bool_decide_eq_true_2. }
  rewrite Hfirst. split; [done|]. cbn [fst].
  by rewrite (replay_in_window m2 w2 ip times _ (mkClient 1 (t0 + w1))
                (lookup_insert_eq _ _ _) Hall).
Qed.

End RateLimiter.

(** ** The conditional update, once *)

Section FirstWriter.
Import MikroOrmInvoiceRepository.

(** X4. The first writer wins: after a conditional update to a status
    other than PENDING, whether it changed a row or not, no live invoice of
    the order is PENDING any more, so every further conditional update for
    that order, to whatever status and with whatever payload, answers NOOP
    and leaves the table as it is. *)
Theorem conditional_update_first_writer_wins (o : string)
    (st1 st2 : InvoiceStatus) (pd1 pd2 : option Notification) (t1 t2 : Z)
    (db : Store) :
  st1 ≠ PENDING →
  let first := updateStatusAtomicFromPending o st1 pd1 t1 db in
  (∀ k r, first.1 !! k = Some r → orderId r = o → deletedAt r = None →
          status r ≠ PENDING) ∧
  updateStatusAtomicFromPending o st2 pd2 t2 first.1 = (first.1, NOOP).
Proof.
  intros Hst first.
  assert (Hnone : ∀ k r', first.1 !! k = Some r' → where_pending o r' = false).
  { intros k r' Hk. subst first. rewrite atomic_fst in Hk.
    unfold nativeUpdate in Hk. simpl in Hk. rewrite list_lookup_fmap in Hk.
    destruct (db !! k) as [r|]; [|done]. injection Hk as <-.
    destruct (where_pending o r) eqn:Hw; [|done].
    apply where_pending_false. intros (_ & Hp & _).
    destruct pd1; simpl in Hp; congruence. }
  split.
  - intros k r Hk Ho Hd Hp. specialize (Hnone k r Hk).
    apply where_pending_false in Hnone. tauto.
  - by apply atomic_noop.
Qed.

End FirstWriter.

(** ** Further instances on the sample data *)

Lemma create_then_findByOrderId_sample :
  let db := [sampleInvoice PENDING 0 None None (Some 3)] in
  (∃ invoice,
     @MikroOrmInvoiceRepository.create sampleDriver "inv-2" "PAY-2" 5000 7 db
     = ((db ++ [invoice])%list, Ok invoice) ∧
     MikroOrmInvoiceRepository.findByOrderId "PAY-2" (db ++ [invoice])%list
     = Some (1%nat, invoice)) ∧
  @MikroOrmInvoiceRepository.create sampleDriver "inv-2" "PAY-2" 2147483648 7
    db
  = (db, Throw "DriverException") ∧
  ∃ message,
    @MikroOrmInvoiceRepository.create sampleDriver "inv-2" "PAY-1" 5000 7 db
    = (db, Throw message).
Proof.
  intros db.
  pose proof (create_then_findByOrderId (driver := sampleDriver) "inv-2"
                "PAY-2" 5000 7 db) as (Hnew & _).
  pose proof (create_then_findByOrderId (driver := sampleDriver) "inv-2"
                "PAY-2" 2147483648 7 db) as (_ & _ & Hrefused & _).
  pose proof (create_then_findByOrderId (driver := sampleDriver) "inv-2"
                "PAY-1" 5000 7 db) as (_ & _ & _ & Htaken).
  split; [|split].
  - destruct (Hnew eq_refl eq_refl) as (invoice & Hc & Hf & _).
    exists invoice. split; [exact Hc|exact Hf].
  - exact (Hrefused eq_refl eq_refl).
  - exact (Htaken 0%nat (sampleInvoice PENDING 0 None None (Some 3)) eq_refl
             eq_refl).
Defined.

Lemma live_orderId_stays_unique_sample :
  liveUnique
    (@commit sampleDriver (WCreate "inv-2" "PAY-2" 5000 7)
       [sampleInvoice PENDING 0 None None None]).
Proof.
  apply (proj1 (live_orderId_stays_unique (driver := sampleDriver))).
  intros [|j] [|k] r r' Hj Hk _ _ _; try reflexivity; discriminate.
Defined.

Lemma softDelete_then_absent_sample :
  let db := [sampleInvoice PAID 0 None None None] in
  MikroOrmInvoiceRepository.findById "inv-1"
    (MikroOrmInvoiceRepository.softDelete "inv-1" 9 db).1 = None.
Proof.
  intros db.
  assert (Hpk : primaryKey db).
  { intros [|j] [|k] r r' Hj Hk _; try reflexivity; discriminate. }
  destruct (softDelete_then_absent "inv-1" 9 db 0
              (sampleInvoice PAID 0 None None None) Hpk eq_refl)
    as (_ & _ & Habsent & _).
  exact Habsent.
Defined.

Lemma conditional_update_first_writer_wins_sample :
  let db := [sampleInvoice PENDING 0 None None None] in
  let first :=
    MikroOrmInvoiceRepository.updateStatusAtomicFromPending "PAY-1" EXPIRED
      None 5 db in
  MikroOrmInvoiceRepository.updateStatusAtomicFromPending "PAY-1" PAID
    (Some (sampleNotification "settlement" "100000" "")) 6 first.1
  = (first.1, NOOP).
Proof.
  intros db first.
  assert (Hne : EXPIRED ≠ PENDING) by discriminate.
  exact (proj2 (conditional_update_first_writer_wins "PAY-1" EXPIRED PAID None
                  (Some (sampleNotification "settlement" "100000" "")) 5 6 db
                  Hne)).
Defined.

Lemma updateStatus_then_find_sample :
  let db := [sampleInvoice PAID 0 None None None] in
  ∃ r',
    (MikroOrmInvoiceRepository.updateStatus "inv-1" FAILED None 9 db).2
    = Ok r' ∧ status r' = FAILED.
Proof.
  intros db.
  pose proof (updateStatus_then_find FAILED None 9 db 0
                (sampleInvoice PAID 0 None None None)) as Hall.
  cbv zeta in Hall. destruct Hall as [Hid _].
  destruct (Hid "inv-1" eq_refl) as (r' & Hr & _ & Hs & _).
  exists r'. split; [exact Hr|exact Hs].
Defined.

Lemma notification_replay_sample :
  let sig := "sha512:PAY-1200100000SB-Mid-server-KEY" in
  let body := sampleNotification "settlement" "100000" sig in
  let db := [sampleInvoice PENDING 0 None None None] in
  let first :=
    @MidtransRoute.notification (samplePlatform true) sig body 5 (λ d, d) ∅
      db in
  let processed' : gset string := {["PAY-9_trx-9_settlement"]} ∪ first.1.1 in
  let db' := [sampleInvoice PENDING 0 None None None] in
  @MidtransRoute.notification (samplePlatform true) sig body 6 (λ d, [])
    processed' db'
  = (processed', db', mkResponse 200 (JSuccessMessage "Sudah diproses")).
Proof.
  intros sig body db first processed' db'.
  set (paid := mkInvoice "inv-1" "PAY-1" 100000 PAID (Some "bank_transfer")
                 (Some "bca") (Some "1234567890") (Some "{}") (Some 5) None
                 None 0 0 5 None).
  assert (Hfirst : first.2 = mkResponse 200 (JSuccessInvoice (Some paid)))
    by (vm_compute; reflexivity).
  assert (Hgrown : first.1.1 ⊆ processed') by apply union_subseteq_r.
  exact (@notification_replay (samplePlatform true) sig body 5 6 (λ d, d)
           (λ d, []) ∅ processed' db db' (Some paid) Hfirst Hgrown).
Defined.

Lemma notification_records_key_on_success_sample :
  let sig := "sha512:PAY-1200100000SB-Mid-server-KEY" in
  let body := sampleNotification "settlement" "100000" sig in
  let db := [sampleInvoice PENDING 0 None None None] in
  (@MidtransRoute.notification (samplePlatform true) sig body 5 (λ d, d) ∅
     db).1.1
  = {["PAY-1_trx-1_settlement"]} ∪ ∅.
Proof.
  intros sig body db.
  pose proof (@notification_records_key_on_success (samplePlatform true) sig
                body 5 (λ d, d) ∅ db) as Hall.
  cbv zeta in Hall. destruct Hall as [Hrecorded _].
  assert (Hne : status (sampleInvoice PENDING 0 None None None) ≠ PAID)
    by discriminate.
  rewrite (Hrecorded PAID); [reflexivity|].
  split; [reflexivity|]. split; [reflexivity|].
  split; [apply not_elem_of_empty|].
  split; [|split; reflexivity].
  exists 0%nat, (sampleInvoice PENDING 0 None None None).
  split; [reflexivity|]. split; [reflexivity|]. split; [reflexivity|done].
Defined.

Lemma notification_keeps_other_orders_sample :
  let sig := "sha512:PAY-1200100000SB-Mid-server-KEY" in
  let body := sampleNotification "settlement" "100000" sig in
  let other :=
    mkInvoice "inv-2" "PAY-2" 100000 PENDING None None None None None None
      None 0 0 0 None in
  let db := [sampleInvoice PENDING 0 None None None; other] in
  (@MidtransRoute.notification (samplePlatform true) sig body 5 (λ d, d) ∅
     db).1.2 !! 1%nat = Some other.
Proof.
  intros sig body other db.
  assert (Hne : orderId other ≠ str (order_id body)) by discriminate.
  exact (proj1 (@notification_keeps_other_orders (samplePlatform true) sig
                  body 5 (λ d, d) ∅ db 1 other eq_refl eq_refl Hne)).
Defined.

Lemma notification_on_settled_invoice_sample :
  let sig := "sha512:PAY-1200100000SB-Mid-server-KEY" in
  let body := sampleNotification "settlement" "100000" sig in
  let db := [sampleInvoice FAILED 0 None None None] in
  @MidtransRoute.notification (samplePlatform true) sig body 5 (λ d, d) ∅ db
  = (∅, db, mkResponse 200 (JSuccessMessage "Status transition not allowed")).
Proof.
  intros sig body db.
  assert (Hst : status (sampleInvoice FAILED 0 None None None) ≠ PENDING)
    by discriminate.
  pose proof (@notification_on_settled_invoice (samplePlatform true) sig body
                5 (λ d, d) ∅ db 0 (sampleInvoice FAILED 0 None None None)
                eq_refl Hst) as Hall.
  cbv zeta in Hall. destruct Hall as [Hsame Hanswer].
  specialize (Hanswer eq_refl eq_refl (or_intror eq_refl)
                (not_elem_of_empty _) eq_refl PAID eq_refl).
  rewrite (surjective_pairing (MidtransRoute.notification _ _ _ _ _ _)).
  by rewrite Hsame, Hanswer.
Defined.

Lemma notification_success_sample :
  let sig := "sha512:PAY-1200100000SB-Mid-server-KEY" in
  let body := sampleNotification "settlement" "100000" sig in
  let db := [sampleInvoice PENDING 0 None None None] in
  ∃ updated db',
    @MidtransRoute.notification (samplePlatform true) sig body 5 (λ d, d) ∅
      db
    = ({[@MidtransRoute.notificationId body]} ∪ ∅, db',
       mkResponse 200 (JSuccessInvoice (Some updated))) ∧
    status updated = PAID ∧ paidAt updated = Some 5.
Proof.
  intros sig body db.
  assert (Hne : PAID ≠ PENDING) by discriminate.
  destruct (@notification_success (samplePlatform true) sig body 5 (λ d, d)
              ∅ db 0 (sampleInvoice PENDING 0 None None None) PAID eq_refl
              (or_intror eq_refl) (not_elem_of_empty _) eq_refl eq_refl
              eq_refl eq_refl Hne eq_refl)
    as (updated & db' & Hout & _ & Hs & _ & _ & Hp & _).
  exists updated, db'. split; [exact Hout|]. split; [exact Hs|exact Hp].
Defined.

Lemma gatewayRequest_reference_sample :
  req_order_id
    (InvoiceService.gatewayRequest (sampleInvoice PENDING 1 None None None))
  ≠ req_order_id
      (InvoiceService.gatewayRequest (sampleInvoice PENDING 2 None None None)).
Proof.
  intros Heq.
  apply (proj1 (proj1 (gatewayRequest_reference
                         (sampleInvoice PENDING 1 None None None)
                         (sampleInvoice PENDING 2 None None None) eq_refl)))
    in Heq.
  discriminate.
Defined.

Lemma generatePaymentLink_again_within_window_sample :
  let db := [sampleInvoice PENDING 0 None None None] in
  let db3 :=
    (InvoiceService.generatePaymentLink workingGateway (λ d, d) "inv-1" 10 20
       db).1 in
  InvoiceService.generatePaymentLink failingGateway (λ d, d) "inv-1" 60000
    60001 db3
  = (db3, Throw "ACTIVE_PAYMENT_LINK_EXISTS").
Proof.
  intros db db3.
  set (marked := mkInvoice "inv-1" "PAY-1" 100000 PENDING None None None None
                   None None (Some 10) 1 0 10 None).
  assert (Hp : InvoiceService.phase1 "inv-1" 10 db
               = ([marked], Ok (0%nat, marked))) by reflexivity.
  assert (Hg : workingGateway (InvoiceService.gatewayRequest marked)
               = Ok "https://app.midtrans.com/payment-links/1")
    by reflexivity.
  assert (Hurl : "https://app.midtrans.com/payment-links/1" ≠ "")
    by discriminate.
  assert (Hlt : 60000 - 10 < 30 * 60 * 1000) by lia.
  exact (generatePaymentLink_again_within_window workingGateway
           failingGateway (λ d, d) (λ d, d) "inv-1" 10 20 60000 60001 db
           [marked] 0 marked _ Hp Hg Hurl eq_refl Hlt).
Defined.

Lemma generatePaymentLink_retry_after_failure_sample :
  let db := [sampleInvoice PENDING 0 None None None] in
  let db3 :=
    (InvoiceService.generatePaymentLink failingGateway (λ d, d) "inv-1" 10 20
       db).1 in
  ∃ db4 marked',
    InvoiceService.phase1 "inv-1" 30 db3 = (db4, Ok (0%nat, marked')) ∧
    paymentAttemptCount marked' = 1 + 1 ∧
    paymentLinkCreatedAt marked' = Some 30.
Proof.
  intros db db3.
  set (marked := mkInvoice "inv-1" "PAY-1" 100000 PENDING None None None None
                   None None (Some 10) 1 0 10 None).
  assert (Hp : InvoiceService.phase1 "inv-1" 10 db
               = ([marked], Ok (0%nat, marked))) by reflexivity.
  assert (Hg : failingGateway (InvoiceService.gatewayRequest marked)
               = Throw "Midtrans API error: 500 - ") by reflexivity.
  assert (Hleft : paymentAttemptCount marked < 3) by (simpl; lia).
  exact (proj2 (generatePaymentLink_retry_after_failure failingGateway
                  (λ d, d) "inv-1" 10 20 30 db [marked] 0 marked _ Hp Hg
                  eq_refl) Hleft).
Defined.

Lemma payment_links_restores_lock_sample :
  let db := [sampleInvoice PENDING 0 None None None] in
  InvoiceRoute.payment_links workingGateway (λ d, d) "PAY-1" 10 11 20
    {["payment_link_PAY-1"]} db
  = ({["payment_link_PAY-1"]}, db,
     mkResponse 429
       (JError "Payment link generation is already in progress")).
Proof.
  intros db.
  assert (Hin : "payment_link_" +:+ "PAY-1"
                ∈ ({["payment_link_PAY-1"]} : gset string))
    by (by apply elem_of_singleton).
  assert (Hne : "PAY-1" ≠ "") by discriminate.
  exact (proj2 (payment_links_restores_lock workingGateway (λ d, d) "PAY-1"
                  10 11 20 {["payment_link_PAY-1"]} db) Hin Hne).
Defined.

Lemma payment_links_500_only_from_gateway_sample :
  let db := [sampleInvoice PENDING 0 None None None] in
  ∃ k payment db1 marked message,
    InvoiceService.getByOrderId "PAY-1" db = Some (k, payment) ∧
    InvoiceService.phase1 (id payment) 11 db = (db1, Ok (k, marked)) ∧
    paymentAttemptCount marked = paymentAttemptCount payment + 1 ∧
    failingGateway (InvoiceService.gatewayRequest marked) = Throw message.
Proof.
  intros db.
  assert (Hpk : primaryKey db).
  { intros [|j] [|k] r r' Hj Hk _; try reflexivity; discriminate. }
  assert (Hclock : 10 ≤ 11) by lia.
  assert (H500 : http_status
                   (InvoiceRoute.payment_links failingGateway (λ d, d)
                      "PAY-1" 10 11 20 ∅ db).2 = 500)
    by (vm_compute; reflexivity).
  exact (payment_links_500_only_from_gateway failingGateway (λ d, d) "PAY-1"
           10 11 20 ∅ db Hpk Hclock (λ d, eq_refl) H500).
Defined.

Lemma generate_payment_link_refusals_sample :
  let db := [sampleInvoice PAID 0 None None None] in
  @InvoiceRouteById.generate_payment_link sampleHttp workingGateway (λ d, d)
    (Some "secret-key") "inv-1" 10 20 db
  = (db, RError 409 "Invoice sudah lunas").
Proof.
  intros db.
  pose proof (@generate_payment_link_refusals sampleHttp workingGateway
                (λ d, d) (Some "secret-key") "inv-1" 10 20 db) as Hall.
  cbv zeta in Hall. destruct Hall as [_ Hkey].
  assert (Hne : @API_KEY sampleHttp ≠ "") by discriminate.
  destruct (Hkey eq_refl Hne) as [_ Hid].
  destruct (Hid eq_refl) as [_ Hfound].
  destruct (Hfound 0%nat (sampleInvoice PAID 0 None None None) eq_refl)
    as [Hpaid _].
  exact (Hpaid eq_refl).
Defined.

Lemma delete_then_get_sample :
  let db := [sampleInvoice PENDING 0 None None None] in
  let out :=
    @InvoiceRouteById.delete_invoice sampleHttp (Some "secret-key") "inv-1" 9
      db in
  @InvoiceRouteById.get_invoice sampleHttp "inv-1" out.1
  = RError 404 "Pembayaran tidak ditemukan".
Proof.
  intros db out.
  assert (Hpk : primaryKey db).
  { intros [|j] [|k] r r' Hj Hk _; try reflexivity; discriminate. }
  assert (Hne : @API_KEY sampleHttp ≠ "") by discriminate.
  destruct (@delete_then_get sampleHttp (Some "secret-key") "inv-1" 9 db 0
              (sampleInvoice PENDING 0 None None None) Hpk eq_refl Hne
              eq_refl eq_refl)
    as (_ & _ & Hgone & _).
  exact Hgone.
Defined.

Lemma throttle_window_budget_sample :
  (replay 3 60000 "10.0.0.1" [0; 1; 2; 3; 60000] ∅).2 = 3%nat.
Proof.
  assert (Hall : Forall (λ t, t ≤ 0 + 60000) [1; 2; 3; 60000])
    by (repeat constructor; lia).
  exact (throttle_window_budget 3 60000 "10.0.0.1" 0 [1; 2; 3; 60000] ∅
           (or_introl (lookup_empty _)) Hall).
Defined.

Lemma throttle_policies_share_limiter_sample :
  (replay 3 1000 "10.0.0.1" [1; 2; 3; 60000]
     (AuthMiddleware.throttle 100 60000 "10.0.0.1" 0 ∅).1).2 = 2%nat.
Proof.
  assert (Hall : Forall (λ t, t ≤ 0 + 60000) [1; 2; 3; 60000])
    by (repeat constructor; lia).
  exact (proj2 (throttle_policies_share_limiter 100 60000 3 1000 "10.0.0.1"
                  0 [1; 2; 3; 60000] ∅ (or_introl (lookup_empty _)) Hall)).
Defined.

Lemma cleanup_is_transparent_sample :
  let rateLimiter : gmap string AuthMiddleware.Client :=
    {["10.0.0.1" := AuthMiddleware.mkClient 3 10]} in
  (AuthMiddleware.throttle 3 60000 "10.0.0.1" 30
     (AuthMiddleware.cleanupRateLimiter 20 rateLimiter)).2
  = (AuthMiddleware.throttle 3 60000 "10.0.0.1" 30 rateLimiter).2.
Proof.
  intros rateLimiter.
  assert (Hle : 20 ≤ 30) by lia.
  exact (proj1 (cleanup_is_transparent 3 60000 "10.0.0.1" 20 30 rateLimiter
                  Hle)).
Defined.

Lemma throttle_is_per_client_sample :
  let client := AuthMiddleware.mkClient 3 60000 in
  let rateLimiter : gmap string AuthMiddleware.Client :=
    {["10.0.0.1" := client]} in
  let rateLimiter' : gmap string AuthMiddleware.Client :=
    <["10.0.0.2" := AuthMiddleware.mkClient 1 500]> rateLimiter in
  (AuthMiddleware.throttle 3 60000 "10.0.0.1" 30 rateLimiter).2
  = (AuthMiddleware.throttle 3 60000 "10.0.0.1" 30 rateLimiter').2.
Proof.
  intros client rateLimiter rateLimiter'.
  assert (Heq : rateLimiter !! "10.0.0.1" = rateLimiter' !! "10.0.0.1")
    by (vm_compute; reflexivity).
  exact (proj1 (proj2 (throttle_is_per_client 3 60000 "10.0.0.1" 30
                         rateLimiter rateLimiter') Heq)).
Defined.

Lemma throttle_refusal_sample :
  let rateLimiter : gmap string AuthMiddleware.Client :=
    {["10.0.0.1" := AuthMiddleware.mkClient 3 60000]} in
  (AuthMiddleware.throttle 3 60000 "10.0.0.1" 1500 rateLimiter).1
  = rateLimiter.
Proof.
  intros rateLimiter.
  assert (Hrefused : (AuthMiddleware.throttle 3 60000 "10.0.0.1" 1500
                        rateLimiter).2 = AuthMiddleware.TooManyRequests 59)
    by (vm_compute; reflexivity).
  exact (proj1 (throttle_refusal 3 60000 "10.0.0.1" 1500 rateLimiter 59
                  Hrefused)).
Defined.
